(** * SEBA: spectral energy budget of the atmosphere

    A shallow embedding of the numerical core of the SEBA sources
    ([tools.py], [AtmosphericEnergyBudget.py], [src/seba.py],
    [src/io_tools.py]) and the properties of it that the specification
    states.

    Conventions of the embedding.
    - Python integers are [Z] (or [nat] where the source only counts).
    - NumPy [float64] values are idealised as real numbers ([R]): rounding,
      overflow and the order of floating-point summation are not modelled.
      Where a value may be NaN the element type is [fp].
    - Where the source permutes and reshapes axes ([prepare_data],
      [recover_data]) an array is its shape and its elements by
      multi-index ([ndarray]).  Elsewhere arrays are lists: trailing
      "sample" axes (time, level, ...) on which the source only works
      element by element are kept flattened in C order, and the comment of
      each definition says which axes it keeps.
    - A Python exception is the [Raise] branch of [result].
    - Code of other packages (spharm / SHTns transforms, SciPy's [simpson],
      the Fortran routine [integrate_order]) and constants of modules that
      are not part of the embedded files are section variables. *)

From Stdlib Require Import String Ascii DecimalString.
From Stdlib Require Import List ZArith Lia Bool Arith.
From Stdlib Require Import Permutation Sorting.Sorted.
From Stdlib Require Import Reals Lra.
Import ListNotations.

Set Implicit Arguments.

(** ** Exceptions and results *)

Inductive exn : Type :=
| ValueError (msg : string)
| AssertionError (msg : string)
| AxisError
| ZeroDivisionError.

Inductive result (A : Type) : Type :=
| Ok (a : A)
| Raise (e : exn).

Arguments Ok {A} a.
Arguments Raise {A} e.

Definition bind {A B : Type} (r : result A) (k : A -> result B) : result B :=
  match r with
  | Ok a => k a
  | Raise e => Raise e
  end.

Notation "x <- r ;; k" := (bind r (fun x => k))
  (at level 61, r at next level, right associativity).

(** ** Numbers and lists shared by the modules *)

Definition Rleb (x y : R) : bool := if Rle_dec x y then true else false.
Definition Reqb (x y : R) : bool := if Req_dec_T x y then true else false.

(** Element-wise operation on two arrays of one shape. *)
Definition zip_with {X Y W : Type} (f : X -> Y -> W)
  (a : list X) (b : list Y) : list W :=
  map (fun xy => f (fst xy) (snd xy)) (combine a b).

(** [a.sum()] *)
Definition rsum (l : list R) : R := fold_right Rplus 0%R l.

(** [x.clip(lo, hi)] *)
Definition clip (lo hi x : R) : R := Rmin (Rmax x lo) hi.

(** Complex numbers: spectral coefficients. *)
Definition complex : Type := (R * R)%type.
Definition Cmul (a b : complex) : complex :=
  (fst a * fst b - snd a * snd b, fst a * snd b + snd a * fst b)%R.
Definition Cconj (a : complex) : complex := (fst a, - snd a)%R.
Definition Cre (a : complex) : R := fst a.
Definition C0 : complex := (0, 0)%R.

(** ** tools.py *)

Module Tools.

Local Open Scope Z_scope.

(** [number_chunks]: the [while sample_size % jobs: jobs -= 1] loop.
    [sample_size % 0] raises [ZeroDivisionError]; Python's [%] is the
    floored remainder, as [Z.modulo].  [None] is "still running" when the
    fuel is used up. *)
Fixpoint number_chunks_loop (fuel : nat) (sample_size jobs : Z)
  : option (result Z) :=
  match fuel with
  | O => None
  | S fuel' =>
      if jobs =? 0 then Some (Raise ZeroDivisionError)
      else if sample_size mod jobs =? 0 then Some (Ok jobs)
      else number_chunks_loop fuel' sample_size (jobs - 1)
  end.

(** [return jobs if jobs != 1 else workers] *)
Definition number_chunks (fuel : nat) (sample_size workers : Z)
  : option (result Z) :=
  match number_chunks_loop fuel sample_size workers with
  | Some (Ok jobs) => Some (Ok (if jobs =? 1 then workers else jobs))
  | other => other
  end.

(** The caller in [AtmosphericEnergyBudget.EnergyBudget.__init__]:
    [jobs = min(cpu_count, packed_size)] (or [min(int(jobs), packed_size)]),
    then [number_chunks(packed_size, jobs)]. *)
Definition init_jobs (fuel : nat) (cpu_count : Z) (jobs : option Z)
  (packed_size : Z) : option (result Z) :=
  let requested :=
    match jobs with
    | None => Z.min cpu_count packed_size
    | Some j => Z.min j packed_size
    end in
  number_chunks fuel packed_size requested.

Close Scope Z_scope.

(** *** Strings: the part of Python's [str] that [prepare_data] uses.
    Characters are bytes; [lower] folds the ASCII capitals only. *)

Fixpoint str_index (c : ascii) (s : string) : option nat :=
  match s with
  | EmptyString => None
  | String c' s' =>
      if Ascii.eqb c' c then Some 0
      else option_map S (str_index c s')
  end.

(** [s.find(c)]: the first index of [c], or -1. *)
Definition str_find (s : string) (c : ascii) : Z :=
  match str_index c s with
  | Some i => Z.of_nat i
  | None => (-1)%Z
  end.

(** [c in s] *)
Definition str_contains (c : ascii) (s : string) : bool :=
  match str_index c s with Some _ => true | None => false end.

Definition lower_ascii (c : ascii) : ascii :=
  let n := nat_of_ascii c in
  if (65 <=? n) && (n <=? 90) then ascii_of_nat (n + 32) else c.

Fixpoint lower (s : string) : string :=
  match s with
  | EmptyString => EmptyString
  | String c s' => String (lower_ascii c) (lower s')
  end.

(** [s.replace(c, '')] *)
Fixpoint str_remove (c : ascii) (s : string) : string :=
  match s with
  | EmptyString => EmptyString
  | String c' s' =>
      if Ascii.eqb c' c then str_remove c s' else String c' (str_remove c s')
  end.

(** *** N-dimensional arrays

    An array is its shape and its elements by multi-index.  The embedding
    never looks at an element outside the shape, so two arrays are the
    same array when they agree in shape and on every index inside it
    ([array_eq]). *)

Record ndarray (A : Type) : Type := {
  shape : list nat;
  elem : list nat -> A
}.

Section Arrays.
Variable A : Type.

Definition ndim (a : ndarray A) : nat := length (shape a).

Definition nprod (s : list nat) : nat := fold_right Nat.mul 1 s.

Definition size (a : ndarray A) : nat := nprod (shape a).

(** [idx] is an index of an array of shape [s]. *)
Definition in_range (s idx : list nat) : Prop := Forall2 lt idx s.

Definition array_eq (a b : ndarray A) : Prop :=
  shape a = shape b /\
  forall idx, in_range (shape a) idx -> elem a idx = elem b idx.

(** [normalize_axis_index(ax, n)] *)
Definition normalize_axis (n : nat) (ax : Z) : result nat :=
  if ((ax <? - Z.of_nat n) || (Z.of_nat n <=? ax))%Z then Raise AxisError
  else Ok (Z.to_nat (if (ax <? 0)%Z then ax + Z.of_nat n else ax)%Z).

Fixpoint normalize_axes (n : nat) (axes : list Z) : result (list nat) :=
  match axes with
  | [] => Ok []
  | ax :: rest =>
      k <- normalize_axis n ax ;;
      ks <- normalize_axes n rest ;;
      Ok (k :: ks)
  end.

Fixpoint has_duplicates (l : list nat) : bool :=
  match l with
  | [] => false
  | x :: l' => existsb (Nat.eqb x) l' || has_duplicates l'
  end.

(** [normalize_axis_tuple(axes, n)] (duplicates refused) *)
Definition normalize_axis_tuple (n : nat) (axes : list Z) : result (list nat) :=
  ks <- normalize_axes n axes ;;
  if has_duplicates ks then Raise (ValueError "repeated axis")
  else Ok ks.

(** [list.insert(i, x)]: past the end it appends. *)
Fixpoint insert_at (i : nat) (x : nat) (l : list nat) : list nat :=
  match i, l with
  | O, _ => x :: l
  | S _, [] => [x]
  | S i', y :: l' => y :: insert_at i' x l'
  end.

(** [sorted(...)] on pairs of integers, compared as Python compares tuples. *)
Definition pair_leb (a b : nat * nat) : bool :=
  (fst a <? fst b) || ((fst a =? fst b) && (snd a <=? snd b)).

Fixpoint insert_pair (a : nat * nat) (l : list (nat * nat)) : list (nat * nat) :=
  match l with
  | [] => [a]
  | b :: l' => if pair_leb a b then a :: l else b :: insert_pair a l'
  end.

Definition sorted_pairs (l : list (nat * nat)) : list (nat * nat) :=
  fold_right insert_pair [] l.

(** The permutation [order] that [np.moveaxis] hands to [transpose]:
    [order = [n for n in range(ndim) if n not in source]], then
    [for dest, src in sorted(zip(destination, source)): order.insert(dest, src)]. *)
Definition moveaxis_order (n : nat) (source destination : list nat) : list nat :=
  fold_left (fun order ds => insert_at (fst ds) (snd ds) order)
            (sorted_pairs (combine destination source))
            (filter (fun k => negb (existsb (Nat.eqb k) source)) (seq 0 n)).

Fixpoint index_of (x : nat) (l : list nat) : nat :=
  match l with
  | [] => 0
  | y :: l' => if y =? x then 0 else S (index_of x l')
  end.

(** [a.transpose(order)]: axis [k] of the result is axis [order[k]] of [a]. *)
Definition transpose (a : ndarray A) (order : list nat) : ndarray A :=
  {| shape := map (fun k => nth k (shape a) 0) order;
     elem := fun idx =>
       elem a (map (fun ax => nth (index_of ax order) idx 0) (seq 0 (ndim a))) |}.

Definition moveaxis (a : ndarray A) (source destination : list Z)
  : result (ndarray A) :=
  src <- normalize_axis_tuple (ndim a) source ;;
  dst <- normalize_axis_tuple (ndim a) destination ;;
  if length src =? length dst
  then Ok (transpose a (moveaxis_order (ndim a) src dst))
  else Raise (ValueError "`source` and `destination` arguments must have the same number of elements").

(** C-order flat position of a multi-index, and back. *)
Fixpoint ravel (s idx : list nat) : nat :=
  match s, idx with
  | _ :: s', i :: idx' => i * nprod s' + ravel s' idx'
  | _, _ => 0
  end.

Fixpoint unravel (s : list nat) (k : nat) : list nat :=
  match s with
  | [] => []
  | _ :: s' => k / nprod s' :: unravel s' (k mod nprod s')
  end.

(** The shape argument of [reshape] may hold one -1, the dimension NumPy
    infers; it refuses to infer it when the known dimensions multiply to 0
    or do not divide the size. *)
Definition known_prod (spec : list Z) : Z :=
  fold_right (fun d acc => if (d =? -1)%Z then acc else (d * acc)%Z) 1%Z spec.

Definition resolve_shape (total : nat) (spec : list Z) : result (list nat) :=
  let unknowns := length (filter (fun d => (d =? -1)%Z) spec) in
  if existsb (fun d => (d <? -1)%Z) spec
  then Raise (ValueError "negative dimensions not allowed")
  else if 1 <? unknowns
  then Raise (ValueError "can only specify one unknown dimension")
  else if unknowns =? 1 then
    let known := Z.to_nat (known_prod spec) in
    if (known =? 0) || negb (total mod known =? 0)
    then Raise (ValueError "cannot reshape array")
    else Ok (map (fun d => if (d =? -1)%Z then total / known else Z.to_nat d) spec)
  else Ok (map Z.to_nat spec).

Definition reshape (a : ndarray A) (spec : list Z) : result (ndarray A) :=
  s <- resolve_shape (size a) spec ;;
  if nprod s =? size a
  then Ok {| shape := s;
             elem := fun idx => elem a (unravel (shape a) (ravel s idx)) |}
  else Raise (ValueError "cannot reshape array").

(** [a.squeeze()]: the axes of length 1 are dropped; the elements keep
    their C order. *)
Definition squeeze (a : ndarray A) : ndarray A :=
  let s := filter (fun d => negb (d =? 1)) (shape a) in
  {| shape := s; elem := fun idx => elem a (unravel (shape a) (ravel s idx)) |}.

(** NumPy's broadcasting of two shapes, aligned at the last axis: two
    lengths go together when they are equal or one of them is 1; the
    shorter shape counts as padded with 1 in front.  On reversed shapes. *)
Fixpoint broadcast_rev (r1 r2 : list nat) : option (list nat) :=
  match r1, r2 with
  | [], r => Some r
  | r, [] => Some r
  | a :: r1', b :: r2' =>
      match broadcast_rev r1' r2' with
      | None => None
      | Some r =>
          if a =? b then Some (a :: r)
          else if a =? 1 then Some (b :: r)
          else if b =? 1 then Some (a :: r)
          else None
      end
  end.

Definition broadcast_shapes (s1 s2 : list nat) : option (list nat) :=
  option_map (@rev nat) (broadcast_rev (rev s1) (rev s2)).

(** The index of an operand of shape [s] that an index of the broadcast
    result reads: the trailing components, 0 along an axis of length 1. *)
Fixpoint broadcast_index_rev (rs ridx : list nat) : list nat :=
  match rs, ridx with
  | d :: rs', i :: ridx' => (if d =? 1 then 0 else i) :: broadcast_index_rev rs' ridx'
  | _, _ => []
  end.

Definition broadcast_index (s idx : list nat) : list nat :=
  rev (broadcast_index_rev (rev s) (rev idx)).

(** [a op b] element by element, with broadcasting (the text of NumPy's
    error goes on with the two shapes). *)
Definition broadcast_with (op : A -> A -> A) (a b : ndarray A)
  : result (ndarray A) :=
  match broadcast_shapes (shape a) (shape b) with
  | None => Raise (ValueError "operands could not be broadcast together with shapes")
  | Some s =>
      Ok {| shape := s;
            elem := fun idx => op (elem a (broadcast_index (shape a) idx))
                                  (elem b (broadcast_index (shape b) idx)) |}
  end.

(** *** prepare_data / recover_data *)

Record info_dict : Type := {
  interm_shape : list nat;
  origin_order : string;
  output_order : string
}.

Definition yxz : list ascii := ["y"%char; "x"%char; "z"%char].

Definition shape_spec (s : list nat) : list Z := map Z.of_nat s.

Definition prepare_data (data : ndarray A) (dim_order : string)
  : result (ndarray A * info_dict) :=
  if ndim data <? 3
  then Raise (ValueError "Input fields must be at least 3D")
  else if ndim data <? String.length dim_order
  then Raise (ValueError "Inconsistent number dimensions'dim_order' must have length {}")
  else if negb (str_contains "x" dim_order) || negb (str_contains "y" dim_order)
  then Raise (ValueError "A latitude-longitude grid is required")
  else if negb (str_contains "z" dim_order)
  then Raise (ValueError "A vertical grid is required")
  else
    let spatial_dims := map (str_find (lower dim_order)) yxz in
    data1 <- moveaxis data spatial_dims [0; 1; -1]%Z ;;
    let inter_shape := shape data1 in
    data2 <- reshape data1
               (shape_spec (firstn 2 inter_shape)
                ++ [(-1)%Z; Z.of_nat (last inter_shape 0)]) ;;
    let out_order :=
      str_remove "z" (str_remove "y" (str_remove "x" dim_order)) in
    Ok (data2,
        {| interm_shape := inter_shape;
           origin_order := dim_order;
           output_order := ("yx(" ++ out_order ++ ")z")%string |}).

Definition recover_data (data : ndarray A) (info : info_dict)
  : result (ndarray A) :=
  data1 <- reshape data (shape_spec (interm_shape info)) ;;
  let spatial_dims := map (str_find (origin_order info)) yxz in
  moveaxis data1 [0; 1; -1]%Z spatial_dims.

End Arrays.

(** [getspecindx]: zonal wavenumber and degree of the stored coefficients.
    [np.indices] gives [index_m[i, j] = i] and [index_n[i, j] = j]; the
    flattened pairs with [index_n > index_m - 1] are kept. *)
Definition getspecindx (ntrunc : nat) : list nat * list nat :=
  let grid :=
    flat_map (fun m => map (fun n => (m, n)) (seq 0 (ntrunc + 1)))
             (seq 0 (ntrunc + 1)) in
  let kept :=
    filter (fun mn => (Z.of_nat (fst mn) - 1 <? Z.of_nat (snd mn))%Z) grid in
  (map fst kept, map snd kept).

(** [np.sort] *)
Fixpoint insert_sorted (x : R) (l : list R) : list R :=
  match l with
  | [] => [x]
  | y :: l' => if Rle_dec x y then x :: l else y :: insert_sorted x l'
  end.

Definition np_sort (l : list R) : list R := fold_right insert_sorted [] l.

(** [np.searchsorted(a, v)] (side 'left') on a sorted [a]: the first index
    [i] with [v <= a[i]], that is the number of leading entries below [v]. *)
Fixpoint searchsorted (a : list R) (v : R) : nat :=
  match a with
  | [] => 0
  | x :: a' => if Rlt_dec x v then S (searchsorted a' v) else 0
  end.

Section TerrainMask.

(** The low-pass Lanczos filter of the [smooth] branch ([lowpass_lanczos]
    with the cut-off of [lambda_from_deg]): SciPy's FFT convolution. *)
Variable lowpass_lanczos : list (list (list R)) -> list (list (list R)).

(** [terrain_mask(p, ps, smooth)]; [ps] is (nlat, nlon), the result
    (nlat, nlon, nlevels).  [beta[ij][level_m[ij]:] = 1.0] on zeros. *)
Definition terrain_mask (p : list R) (ps : list (list R)) (smooth : bool)
  : list (list (list R)) :=
  let nlevels := length p in
  let level_m := map (map (fun v => nlevels - searchsorted (np_sort p) v)) ps in
  let beta :=
    map (map (fun m => map (fun k => if m <=? k then 1%R else 0%R)
                           (seq 0 nlevels))) level_m in
  let beta := if smooth then lowpass_lanczos beta else beta in
  map (map (map (clip 0 1))) beta.

End TerrainMask.

End Tools.

(** ** AtmosphericEnergyBudget.py *)

Module AEB.
Import Tools.

(** A float that may be NaN. *)
Inductive fp : Type :=
| FNaN
| FVal (x : R).

Definition isnan (v : fp) : bool :=
  match v with FNaN => true | FVal _ => false end.

(** Every multi-index of a shape, in C order. *)
Fixpoint indices (s : list nat) : list (list nat) :=
  match s with
  | [] => [[]]
  | n :: s' => flat_map (fun i => map (cons i) (indices s')) (seq 0 n)
  end.

(** [np.isnan(a).any()] *)
Definition any_nan (a : ndarray fp) : bool :=
  existsb (fun idx => isnan (elem a idx)) (indices (shape a)).

Definition shape_eqb (s1 s2 : list nat) : bool :=
  if list_eq_dec Nat.eq_dec s1 s2 then true else false.

(** [s[k]] for a Python index [k] that may be negative. *)
Definition py_nth (s : list nat) (k : Z) : nat :=
  nth (Z.to_nat (if (k <? 0)%Z then Z.of_nat (length s) + k else k)%Z) s 0.

Record dims : Type := {
  d_axes : string;
  d_nlon : nat;
  d_nlat : nat;
  d_nlevels : nat;
  d_samples : nat;
  d_leveltype : string;
  d_grid_type : string
}.

(** The checks at the head of [EnergyBudget.__init__], in their order:
    what it raises, or the dimensions it goes on with. *)
Definition init_validate (u v w t p : ndarray fp) (axes : option string)
  (level_type grid_type : string) : result dims :=
  if any_nan u || any_nan v
  then Raise (ValueError "Arrays u and v cannot contain missing values")
  else
  let data_shape := shape u in
  if negb (shape_eqb data_shape (shape v))
  then Raise (ValueError "u and v must be the same shape")
  else if negb (shape_eqb (shape t) data_shape)
  then Raise (ValueError "Temperature must be the same shape as u and v")
  else if negb (shape_eqb (shape w) data_shape)
  then Raise (ValueError "w must be the same shape as u and v")
  else
  let data_dim := ndim u in
  if data_dim <? 3
  then Raise (ValueError "variables must be at least 3D")
  else
  let axes := match axes with None => "tzyx"%string | Some a => a end in
  if negb (String.length axes =? data_dim)
  then Raise (ValueError "Inconsistent number dimensions 'axes' must be a string of length {}")
  else
  let axes := lower axes in
  let nlon := py_nth data_shape (str_find axes "x") in
  let nlat := py_nth data_shape (str_find axes "y") in
  let nlevels := py_nth data_shape (str_find axes "z") in
  let samples := nprod data_shape / (nlon * nlat * nlevels) in
  let leveltype := lower level_type in
  _ <- (if String.eqb leveltype "pressure"
        then if size p =? nlevels then Ok tt
             else Raise (AssertionError "Pressure must be a 1D array withsize nlevels when using pressure coordinates")
        else if String.eqb leveltype "height"
        then if shape_eqb (shape p) (shape u) then Ok tt
             else Raise (AssertionError "Pressure must have same shape as uwhen using height coordinates")
        else Raise (ValueError "Invalid level type: {}. Options are ('pressure', 'height')")) ;;
  let grid_type := lower grid_type in
  if negb (String.eqb grid_type "regular" || String.eqb grid_type "gaussian")
  then Raise (ValueError "Invalid grid type: {0:s}. Options are ('regular', 'gaussian')")
  else Ok {| d_axes := axes; d_nlon := nlon; d_nlat := nlat;
             d_nlevels := nlevels; d_samples := samples;
             d_leveltype := leveltype; d_grid_type := grid_type |}.

(** An array of spectral coefficients, of shape
    [(ncoeffs,) + sample_shape]: one row per stored coefficient, the
    sample axes [clm.shape[1:]] of each row flattened in C order. *)
Record coeffs : Type := {
  sample_shape : list nat;
  coefficients : list (list complex)
}.

(** [clm.shape] *)
Definition coeffs_shape (clm : coeffs) : list nat :=
  length (coefficients clm) :: sample_shape clm.

Section Engine.
Open Scope R_scope.

(** Constants of the [constants] module. *)
Variable earth_radius : R.
Variable g : R.

(** Horizontal vector fields on the grid and spharm's [getvrtdivspec]
    (as run over the chunks by [_compute_rotdiv]): the spectral
    coefficients of vorticity and divergence. *)
Variable vector_field : Type.
Variable getvrtdivspec : vector_field -> coeffs * coeffs.

(** [scipy.integrate.simpson(y, x=x, even='avg')] on one profile. *)
Variable simpson : list R -> list R -> R.

(** Modelled from the spec: [kappa_from_deg] of the [spectral_analysis]
    module, the horizontal wavenumber [sqrt(n(n+1))/R] of degree [n]. *)
Definition kappa_from_deg (degrees : list nat) : list R :=
  map (fun n => sqrt (INR n * (INR n + 1)) / earth_radius) degrees.

(** The part of the engine's state the diagnostics below read.
    [vector_norm] holds the values along the leading axis of the
    (truncation + 1, 1, 1) array; [beta] is (nlat, nlon, nlevels). *)
Record state : Type := {
  nlat : nat;
  nlon : nat;
  truncation : nat;
  zonal_wavenumber : list nat;
  total_wavenumber : list nat;
  degrees : list nat;
  vector_norm : list R;
  p : list R;
  direction : Z;
  weights : list R;
  beta : list (list (list R))
}.

(** [self.vector_norm = expand_dims(kappa_h ** 2, (-1, -2))] followed by
    [self.vector_norm[0] = 1.0]. *)
Definition init_vector_norm (truncation : nat) : list R :=
  match map (fun k => k ^ 2) (kappa_from_deg (seq 0 (truncation + 1))) with
  | [] => []
  | _ :: rest => 1 :: rest
  end.

(** The spectral bookkeeping of [__init__]; the other fields are what the
    earlier steps of [__init__] left ([self.p] sorted surface first,
    [direction], the quadrature weights and the mask). *)
Definition init_state (nlat nlon truncation : nat) (p : list R)
  (direction : Z) (weights : list R) (beta : list (list (list R))) : state :=
  {| nlat := nlat; nlon := nlon; truncation := truncation;
     zonal_wavenumber := fst (getspecindx truncation);
     total_wavenumber := snd (getspecindx truncation);
     degrees := seq 0 (truncation + 1);
     vector_norm := init_vector_norm truncation;
     p := p; direction := direction; weights := weights; beta := beta |}.

Definition sample_size {X : Type} (a : list (list X)) : nat :=
  match a with
  | [] => 0
  | row :: _ => length row
  end.

Definition same_shape {X : Type} (a b : list (list X)) : bool :=
  (length a =? length b)%nat && (sample_size a =? sample_size b)%nat.

(** [a[mask]] for a boolean [mask] over the leading axis. *)
Definition select {X : Type} (mask : list bool) (rows : list X) : list X :=
  map snd (filter fst (combine mask rows)).

(** [rows.sum(axis=0)] for rows of [nsamp] samples. *)
Definition sum_rows (nsamp : nat) (rows : list (list R)) : list R :=
  map (fun j => rsum (map (fun row => nth j row 0) rows)) (seq 0 nsamp).

(** [(clm1 * clm2.conjugate()).real] *)
Definition real_product (clm1 clm2 : list (list complex)) : list (list R) :=
  zip_with (zip_with (fun a b => Cre (Cmul a (Cconj b)))) clm1 clm2.

(** [str(n)] and [str(shape)] as [format] writes them: [()], [(3,)],
    [(3, 2)]. *)
Definition str_of_nat (n : nat) : string :=
  NilEmpty.string_of_uint (Nat.to_uint n).

Definition format_shape (s : list nat) : string :=
  match s with
  | [] => "()"
  | [n] => "(" ++ str_of_nat n ++ ",)"
  | _ => "(" ++ String.concat ", " (map str_of_nat s) ++ ")"
  end.

(** The loop over the degrees and the normalisation of [cross_spectrum]:
    [clm_sqd] with the coefficients of [ms != 0] doubled, for each degree
    the sum of the rows with [(ms <= degree) & (ls == degree)], then
    [spectrum /= 2.0] and, for 'energy', [spectrum *= 4.0 * np.pi].  One
    row per degree, before the final [squeeze]. *)
Definition spectrum_rows (st : state) (nsamp : nat) (degs : list nat)
  (convention : string) (clm_sqd : list (list R)) : list (list R) :=
  let ls := total_wavenumber st in
  let ms := zonal_wavenumber st in
  let clm_sqd :=
    zip_with (fun m row => map (Rmult (if (m =? 0)%nat then 1 else 2)) row)
             ms clm_sqd in
  let spectrum :=
    map (fun degree =>
           let degree_range :=
             zip_with (fun m l => (m <=? degree)%nat && (l =? degree)%nat)
                      ms ls in
           sum_rows nsamp (select degree_range clm_sqd))
        degs in
  let spectrum := map (map (fun x => x / 2)) spectrum in
  if String.eqb (lower convention) "energy"
  then map (map (fun x => x * (4 * PI))) spectrum
  else spectrum.

(** The array of shape [(len(rows),) + sample_shape] whose row [d] holds,
    flattened in C order, [rows[d]]. *)
Definition array_of_rows (sample_shape : list nat) (rows : list (list R))
  : ndarray R :=
  {| shape := length rows :: sample_shape;
     elem := fun idx =>
       nth (ravel sample_shape (tl idx)) (nth (hd 0%nat idx) rows []) 0 |}.

(** [cross_spectrum(clm1, clm2, degrees, convention)]. *)
Definition cross_spectrum (st : state) (clm1 : coeffs) (clm2 : option coeffs)
  (degrees_arg : option (list nat)) (convention : string) : result (ndarray R) :=
  let sample_shape := sample_shape clm1 in
  degs <- match degrees_arg with
          | None => Ok (degrees st)
          | Some d =>
              if (nlat st <? length d)%nat
              then Raise (ValueError
                     ("If given, 'degrees' must be a 1D array of length <= 'nlat'.Expected size "
                      ++ str_of_nat (nlat st) ++ " and got " ++ str_of_nat (length d)))
              else Ok d
          end ;;
  if negb (String.eqb convention "energy" || String.eqb convention "power")
  then Raise (ValueError
         ("Parameter 'convention' must be one of ['energy', 'power']. Given "
          ++ convention))
  else
    clm_sqd <- match clm2 with
               | None => Ok (real_product (coefficients clm1) (coefficients clm1))
               | Some c2 =>
                   if shape_eqb (coeffs_shape c2) (coeffs_shape clm1)
                   then Ok (real_product (coefficients clm1) (coefficients c2))
                   else Raise (AssertionError
                          ("Arrays 'clm1' and 'clm2' of spectral coefficients must have the same shape. Expected 'clm2' shape: "
                           ++ format_shape (coeffs_shape clm1) ++ " got: "
                           ++ format_shape (coeffs_shape c2)))
               end ;;
    let spectrum :=
      spectrum_rows st (nprod sample_shape) degs convention clm_sqd in
    Ok (squeeze (array_of_rows sample_shape spectrum)).

(** [self.vector_norm] as the array it is, of shape (truncation + 1, 1, 1). *)
Definition norm_array (vector_norm : list R) : ndarray R :=
  {| shape := [length vector_norm; 1%nat; 1%nat];
     elem := fun idx => nth (hd 0%nat idx) vector_norm 0 |}.

(** [_vector_spectra]: the sum of the two cross-spectra and the division
    by [vector_norm] are NumPy's, with broadcasting. *)
Definition _vector_spectra (st : state) (vector_1 : vector_field)
  (vector_2 : option vector_field) : result (ndarray R) :=
  let (rot_asc, div_asc) := getvrtdivspec vector_1 in
  spectrum <-
    match vector_2 with
    | None =>
        a <- cross_spectrum st rot_asc None None "power" ;;
        b <- cross_spectrum st div_asc None None "power" ;;
        broadcast_with Rplus a b
    | Some v2 =>
        let (rot_bsc, div_bsc) := getvrtdivspec v2 in
        a <- cross_spectrum st rot_asc (Some rot_bsc) None "power" ;;
        b <- cross_spectrum st div_asc (Some div_bsc) None "power" ;;
        broadcast_with Rplus a b
    end ;;
  broadcast_with Rdiv spectrum (norm_array (vector_norm st)).

(** [np.average(col, weights=w)] *)
Definition average (w col : list R) : R :=
  rsum (zip_with Rmult col w) / rsum w.

(** [global_average(scalar)] of a (nlat, nlon, nlevels) array: the
    weighted average over latitude, then the mean over longitude. *)
Definition global_average (st : state) (scalar : list (list (list R)))
  : result (list R) :=
  if negb (length scalar =? nlat st)%nat
  then Raise (ValueError "Scalar size along axis must be nlat.Expected {} and got {}")
  else if negb (sample_size scalar =? nlon st)%nat
  then Raise (ValueError "Dimensions nlat and nlon must be in consecutive order.")
  else
    let nlevels := sample_size (nth 0 scalar []) in
    Ok (map (fun k =>
               rsum (map (fun j =>
                            average (weights st)
                              (map (fun row => nth k (nth j row []) 0) scalar))
                         (seq 0 (nlon st)))
               / INR (nlon st))
            (seq 0 nlevels)).

(** [np.where(mask)[0]] *)
Definition np_where (mask : list bool) : list nat :=
  map fst (filter snd (combine (seq 0 (length mask)) mask)).

(** [np.take(row, idx)] *)
Definition take (row : list R) (idx : list nat) : list R :=
  map (fun k => nth k row 0) idx.

(** [vertical_integration(scalar, pressure_range)] along the last axis of
    a (samples, nlevels) array. *)
Definition vertical_integration (st : state) (scalar : list (list R))
  (pressure_range : option (R * R)) : result (list R) :=
  range <- match pressure_range with
           | None => Ok (nth 0 (p st) 0, last (p st) 0)
           | Some (a, b) =>
               if Reqb a b
               then Raise (AssertionError "Inconsistent pressure levels for vertical integration.")
               else Ok (a, b)
           end ;;
  let lo := Rmin (fst range) (snd range) in
  let hi := Rmax (fst range) (snd range) in
  let pressure := p st in
  let level_mask :=
    map (fun pk => (Rleb lo pk && Rleb pk hi)
                   && (negb (Reqb pk (nth 0 pressure 0))
                       && negb (Reqb pk (last pressure 0))))
        pressure in
  let level_mask := np_where level_mask in
  let scalar := map (fun row => take row level_mask) scalar in
  let integrated_scalar :=
    map (fun row => simpson row (take pressure level_mask)) scalar in
  Ok (map (fun v => IZR (direction st) * v / g) integrated_scalar).

End Engine.

End AEB.

(** ** src/io_tools.py *)

Module IoTools.
Import Tools AEB.

(** The sanity loop of [parse_dataset] over the required fields, in the
    order of the dictionary: [u_wind, v_wind, omega, temperature,
    pressure]. *)
Fixpoint check_fields (arrays : list (string * ndarray fp)) : result unit :=
  match arrays with
  | [] => Ok tt
  | (name, values) :: rest =>
      if any_nan values
      then Raise (ValueError "Array {} contain missing values")
      else if negb (String.eqb name "pressure") && (ndim values <? 3)
      then Raise (ValueError "Fields must be at least 3D.Variable {} has {} dimensions")
      else check_fields rest
  end.

End IoTools.

(** ** src/seba.py *)

Module Seba.

(** A masked array, all axes flattened in C order: [None] is a masked
    element.  A vector field stacks its two components along axis 0. *)
Definition marray : Type := list (option R).
Definition mvector : Type := (marray * marray)%type.

(** A spectrum: (truncation + 1, samples * nlevels). *)
Definition spectrum : Type := list (list R).

Section Engine.
Open Scope R_scope.

(** Constants of the [constants] module. *)
Variable epsilon : R.
Variable earth_radius : R.

(** The Fortran routine [numeric_tools.integrate_order(cs_lm, truncation)]. *)
Variable integrate_order : list (list complex) -> nat -> list (list complex).

(** The transforms of the [Spharmt] object, on grid data flattened in C
    order.  Modelled from the spec: a masked field reaches them
    zero-filled ("masked elements are filled with zeros before the
    spectral analysis", [io_tools.get_field]). *)
Variable grdtospec : list R -> list (list complex).
Variable getvrtdivspec : list R -> list R -> list (list complex) * list (list complex).

(** The numerical routines behind the two gradients, on plain data: the
    spectral gradient of the spherical-harmonic transform and the finite
    difference along pressure. *)
Variable spectral_gradient : list R -> list R * list R.
Variable finite_difference : list R -> list R -> list R.

(** [tools.rotate_vector] of the version of [tools] that [seba.py] imports. *)
Variable rotate_vector : mvector -> mvector.

(** Modelled from the spec: [kappa_from_deg], [sqrt(n(n+1))/R]. *)
Definition kappa_from_deg (degrees : list nat) : list R :=
  map (fun n => sqrt (INR n * (INR n + 1)) / earth_radius) degrees.

Record state : Type := {
  nlat : nat;
  nlon : nat;
  samples : nat;
  nlevels : nat;
  truncation : nat;
  weights : list R;
  pressure : list R;
  norm : spectrum;
  mask : list (list (list bool));
  beta : list (list (list R));
  beta_fraction : list R;
  omega : marray;
  wind : mvector;
  wind_shear : mvector;
  wind_div : mvector;
  wind_rot : mvector;
  fc : list R * list R;
  vrt : marray
}.

(** [self.norm = broadcast_1dto(kappa_h ** 2, sp_shape).clip(cn.epsilon, None)]
    with [sp_shape = (truncation + 1, samples, nlevels)]. *)
Definition init_norm (truncation samples nlevels : nat) : spectrum :=
  map (fun k => repeat (Rmax (k ^ 2) epsilon) (samples * nlevels))
      (kappa_from_deg (seq 0 (truncation + 1))).

(** [self.beta = (~self.mask).astype(float)]; [mask] is [self.omega.mask]
    as (nlat, nlon, samples * nlevels). *)
Definition init_beta (mask : list (list (list bool))) : list (list (list R)) :=
  map (map (map (fun m : bool => if m then 0 else 1))) mask.

Definition average (w col : list R) : R :=
  rsum (zip_with Rmult col w) / rsum w.

(** [representative_mean(scalar)] of an unmasked (nlat, nlon, samples *
    nlevels) array with the default weights and latitude axis:
    [np.ma.average] over latitude, then [np.ma.mean] over longitude. *)
Definition representative_mean (st : state) (scalar : list (list (list R)))
  : result (list R) :=
  if negb (length scalar =? nlat st)%nat
  then Raise (ValueError "Scalar size along axis must be nlat.Expected {} and got {}")
  else if negb (AEB.sample_size scalar =? nlon st)%nat
  then Raise (ValueError "Dimensions nlat and nlon must be in consecutive order.")
  else
    let nflat := AEB.sample_size (nth 0 scalar []) in
    Ok (map (fun q =>
               rsum (map (fun j =>
                            average (weights st)
                              (map (fun row => nth q (nth j row []) 0) scalar))
                         (seq 0 (nlon st)))
               / INR (nlon st))
            (seq 0 nflat)).

(** The state holds the mask fields that [__init__] computes:
    [beta] from the mask and [beta_fraction = representative_mean(beta)]. *)
Definition mask_fields_initialised (st : state) : Prop :=
  beta st = init_beta (mask st)
  /\ representative_mean st (beta st) = Ok (beta_fraction st).

(** [accumulate_order(cs_lm)] along axis 0. *)
Definition accumulate_order (st : state) (cs_lm : list (list complex))
  : list (list complex) :=
  integrate_order cs_lm (truncation st + 1).

Definition cross_spectrum (st : state) (clm1 : list (list complex))
  (clm2 : option (list (list complex))) (accumulate : bool) : result spectrum :=
  spectrum <- match clm2 with
              | None => Ok (zip_with (zip_with (fun a b => Cmul a (Cconj b))) clm1 clm1)
              | Some c2 =>
                  if AEB.same_shape c2 clm1
                  then Ok (zip_with (zip_with (fun a b => Cmul a (Cconj b))) clm1 c2)
                  else Raise (AssertionError "Arrays 'clm1' and 'clm2' of spectral coefficients must have the same shape. Expected 'clm2' shape: {} got: {}")
              end ;;
  let spectrum := if accumulate then accumulate_order st spectrum else spectrum in
  Ok (map (fun row => zip_with Rdiv (map Cre row) (beta_fraction st)) spectrum).

(** *** Masked arithmetic *)

Definition filled (a : marray) : list R :=
  map (fun x => match x with Some v => v | None => 0 end) a.

(** [np.ma.is_masked(a)] *)
Definition is_masked (a : marray) : bool :=
  existsb (fun x => match x with Some _ => false | None => true end) a.

(** [(~a.mask).astype(float)] *)
Definition mask_indicator (a : marray) : list R :=
  map (fun x => match x with Some _ => 1 | None => 0 end) a.

Definition mmul (a b : marray) : marray :=
  zip_with (fun x y => match x, y with
                       | Some u, Some v => Some (u * v)
                       | _, _ => None
                       end) a b.

(** plain array times masked array *)
Definition pmul (a : list R) (b : marray) : marray :=
  zip_with (fun x y => option_map (Rmult x) y) a b.

(** plain array minus masked array *)
Definition msub (a : list R) (b : marray) : marray :=
  zip_with (fun x y => option_map (Rminus x) y) a b.

Definition scale_m (s : marray) (v : mvector) : mvector :=
  (mmul s (fst v), mmul s (snd v)).

Definition scale_p (s : list R * list R) (v : mvector) : mvector :=
  (pmul (fst s) (fst v), pmul (snd s) (snd v)).

Definition vector_same_shape (a b : mvector) : bool :=
  (length (fst a) =? length (fst b))%nat && (length (snd a) =? length (snd b))%nat.

(** *** Spectra *)

Definition _compute_rotdiv (vector : mvector) : list (list complex) * list (list complex) :=
  getvrtdivspec (filled (fst vector)) (filled (snd vector)).

Definition _spectral_transform (scalar : marray) : list (list complex) :=
  grdtospec (filled scalar).

Definition spec_add (a b : spectrum) : spectrum := zip_with (zip_with Rplus) a b.
Definition spec_sub (a b : spectrum) : spectrum := zip_with (zip_with Rminus) a b.
Definition spec_div (a b : spectrum) : spectrum := zip_with (zip_with Rdiv) a b.
Definition spec_neg (a : spectrum) : spectrum := map (map Ropp) a.
Definition spec_half (a : spectrum) : spectrum := map (map (fun x => x / 2)) a.

Definition _scalar_spectra (st : state) (scalar_1 : marray)
  (scalar_2 : option marray) : result spectrum :=
  scalar_2 <- match scalar_2 with
              | None => Ok None
              | Some s2 =>
                  if (length s2 =? length scalar_1)%nat
                  then Ok (Some (_spectral_transform s2))
                  else Raise (AssertionError "Rank mismatch between scalar_1 and scalar_2.")
              end ;;
  cross_spectrum st (_spectral_transform scalar_1) scalar_2 true.

Definition _vector_spectra (st : state) (vector_1 : mvector)
  (vector_2 : option mvector) : result spectrum :=
  vector_2 <- match vector_2 with
              | None => Ok (None, None)
              | Some v2 =>
                  if vector_same_shape v2 vector_1
                  then let rd := _compute_rotdiv v2 in
                       Ok (Some (fst rd), Some (snd rd))
                  else Raise (AssertionError "Rank mismatch between vector_1 and vector_2.")
              end ;;
  let vector_1 := _compute_rotdiv vector_1 in
  spectrum <- cross_spectrum st (fst vector_1) (fst vector_2) true ;;
  spectrum' <- cross_spectrum st (snd vector_1) (snd vector_2) true ;;
  Ok (spec_div (spec_add spectrum spectrum') (norm st)).

(** *** Conversion of divergent into rotational kinetic energy *)

Definition conversion_dke_rke_vertical (st : state) : result spectrum :=
  a <- _vector_spectra st (wind_shear st) (Some (scale_m (omega st) (wind_rot st))) ;;
  let dke_rke_omega := spec_neg a in
  b <- _vector_spectra st (wind_rot st) (Some (scale_m (omega st) (wind_shear st))) ;;
  let dke_rke_omega := spec_sub dke_rke_omega b in
  Ok (spec_half dke_rke_omega).

Definition conversion_dke_rke_coriolis (st : state) : result spectrum :=
  div_term <- _vector_spectra st (wind_div st)
                (Some (scale_p (fc st) (rotate_vector (wind_rot st)))) ;;
  rot_term <- _vector_spectra st (wind_rot st)
                (Some (scale_p (fc st) (rotate_vector (wind_div st)))) ;;
  Ok (spec_half (spec_sub div_term rot_term)).

Definition conversion_dke_rke_vorticity (st : state) : result spectrum :=
  div_term <- _vector_spectra st (wind_div st)
                (Some (scale_m (vrt st) (rotate_vector (wind_rot st)))) ;;
  rot_term <- _vector_spectra st (wind_rot st)
                (Some (scale_m (vrt st) (rotate_vector (wind_div st)))) ;;
  Ok (spec_half (spec_sub div_term rot_term)).

Definition conversion_dke_rke (st : state) : result spectrum :=
  vorticity_advection <- conversion_dke_rke_vorticity st ;;
  linear_conversion <- conversion_dke_rke_coriolis st ;;
  vertical_transfer <- conversion_dke_rke_vertical st ;;
  Ok (spec_add (spec_add vorticity_advection linear_conversion) vertical_transfer).

(** The entries of the [fluxes] dataset of [nonlinear_energy_fluxes] that
    hold the conversion from divergent to rotational kinetic energy, as
    (variable, standard name, value). *)
Definition nonlinear_energy_fluxes_cdr (st : state)
  : result (list (string * string * spectrum)) :=
  cdr_w <- conversion_dke_rke_vertical st ;;
  cdr_v <- conversion_dke_rke_vorticity st ;;
  cdr_c <- conversion_dke_rke_coriolis st ;;
  let cdr := spec_add (spec_add cdr_w cdr_v) cdr_c in
  Ok [("cdr_w", "conversion_dke_rke_vertical_velocity", cdr_w);
      ("cdr_v", "conversion_dke_rke_vorticity", cdr_v);
      ("cdr_c", "conversion_dke_rke_coriolis", cdr_c);
      ("cdr", "conversion_dke_rke", cdr)]%string.

(** *** Mask-aware gradients *)

(** Modelled from the spec: [Spharmt.getgrad] of the module
    [spherical_harmonics], which is not among the sources, handed a masked
    array.  The spec has it "compute the gradient of the zero-filled
    masked field", and [io_tools.get_field] sets the fill value to zero
    "before the spectral analysis": the routine sees the field with its
    masked points set to zero and returns two plain arrays. *)
Definition getgrad (scalar : marray) : list R * list R :=
  spectral_gradient (filled scalar).

(** Modelled from the spec: [gradient_1d(scalar, pressure, axis)] of the
    version of [tools] that [seba.py] imports, which is not among the
    sources, handed a masked array: the finite difference along pressure
    of the zero-filled field. *)
Definition gradient_1d (scalar : marray) (pressure : list R) : list R :=
  finite_difference (filled scalar) pressure.

(** A plain array as an array without masked points. *)
Definition unmasked (a : list R) : marray := map Some a.

(** [horizontal_gradient(scalar)]; on flattened arrays the packing of
    [transform_io] changes nothing.  The result of the masked branch is
    masked where [scalar] is. *)
Definition horizontal_gradient (scalar : marray) : mvector :=
  let scalar_gradient := getgrad scalar in
  if is_masked scalar then
    let beta_gradient := getgrad (unmasked (mask_indicator scalar)) in
    (msub (fst scalar_gradient) (pmul (fst beta_gradient) scalar),
     msub (snd scalar_gradient) (pmul (snd beta_gradient) scalar))
  else (unmasked (fst scalar_gradient), unmasked (snd scalar_gradient)).

Definition vertical_gradient (st : state) (scalar : marray) : marray :=
  let scalar_gradient := gradient_1d scalar (pressure st) in
  if is_masked scalar then
    let beta_gradient :=
      gradient_1d (unmasked (mask_indicator scalar)) (pressure st) in
    msub scalar_gradient (pmul beta_gradient scalar)
  else unmasked scalar_gradient.

End Engine.

End Seba.

(** ** Exceptions of the builtins *)

(** Exceptions of the builtins that the checks of [exn] do not cover. *)
Inductive pyexn : Type :=
| Checked (e : exn)
| IndexError
| KeyError (key : string)
| AttributeError (msg : string)
| TypeError (msg : string).

Inductive outcome (A : Type) : Type :=
| Return (a : A)
| Throw (e : pyexn).

Arguments Return {A} a.
Arguments Throw {A} e.

(** [x < y] on floats. *)
Definition Rltb (x y : R) : bool := if Rlt_dec x y then true else false.

(** ** NumPy functions *)

Module Np.
Import Tools.

Section Reals.
Open Scope R_scope.

(** [np.linspace(start, stop, num)] (endpoint included): [start + i * step]
    with [step = (stop - start) / (num - 1)]; a single sample is [start]. *)
Definition linspace (start stop : R) (num : nat) : list R :=
  map (fun i => start + INR i * ((stop - start) / INR (num - 1))) (seq 0 num).

(** [np.diff] *)
Definition np_diff (l : list R) : list R := zip_with Rminus (tl l) l.

(** [np.allclose(a, b, atol=atol)] with the default [rtol = 1e-5]:
    [|a - b| <= atol + rtol * |b|] everywhere, for two arrays of one
    length. *)
Definition allclose (a b : list R) (atol : R) : bool :=
  forallb (fun ab => Rleb (Rabs (fst ab - snd ab)) (atol + 1e-5 * Rabs (snd ab)))
          (combine a b).

(** [np.sign] *)
Definition np_sign (x : R) : R :=
  if Rlt_dec 0 x then 1 else if Rlt_dec x 0 then -1 else 0.

(** [np.nonzero(a)[0]] *)
Definition np_nonzero (a : list R) : list nat :=
  AEB.np_where (map (fun v => negb (Reqb v 0)) a).

(** [x[idx]] for an array of indices. *)
Definition fancy (x : list R) (idx : list nat) : list R :=
  map (fun k => nth k x 0) idx.

End Reals.

End Np.

(** ** tools.py: chunks, grids, fluxes, intersections *)

Module ToolsNumerics.
Import Tools Np.

Section Chunks.
Local Open Scope Z_scope.

(** [get_chunk_size(n_workers, len_iterable, factor)]: [divmod] is the
    floored quotient and remainder, and raises on a zero divisor. *)
Definition get_chunk_size (n_workers len_iterable factor : Z) : result Z :=
  let d := n_workers * factor in
  if d =? 0 then Raise ZeroDivisionError
  else
    let chunk_size := len_iterable / d in
    let extra := len_iterable mod d in
    Ok (if extra =? 0 then chunk_size else chunk_size + 1).

End Chunks.

Section Grids.
Open Scope R_scope.

(** [cumulative_flux(spectra)] on a (degrees, samples) array: rows 0 and 1
    stay the zeros of [np.zeros_like]; row [ln >= 2] is
    [spectra[ln:].sum(axis=0)]. *)
Definition cumulative_flux (spectra : list (list R)) : list (list R) :=
  let nsamp := match spectra with [] => 0%nat | row :: _ => length row end in
  map (fun ln =>
         if (ln <? 2)%nat then repeat 0 nsamp
         else map (fun j => rsum (map (fun row => nth j row 0) (skipn ln spectra)))
                  (seq 0 nsamp))
      (seq 0 (length spectra)).

(** [regular_lats_wts(nlat)]; [90. / nlat] raises for [nlat = 0].
    [np.deg2rad(x)] is [x * pi / 180]. *)
Definition regular_lats_wts (nlat : nat) : result (list R * list R) :=
  if (nlat =? 0)%nat then Raise ZeroDivisionError
  else
    let ns_latitude := 90 - INR ((nlat + 1) mod 2) * (90 / INR nlat) in
    let lats := linspace ns_latitude (- ns_latitude) nlat in
    Ok (lats, map (fun x => cos (x * (PI / 180))) lats).

(** [_spherepack.gaqd(nlat)]: Gaussian colatitudes (radians), quadrature
    weights and an error flag. *)
Variable gaqd : nat -> list R * list R * Z.

Definition gaussian_lats_wts (nlat : nat) : result (list R * list R) :=
  let '(colats, wts, ierror) := gaqd nlat in
  if (ierror =? 0)%Z
  then Ok (map (fun c => 90 - c * 180 / PI) colats, wts)
  else Raise (ValueError "In return from call to _spherepack.gaqdierror =  {:d}").

Definition latitudes_weights (nlat : nat) (gridtype : string)
  : result (list R * list R) :=
  if String.eqb gridtype "gaussian" then gaussian_lats_wts nlat
  else regular_lats_wts nlat.

(** [infer_gridtype(latitudes)]; [diffs[0]] raises [IndexError] when there
    are fewer than two latitudes. *)
Definition infer_gridtype (latitudes : list R)
  : outcome (string * list R * list R) :=
  let tolerance := 5e-8 in
  let nlat := length latitudes in
  let diffs := map Rabs (np_diff latitudes) in
  match diffs with
  | [] => Throw IndexError
  | d0 :: _ =>
      let equally_spaced :=
        forallb (fun d => Rltb (Rabs (d - d0)) tolerance) diffs in
      if equally_spaced then
        match regular_lats_wts nlat with
        | Raise e => Throw (Checked e)
        | Ok (reference, wts) =>
            if negb (allclose latitudes reference tolerance)
            then Throw (Checked (ValueError "Invalid equally-spaced latitudes (they may be non-global)"))
            else Return ("regular"%string, reference, wts)
        end
      else
        match gaussian_lats_wts nlat with
        | Raise e => Throw (Checked e)
        | Ok (reference, wts) =>
            if negb (allclose latitudes reference tolerance)
            then Throw (Checked (ValueError "latitudes are neither equally-spaced or Gaussian"))
            else Return ("gaussian"%string, reference, wts)
        end
  end.

End Grids.

Section Intersections.
Open Scope R_scope.

Definition nearest_intersection_idx (a b : list R) : list nat :=
  np_nonzero (np_diff (map np_sign (zip_with Rminus a b))).

(** [find_intersections(x, a, b, direction)] for three plain 1-D arrays of
    one length.  On such arrays [_next_non_masked_element(x, idx)] is
    [(idx, x[idx])]: [x[idx:]] with an index array raises [TypeError]
    (a plain array has no [mask] either), which the function catches. *)
Definition find_intersections (x a b : list R) (direction : string)
  : result (list R * list R) :=
  let nearest_idx := nearest_intersection_idx a b in
  let next_idx := map (fun k => (k + 1)%nat) nearest_idx in
  let sign_change := map np_sign (zip_with Rminus (fancy a next_idx) (fancy b next_idx)) in
  let x0 := fancy x nearest_idx in
  let x1 := fancy x next_idx in
  let a0 := fancy a nearest_idx in
  let a1 := fancy a next_idx in
  let b0 := fancy b nearest_idx in
  let b1 := fancy b next_idx in
  let delta_y0 := zip_with Rminus a0 b0 in
  let delta_y1 := zip_with Rminus a1 b1 in
  let intersect_x :=
    zip_with Rdiv
      (zip_with Rminus (zip_with Rmult delta_y1 x0) (zip_with Rmult delta_y0 x1))
      (zip_with Rminus delta_y1 delta_y0) in
  let intersect_y :=
    zip_with Rplus
      (zip_with Rmult
         (zip_with Rdiv (zip_with Rminus intersect_x x0) (zip_with Rminus x1 x0))
         (zip_with Rminus a1 a0))
      a0 in
  if String.eqb direction "increasing" then
    let mask := map (fun s => Rltb 0 s) sign_change in
    Ok (AEB.select mask intersect_x, AEB.select mask intersect_y)
  else if String.eqb direction "decreasing" then
    let mask := map (fun s => Rltb s 0) sign_change in
    Ok (AEB.select mask intersect_x, AEB.select mask intersect_y)
  else if String.eqb direction "all" then Ok (intersect_x, intersect_y)
  else Raise (ValueError "Unknown option for direction: {0}").

End Intersections.

End ToolsNumerics.

(** ** Read-only attributes of the two classes *)

Module Attributes.

(** The read-only names of the two engines. *)
Definition AEB_private_vars : list string :=
  ["nlon"; "nlat"; "nlevels"; "grid_type"; "legfunc"; "rsphere"]%string.

Definition Seba_private_vars : list string :=
  ["nlon"; "nlat"; "nlevels"; "gridtype"]%string.

Section Dict.
Variable V : Type.

(** An instance [__dict__]: the attributes in insertion order, every name
    once. *)
Definition dict : Type := list (string * V).

(** [d.get(key)] *)
Fixpoint dict_get (key : string) (d : dict) : option V :=
  match d with
  | [] => None
  | (k, v) :: d' => if String.eqb k key then Some v else dict_get key d'
  end.

(** [key in d] *)
Definition dict_mem (key : string) (d : dict) : bool :=
  match dict_get key d with Some _ => true | None => false end.

(** [d[key] = val] *)
Fixpoint dict_set (key : string) (val : V) (d : dict) : dict :=
  match d with
  | [] => [(key, val)]
  | (k, v) :: d' =>
      if String.eqb k key then (k, val) :: d' else (k, v) :: dict_set key val d'
  end.

(** [del d[key]] *)
Fixpoint dict_del (key : string) (d : dict) : outcome dict :=
  match d with
  | [] => Throw (KeyError key)
  | (k, v) :: d' =>
      if String.eqb k key then Return d'
      else match dict_del key d' with
           | Return d'' => Return ((k, v) :: d'')
           | Throw e => Throw e
           end
  end.

Definition mem_private (private_vars : list string) (key : string) : bool :=
  existsb (String.eqb key) private_vars.

(** [EnergyBudget.__setattr__] *)
Definition __setattr__ (private_vars : list string) (d : dict)
  (key : string) (val : V) : outcome dict :=
  if dict_mem key d && mem_private private_vars key
  then Throw (AttributeError ("Attempt to rebind read-only instance variable " ++ key))
  else Return (dict_set key val d).

(** [EnergyBudget.__delattr__] *)
Definition __delattr__ (private_vars : list string) (d : dict)
  (key : string) : outcome dict :=
  if dict_mem key d && mem_private private_vars key
  then Throw (AttributeError ("Attempt to unbind read-only instance variable " ++ key))
  else dict_del key d.

(** An attempted assignment or deletion. *)
Inductive attr_op : Type :=
| SetAttr (key : string) (val : V)
| DelAttr (key : string).

Definition attempt (private_vars : list string) (d : dict) (op : attr_op)
  : outcome dict :=
  match op with
  | SetAttr key val => __setattr__ private_vars d key val
  | DelAttr key => __delattr__ private_vars d key
  end.

(** The instance after a sequence of attempts; an attempt that raises
    leaves the instance as it was. *)
Definition attempt_all (private_vars : list string) (d : dict) (ops : list attr_op)
  : dict :=
  fold_left (fun d op => match attempt private_vars d op with
                         | Return d' => d'
                         | Throw _ => d
                         end) ops d.

End Dict.
End Attributes.

(** ** AtmosphericEnergyBudget.py: perturbations and packed levels *)

Module AEBArrays.
Import Tools Np.

(** [scalar - profile] with NumPy's broadcasting: a (nlat, nlon, n) array
    minus an (n) array, as in [self.theta_pbn = self.theta - self.theta_avg]. *)
Definition subtract_profile (scalar : list (list (list R))) (profile : list R)
  : list (list (list R)) :=
  map (map (fun col => zip_with Rminus col profile)) scalar.

Section Packing.
Variable A : Type.

(** [_pack_levels(data)] with the default [order='C']:
    (nlat, nlon, ...) becomes (nlat, nlon, samples). *)
Definition _pack_levels (nlat ncoeffs : nat) (data : ndarray A)
  : outcome (ndarray A) :=
  match shape data with
  | [] => Throw IndexError
  | data_length :: _ =>
      match (if data_length =? 2 then Ok (firstn 3 (shape data))
             else if data_length =? nlat then Ok (firstn 2 (shape data))
             else if data_length =? ncoeffs then Ok (firstn 1 (shape data))
             else Raise (ValueError "Inconsistent array shape: expecting first dimension of size {} or {}."))
      with
      | Raise e => Throw (Checked e)
      | Ok new_shape =>
          match reshape data (shape_spec new_shape ++ [(-1)%Z]) with
          | Raise e => Throw (Checked e)
          | Ok packed => Return (squeeze packed)
          end
      end
  end.

(** [_unpack_levels(data)]: (..., samples * nlevels) becomes
    (..., samples, nlevels), squeezed. *)
Definition _unpack_levels (samples nlevels : nat) (data : ndarray A)
  : outcome (ndarray A) :=
  match shape data with
  | [] => Throw IndexError
  | _ =>
      if last (shape data) 0 =? samples * nlevels then
        match reshape data (shape_spec (removelast (shape data) ++ [samples; nlevels])) with
        | Raise e => Throw (Checked e)
        | Ok unpacked => Return (squeeze unpacked)
        end
      else Return data
  end.

End Packing.

End AEBArrays.

(** ** src/seba.py: packed levels *)

Module SebaArrays.
Import Tools Np.

Section Packing.
Variable A : Type.

(** [_pack_levels(data)]: the length is [len(data)], which raises
    [TypeError] on a 0-d array; the coefficient count is [nlm]. *)
Definition _pack_levels (nlat nlm : nat) (data : ndarray A)
  : outcome (ndarray A) :=
  match shape data with
  | [] => Throw (TypeError "len() of unsized object")
  | data_length :: _ =>
      match (if data_length =? 2 then Ok (firstn 3 (shape data))
             else if data_length =? nlat then Ok (firstn 2 (shape data))
             else if data_length =? nlm then Ok (firstn 1 (shape data))
             else Raise (ValueError "Inconsistent array shape: expecting first dimension of size {} or {}."))
      with
      | Raise e => Throw (Checked e)
      | Ok new_shape =>
          match reshape data (shape_spec new_shape ++ [(-1)%Z]) with
          | Raise e => Throw (Checked e)
          | Ok packed => Return (squeeze packed)
          end
      end
  end.

(** [_unpack_levels(data)]: no [squeeze] here. *)
Definition _unpack_levels (samples nlevels : nat) (data : ndarray A)
  : outcome (ndarray A) :=
  match shape data with
  | [] => Throw IndexError
  | _ =>
      if last (shape data) 0 =? samples * nlevels then
        match reshape data (shape_spec (removelast (shape data) ++ [samples; nlevels])) with
        | Raise e => Throw (Checked e)
        | Ok unpacked => Return unpacked
        end
      else Return data
  end.

End Packing.

End SebaArrays.

(** ** src/io_tools.py: coordinate names *)

Module IoNames.

(** [get_coordinate_names(dataset)]: the data variables of the dataset are
    given in the order of [dataset.data_vars], each with its name and its
    dimension names. *)
Definition get_coordinate_names (data_vars : list (string * list string))
  : list string :=
  fold_left
    (fun coord_names var =>
       fold_left (fun names dim =>
                    if existsb (String.eqb dim) names then names
                    else names ++ [dim])
                 (snd var) coord_names)
    data_vars [].

End IoNames.

(** ** Lists *)

Module ListFacts.

Lemma zip_with_length {X Y W : Type} (f : X -> Y -> W) (a : list X) (b : list Y) :
  length (zip_with f a b) = Nat.min (length a) (length b).
Proof. unfold zip_with. rewrite length_map, length_combine. reflexivity. Qed.

Lemma nth_combine {X Y : Type} (a : list X) (b : list Y) (i : nat) (dx : X) (dy : Y) :
  i < length a -> i < length b ->
  nth i (combine a b) (dx, dy) = (nth i a dx, nth i b dy).
Proof.
  revert b i; induction a as [|x a IH]; intros [|y b] [|i] Ha Hb; simpl in *;
    try lia; [reflexivity|]. apply IH; lia.
Qed.

Lemma nth_zip_with {X Y W : Type} (f : X -> Y -> W) (a : list X) (b : list Y)
  (i : nat) (dx : X) (dy : Y) (dw : W) :
  i < length a -> i < length b ->
  nth i (zip_with f a b) dw = f (nth i a dx) (nth i b dy).
Proof.
  intros Ha Hb. unfold zip_with.
  set (h := fun xy : X * Y => f (fst xy) (snd xy)).
  rewrite nth_indep with (d' := h (dx, dy))
    by (rewrite length_map, length_combine; lia).
  rewrite map_nth, nth_combine by assumption. reflexivity.
Qed.

Lemma list_as_map_seq {X : Type} (l : list X) (d : X) :
  l = map (fun i => nth i l d) (seq 0 (length l)).
Proof.
  induction l as [|x l IH]; simpl; [reflexivity|].
  f_equal. rewrite <- seq_shift, map_map. exact IH.
Qed.

Lemma zip_with_as_map_seq {X Y W : Type} (f : X -> Y -> W) (a : list X) (b : list Y)
  (n : nat) (dx : X) (dy : Y) :
  length a = n -> length b = n ->
  zip_with f a b = map (fun i => f (nth i a dx) (nth i b dy)) (seq 0 n).
Proof.
  intros Ha Hb.
  rewrite (list_as_map_seq (zip_with f a b) (f dx dy)).
  rewrite zip_with_length, Ha, Hb, Nat.min_id.
  apply map_ext_in. intros i Hi. apply in_seq in Hi.
  apply nth_zip_with; lia.
Qed.

Lemma select_map_seq {X : Type} (M : nat -> bool) (F : nat -> X) (a n : nat) :
  AEB.select (map M (seq a n)) (map F (seq a n)) = map F (filter M (seq a n)).
Proof.
  unfold AEB.select. revert a; induction n as [|n IH]; intros a; simpl; [reflexivity|].
  destruct (M a); simpl; rewrite IH; reflexivity.
Qed.

Lemma rsum_filter (M : nat -> bool) (F : nat -> R) (l : list nat) :
  rsum (map F (filter M l)) = rsum (map (fun i => if M i then F i else 0%R) l).
Proof.
  induction l as [|i l IH]; simpl; [reflexivity|].
  destruct (M i); simpl; rewrite IH; lra.
Qed.

Lemma rsum_ext_in (F G : nat -> R) (l : list nat) :
  (forall i, In i l -> F i = G i) -> rsum (map F l) = rsum (map G l).
Proof. intros H. f_equal. apply map_ext_in. exact H. Qed.

Lemma nth_scaled (w : R) (row : list R) (j : nat) :
  nth j (map (Rmult w) row) 0%R = (w * nth j row 0)%R.
Proof.
  revert j; induction row as [|x row IH]; intros [|j]; simpl; try lra. apply IH.
Qed.

Lemma nth_real_row (r1 r2 : list complex) (j : nat) :
  nth j (zip_with (fun a b => Cre (Cmul a (Cconj b))) r1 r2) 0%R
  = Cre (Cmul (nth j r1 C0) (Cconj (nth j r2 C0))).
Proof.
  unfold zip_with.
  revert r2 j; induction r1 as [|a r1 IH]; intros [|b r2] [|j]; simpl;
    try (unfold Cre, Cmul, Cconj, C0; simpl; lra).
  apply IH.
Qed.

End ListFacts.


(** ** Facts about tools.py *)

Module ToolsFacts.
Import Tools.

(** *** Lists: insertion, ranks in a filtered range *)

Lemma insert_at_length (i x : nat) (l : list nat) :
  length (insert_at i x l) = S (length l).
Proof.
  revert i; induction l as [|y l IH]; intros [|i]; simpl; auto.
Qed.

Lemma insert_at_nth (i x q : nat) (l : list nat) :
  i <= length l ->
  nth q (insert_at i x l) 0 =
  if q <? i then nth q l 0 else if q =? i then x else nth (q - 1) l 0.
Proof.
  revert i q; induction l as [|y l IH]; intros i q Hi.
  - simpl in Hi. assert (i = 0) by lia; subst. simpl.
    destruct q as [|[|q]]; reflexivity.
  - destruct i as [|i].
    + simpl. destruct q as [|q]; simpl; [reflexivity|].
      rewrite Nat.sub_0_r. reflexivity.
    + simpl in Hi. simpl insert_at. destruct q as [|q]; [reflexivity|].
      cbn [nth]. rewrite IH by lia.
      change (S q <? S i) with (q <? i). change (S q =? S i) with (q =? i).
      destruct (q <? i) eqn:E1; [reflexivity|].
      destruct (q =? i) eqn:E2; [reflexivity|].
      apply Nat.ltb_ge in E1. apply Nat.eqb_neq in E2.
      destruct q as [|q]; [lia|]. simpl. rewrite Nat.sub_0_r. reflexivity.
Qed.

Definition count_lt (q : nat) (ds : list nat) : nat :=
  length (filter (fun d => d <? q) ds).

Lemma count_lt_app q l1 l2 : count_lt q (l1 ++ l2) = count_lt q l1 + count_lt q l2.
Proof. unfold count_lt. rewrite filter_app, length_app. reflexivity. Qed.

Lemma count_lt_all q ds : (forall d, In d ds -> d < q) -> count_lt q ds = length ds.
Proof.
  unfold count_lt. induction ds as [|d ds IH]; intros H; simpl; [reflexivity|].
  assert ((d <? q) = true) as -> by (apply Nat.ltb_lt, H; left; reflexivity).
  simpl. f_equal. apply IH. intros; apply H; right; assumption.
Qed.

Lemma count_lt_none q ds : (forall d, In d ds -> q <= d) -> count_lt q ds = 0.
Proof.
  unfold count_lt. induction ds as [|d ds IH]; intros H; simpl; [reflexivity|].
  assert ((d <? q) = false) as -> by (apply Nat.ltb_ge, H; left; reflexivity).
  apply IH. intros; apply H; right; assumption.
Qed.

Definition asc (l : list (nat * nat)) : Prop :=
  StronglySorted (fun a b => fst a < fst b) l.

Lemma asc_snoc_inv l a :
  asc (l ++ [a]) -> asc l /\ forall b, In b l -> fst b < fst a.
Proof.
  unfold asc. induction l as [|c l IH]; simpl; intros H.
  - split; [constructor | intros b []].
  - inversion H as [|? ? Hs Hall]; subst.
    destruct (IH Hs) as [Hl Hlt]. split.
    + constructor; [assumption|].
      rewrite Forall_forall in *. intros b Hb. apply Hall, in_or_app; left; assumption.
    + intros b [<-|Hb]; [|apply Hlt; assumption].
      rewrite Forall_forall in Hall. apply Hall, in_or_app; right; left; reflexivity.
Qed.

Definition insert_all (pairs : list (nat * nat)) (l : list nat) : list nat :=
  fold_left (fun order ds => insert_at (fst ds) (snd ds) order) pairs l.

(** Inserting at ascending positions puts every inserted value at its
    position and keeps the other values in their order. *)
Lemma insert_all_spec (pairs : list (nat * nat)) (l : list nat) :
  asc pairs ->
  (forall a, In a pairs -> fst a < length l + length pairs) ->
  length (insert_all pairs l) = length l + length pairs
  /\ (forall a, In a pairs -> nth (fst a) (insert_all pairs l) 0 = snd a)
  /\ (forall q, ~ In q (map fst pairs) ->
        nth q (insert_all pairs l) 0 = nth (q - count_lt q (map fst pairs)) l 0).
Proof.
  induction pairs as [|a ps IH] using rev_ind; intros Hasc Hbound.
  - simpl. repeat split; [lia | intros a [] |].
    intros q _. unfold count_lt; simpl. rewrite Nat.sub_0_r. reflexivity.
  - apply asc_snoc_inv in Hasc as [Hasc Hlt].
    assert (Ha : fst a <= length l + length ps).
    { assert (Hin' : In a (ps ++ [a])) by (apply in_or_app; right; left; reflexivity).
      specialize (Hbound a Hin'). rewrite length_app in Hbound. simpl in Hbound. lia. }
    destruct IH as (Hlen & Hin & Hout); [assumption| |].
    { intros b Hb. specialize (Hlt b Hb). lia. }
    unfold insert_all in *. rewrite fold_left_app. simpl.
    set (F := fold_left _ ps l) in *.
    repeat split.
    + rewrite insert_at_length, length_app. simpl. lia.
    + intros b Hb. rewrite insert_at_nth by lia.
      apply in_app_or in Hb as [Hb|[<-|[]]].
      * specialize (Hlt b Hb). apply Nat.ltb_lt in Hlt. rewrite Hlt. apply Hin; assumption.
      * rewrite Nat.ltb_irrefl, Nat.eqb_refl. reflexivity.
    + intros q Hq. rewrite map_app, in_app_iff in Hq. simpl in Hq.
      rewrite insert_at_nth by lia. rewrite map_app, count_lt_app. simpl.
      unfold count_lt at 2. simpl.
      destruct (q <? fst a) eqn:E1.
      * apply Nat.ltb_lt in E1.
        assert ((fst a <? q) = false) as -> by (apply Nat.ltb_ge; lia).
        simpl. rewrite Nat.add_0_r. apply Hout. intros Hd; apply Hq; left; exact Hd.
      * apply Nat.ltb_ge in E1.
        assert (q <> fst a) by (intros Hd; apply Hq; right; left; symmetry; exact Hd).
        assert ((q =? fst a) = false) as -> by (apply Nat.eqb_neq; assumption).
        assert ((fst a <? q) = true) as -> by (apply Nat.ltb_lt; lia).
        simpl. rewrite Hout.
        -- rewrite !count_lt_all.
           ++ f_equal. lia.
           ++ intros d Hd. apply in_map_iff in Hd as (b & <- & Hb). specialize (Hlt b Hb). lia.
           ++ intros d Hd. apply in_map_iff in Hd as (b & <- & Hb). specialize (Hlt b Hb). lia.
        -- intros Hd. apply in_map_iff in Hd as (b & Hq' & Hb). specialize (Hlt b Hb). lia.
Qed.

Lemma insert_pair_in a b l : In b (insert_pair a l) <-> b = a \/ In b l.
Proof.
  induction l as [|c l IH]; simpl.
  - intuition congruence.
  - destruct (pair_leb a c); simpl; [intuition congruence|].
    rewrite IH. intuition congruence.
Qed.

Lemma sorted_pairs_in b l : In b (sorted_pairs l) <-> In b l.
Proof.
  induction l as [|a l IH]; simpl; [tauto|].
  rewrite insert_pair_in, IH. intuition congruence.
Qed.

Lemma insert_pair_length a l : length (insert_pair a l) = S (length l).
Proof.
  induction l as [|c l IH]; simpl; [reflexivity|].
  destruct (pair_leb a c); simpl; [reflexivity|]. rewrite IH; reflexivity.
Qed.

Lemma sorted_pairs_length l : length (sorted_pairs l) = length l.
Proof.
  induction l as [|a l IH]; simpl; [reflexivity|].
  rewrite insert_pair_length, IH. reflexivity.
Qed.

Lemma insert_pair_count q a l :
  count_lt q (map fst (insert_pair a l)) = count_lt q (map fst (a :: l)).
Proof.
  induction l as [|c l IH]; simpl; [reflexivity|].
  destruct (pair_leb a c); [reflexivity|].
  unfold count_lt in *. simpl in *.
  destruct (fst c <? q); destruct (fst a <? q); simpl in *; rewrite IH; reflexivity.
Qed.

Lemma sorted_pairs_count q l :
  count_lt q (map fst (sorted_pairs l)) = count_lt q (map fst l).
Proof.
  induction l as [|a l IH]; simpl; [reflexivity|].
  rewrite insert_pair_count. unfold count_lt in *. simpl.
  destruct (fst a <? q); simpl; rewrite IH; reflexivity.
Qed.

Lemma insert_pair_asc a l :
  asc l -> ~ In (fst a) (map fst l) -> asc (insert_pair a l).
Proof.
  unfold asc. induction l as [|c l IH]; intros Hasc Hnin; simpl.
  - constructor; constructor.
  - inversion Hasc as [|? ? Hs Hall]; subst.
    assert (Hne : fst a <> fst c) by (intros E; apply Hnin; left; symmetry; exact E).
    destruct (pair_leb a c) eqn:E.
    + assert (Hlt : fst a < fst c).
      { unfold pair_leb in E. apply orb_true_iff in E as [E|E].
        - apply Nat.ltb_lt; exact E.
        - apply andb_true_iff in E as [E _]. apply Nat.eqb_eq in E. contradiction. }
      constructor; [assumption|]. constructor; [assumption|].
      rewrite Forall_forall in *. intros b Hb. specialize (Hall b Hb). lia.
    + assert (Hlt : fst c < fst a).
      { unfold pair_leb in E. apply orb_false_iff in E as [E _].
        apply Nat.ltb_ge in E. lia. }
      constructor.
      * apply IH; [assumption|]. intros Hin; apply Hnin; right; exact Hin.
      * rewrite Forall_forall in *. intros b Hb.
        rewrite insert_pair_in in Hb; destruct Hb as [->|Hb]; [assumption | apply Hall; assumption].
Qed.

Lemma sorted_pairs_asc l : NoDup (map fst l) -> asc (sorted_pairs l).
Proof.
  induction l as [|a l IH]; simpl; intros Hnd.
  - constructor.
  - inversion Hnd as [|? ? Hnin Hnd']; subst.
    apply insert_pair_asc; [apply IH; assumption|].
    intros Hin. apply Hnin.
    apply in_map_iff in Hin as (b & Hb & Hin). rewrite sorted_pairs_in in Hin.
    rewrite <- Hb. apply in_map. exact Hin.
Qed.

Definition notin (ds : list nat) (k : nat) : bool :=
  negb (existsb (Nat.eqb k) ds).

Lemma notin_true ds k : notin ds k = true <-> ~ In k ds.
Proof.
  unfold notin. rewrite negb_true_iff. split.
  - intros E Hin. assert (existsb (Nat.eqb k) ds = true); [|congruence].
    apply existsb_exists. exists k. split; [assumption | apply Nat.eqb_refl].
  - intros Hnin. destruct (existsb (Nat.eqb k) ds) eqn:E; [|reflexivity].
    apply existsb_exists in E as (x & Hx & Ex). apply Nat.eqb_eq in Ex. subst.
    contradiction.
Qed.

(** The number of axes below [q] that are not in [ds]. *)
Definition rank (ds : list nat) (q : nat) : nat :=
  length (filter (notin ds) (seq 0 q)).

Lemma count_lt_succ q ds :
  NoDup ds ->
  count_lt (S q) ds = count_lt q ds + (if notin ds q then 0 else 1).
Proof.
  unfold count_lt. induction ds as [|d ds IH]; intros Hnd; simpl; [reflexivity|].
  inversion Hnd as [|? ? Hnin Hnd']; subst. specialize (IH Hnd').
  unfold notin in *. simpl.
  destruct (Nat.eq_dec q d) as [->|Hne].
  - rewrite Nat.eqb_refl. simpl.
    assert ((d <? S d) = true) as -> by (apply Nat.ltb_lt; lia).
    assert ((d <? d) = false) as -> by (apply Nat.ltb_irrefl).
    simpl. rewrite IH.
    assert (Hn : notin ds d = true) by (apply notin_true; assumption).
    unfold notin in Hn. rewrite Hn. lia.
  - assert ((q =? d) = false) as -> by (apply Nat.eqb_neq; assumption).
    simpl. destruct (d <? q) eqn:E.
    + assert ((d <? S q) = true) as -> by (apply Nat.ltb_lt; apply Nat.ltb_lt in E; lia).
      simpl. rewrite IH. lia.
    + assert ((d <? S q) = false) as -> by (apply Nat.ltb_ge; apply Nat.ltb_ge in E; lia).
      exact IH.
Qed.

Lemma rank_count ds q : NoDup ds -> rank ds q + count_lt q ds = q.
Proof.
  intros Hnd. induction q as [|q IH].
  - unfold rank. simpl. apply count_lt_none. intros; lia.
  - unfold rank in *. rewrite seq_S, filter_app, length_app. simpl.
    rewrite count_lt_succ by assumption.
    destruct (notin ds q); simpl; lia.
Qed.

Lemma rank_total ds n :
  NoDup ds -> (forall d, In d ds -> d < n) -> rank ds n + length ds = n.
Proof.
  intros Hnd Hlt. rewrite <- (count_lt_all ds Hlt). apply rank_count; assumption.
Qed.

Lemma rank_nth (P : nat -> bool) (k n : nat) :
  P k = true -> k < n ->
  length (filter P (seq 0 k)) < length (filter P (seq 0 n))
  /\ nth (length (filter P (seq 0 k))) (filter P (seq 0 n)) 0 = k.
Proof.
  intros HP Hk.
  replace n with (k + S (n - k - 1)) by lia.
  rewrite seq_app, filter_app. simpl. rewrite HP, length_app. simpl.
  split; [lia|]. apply nth_middle.
Qed.

Lemma nth_rank (P : nat -> bool) (r n : nat) :
  r < length (filter P (seq 0 n)) ->
  P (nth r (filter P (seq 0 n)) 0) = true
  /\ nth r (filter P (seq 0 n)) 0 < n
  /\ length (filter P (seq 0 (nth r (filter P (seq 0 n)) 0))) = r.
Proof.
  intros Hr. set (L := filter P (seq 0 n)) in *. set (k := nth r L 0).
  assert (Hin : In k L) by (apply nth_In; exact Hr).
  apply filter_In in Hin as [Hseq HP]. apply in_seq in Hseq.
  assert (Hk : k < n) by lia.
  destruct (rank_nth P HP Hk) as [Hlt Hnth]. fold L in Hlt, Hnth.
  repeat split; try assumption.
  assert (Hnd : NoDup L) by (apply NoDup_filter, seq_NoDup).
  rewrite (NoDup_nth L 0) in Hnd. apply Hnd; assumption.
Qed.

Lemma map_fst_combine (dst src : list nat) :
  length dst = length src -> map fst (combine dst src) = dst.
Proof.
  revert src; induction dst as [|d dst IH]; intros [|s src] H; simpl in *; try lia; [reflexivity|].
  f_equal. apply IH. lia.
Qed.

(** What [moveaxis_order] builds: the source axes stand at their
    destinations, the other axes fill the free positions in order. *)
Lemma moveaxis_order_spec (n : nat) (src dst : list nat) :
  NoDup src -> NoDup dst -> length src = length dst ->
  (forall s, In s src -> s < n) -> (forall d, In d dst -> d < n) ->
  length (moveaxis_order n src dst) = n
  /\ (forall i, i < length src ->
        nth (nth i dst 0) (moveaxis_order n src dst) 0 = nth i src 0)
  /\ (forall q, ~ In q dst ->
        nth q (moveaxis_order n src dst) 0
        = nth (rank dst q) (filter (notin src) (seq 0 n)) 0).
Proof.
  intros Hnds Hndd Hlen HS HD.
  assert (Hfst : map fst (combine dst src) = dst) by (apply map_fst_combine; lia).
  destruct (@insert_all_spec (sorted_pairs (combine dst src))
              (filter (notin src) (seq 0 n))) as (Hl & Hin & Hout).
  - apply sorted_pairs_asc. rewrite Hfst. assumption.
  - intros a Ha. rewrite sorted_pairs_in in Ha.
    rewrite sorted_pairs_length, length_combine.
    pose proof (rank_total Hnds HS) as Hr. unfold rank in Hr.
    assert (In (fst a) dst) by (rewrite <- Hfst; apply in_map; exact Ha).
    specialize (HD _ H). lia.
  - assert (Ho : moveaxis_order n src dst
                 = insert_all (sorted_pairs (combine dst src))
                              (filter (notin src) (seq 0 n))) by reflexivity.
    rewrite Ho. repeat split.
    + rewrite Hl, sorted_pairs_length, length_combine.
      pose proof (rank_total Hnds HS) as Hr. unfold rank in Hr. lia.
    + intros i Hi.
      apply (Hin (nth i dst 0, nth i src 0)).
      rewrite sorted_pairs_in. rewrite <- combine_nth by lia.
      apply nth_In. rewrite length_combine. lia.
    + intros q Hq. rewrite Hout.
      * rewrite sorted_pairs_count, Hfst.
        pose proof (rank_count q Hndd). f_equal. lia.
      * intros Hq'. apply Hq.
        apply in_map_iff in Hq' as (b & <- & Hb). rewrite sorted_pairs_in in Hb.
        rewrite <- Hfst. apply in_map. exact Hb.
Qed.

(** Moving the axes back undoes the move. *)
Lemma moveaxis_order_inverse (n : nat) (src dst : list nat) :
  NoDup src -> NoDup dst -> length src = length dst ->
  (forall s, In s src -> s < n) -> (forall d, In d dst -> d < n) ->
  forall k, k < n ->
    nth k (moveaxis_order n dst src) 0 < n
    /\ nth (nth k (moveaxis_order n dst src) 0) (moveaxis_order n src dst) 0 = k.
Proof.
  intros Hnds Hndd Hlen HS HD k Hk.
  destruct (moveaxis_order_spec Hnds Hndd Hlen HS HD) as (_ & Hin1 & Hout1).
  destruct (moveaxis_order_spec Hndd Hnds (eq_sym Hlen) HD HS) as (_ & Hin2 & Hout2).
  destruct (in_dec Nat.eq_dec k src) as [HkS|HkS].
  - destruct (In_nth src k 0 HkS) as (i & Hi & <-).
    rewrite Hin2 by lia. split.
    + apply HD, nth_In. lia.
    + apply Hin1. exact Hi.
  - rewrite (Hout2 k HkS).
    assert (HPk : notin src k = true) by (apply notin_true; exact HkS).
    destruct (rank_nth (notin src) HPk Hk) as [Hr HnthS]. fold (rank src k) in Hr, HnthS.
    pose proof (rank_total Hnds HS) as HrS. pose proof (rank_total Hndd HD) as HrD.
    unfold rank in HrS, HrD.
    assert (Hr' : rank src k < length (filter (notin dst) (seq 0 n))) by lia.
    destruct (@nth_rank (notin dst) _ _ Hr') as (HPq & Hq & Hrq).
    set (q := nth (rank src k) (filter (notin dst) (seq 0 n)) 0) in *.
    split; [exact Hq|].
    rewrite Hout1 by (apply notin_true; exact HPq).
    unfold rank at 1. rewrite Hrq. exact HnthS.
Qed.

Lemma index_of_first (x m : nat) (l : list nat) :
  nth m l 0 = x -> m < length l ->
  index_of x l <= m /\ nth (index_of x l) l 0 = x.
Proof.
  revert m; induction l as [|y l IH]; intros m Hnth Hm; simpl in *; [lia|].
  destruct (y =? x) eqn:E.
  - apply Nat.eqb_eq in E. split; [lia | exact E].
  - destruct m as [|m]; [apply Nat.eqb_neq in E; contradiction|].
    destruct (IH m Hnth ltac:(lia)) as [Hle Hx]. split; [lia | exact Hx].
Qed.

(** Two orders that undo each other: [inverse_orders n o1 o2]. *)
Definition undoes (n : nat) (o1 o2 : list nat) : Prop :=
  forall k, k < n -> nth k o2 0 < n /\ nth (nth k o2 0) o1 0 = k.

Lemma index_of_inverse (n : nat) (o1 o2 : list nat) :
  length o1 = n -> undoes n o1 o2 -> undoes n o2 o1 ->
  forall ax, ax < n -> index_of ax o1 = nth ax o2 0.
Proof.
  intros Hlen H12 H21 ax Hax.
  destruct (H12 ax Hax) as [Hm Hnth].
  destruct (@index_of_first ax (nth ax o2 0) o1 Hnth ltac:(lia)) as [Hle Hp].
  destruct (H21 (index_of ax o1) ltac:(lia)) as [_ Hback].
  rewrite Hp in Hback. symmetry. exact Hback.
Qed.

Lemma undoes_NoDup (n : nat) (o1 o2 : list nat) :
  length o1 = n -> undoes n o2 o1 -> NoDup o1.
Proof.
  intros Hlen H21. apply (NoDup_nth o1 0). intros i j Hi Hj E.
  destruct (H21 i ltac:(lia)) as [_ Ei]. destruct (H21 j ltac:(lia)) as [_ Ej].
  rewrite E in Ei. congruence.
Qed.

Lemma Forall2_lt_nth (l1 l2 : list nat) :
  Forall2 lt l1 l2 <->
  length l1 = length l2 /\ forall k, k < length l1 -> nth k l1 0 < nth k l2 0.
Proof.
  split.
  - induction 1 as [|x y l1 l2 Hxy H IH]; simpl.
    + split; [reflexivity | intros; lia].
    + destruct IH as [Hlen Hk]. split; [lia|].
      intros [|k] Hlt; [exact Hxy | apply Hk; lia].
  - revert l2; induction l1 as [|x l1 IH]; intros [|y l2] [Hlen Hk]; simpl in *;
      try lia; constructor.
    + apply (Hk 0). lia.
    + apply IH. split; [lia|]. intros k Hlt. apply (Hk (S k)). lia.
Qed.

Lemma map_nth_seq (s : list nat) : map (fun k => nth k s 0) (seq 0 (length s)) = s.
Proof.
  induction s as [|x s IH]; simpl; [reflexivity|].
  f_equal. rewrite <- seq_shift, map_map. exact IH.
Qed.

Lemma nth_map_seq (f : nat -> nat) (n k : nat) :
  k < n -> nth k (map f (seq 0 n)) 0 = f k.
Proof.
  intros Hk. rewrite (nth_indep _ 0 (f 0)) by (rewrite length_map, length_seq; exact Hk).
  rewrite map_nth, seq_nth by exact Hk. reflexivity.
Qed.

Lemma nth_map_order (s o : list nat) (k : nat) :
  k < length o -> nth k (map (fun j => nth j s 0) o) 0 = nth (nth k o 0) s 0.
Proof.
  intros Hk. rewrite (nth_indep _ 0 (nth 0 s 0)) by (rewrite length_map; exact Hk).
  apply (map_nth (fun j => nth j s 0)).
Qed.

Section TransposeFacts.
Variable A : Type.

Lemma array_eq_trans (a b c : ndarray A) :
  array_eq a b -> array_eq b c -> array_eq a c.
Proof.
  intros [Hs1 He1] [Hs2 He2]. split; [congruence|].
  intros idx Hidx. rewrite He1 by exact Hidx. apply He2. rewrite <- Hs1. exact Hidx.
Qed.

(** An index of the transposed array, carried back to the array. *)
Lemma transpose_index_in_range (s o o' idx : list nat) :
  length o = length s -> undoes (length s) o o' -> undoes (length s) o' o ->
  in_range (map (fun k => nth k s 0) o) idx ->
  in_range s (map (fun ax => nth (index_of ax o) idx 0) (seq 0 (length s))).
Proof.
  intros Hlen H12 H21 Hidx. unfold in_range in *.
  apply Forall2_lt_nth in Hidx as [Hl Hk]. rewrite length_map in Hl.
  apply Forall2_lt_nth. rewrite length_map, length_seq. split; [reflexivity|].
  intros ax Hax. rewrite nth_map_seq by exact Hax.
  rewrite (index_of_inverse Hlen H12 H21 Hax).
  destruct (H12 ax Hax) as [Hm Hnth].
  specialize (Hk (nth ax o' 0) ltac:(lia)).
  rewrite nth_map_order in Hk by lia. rewrite Hnth in Hk. exact Hk.
Qed.

Lemma transpose_ext (b b' : ndarray A) (o o' : list nat) :
  array_eq b' b ->
  length o = ndim b -> undoes (ndim b) o o' -> undoes (ndim b) o' o ->
  array_eq (transpose b' o) (transpose b o).
Proof.
  destruct b as [sb eb], b' as [sb' eb'].
  unfold array_eq, transpose, ndim; cbn [shape elem].
  intros [Hs He] Hlen H12 H21. subst sb'.
  split; [reflexivity|].
  intros idx Hidx. apply He.
  apply transpose_index_in_range with (o' := o'); assumption.
Qed.

Lemma transpose_transpose (a : ndarray A) (o1 o2 : list nat) :
  length o1 = ndim a -> length o2 = ndim a ->
  undoes (ndim a) o1 o2 -> undoes (ndim a) o2 o1 ->
  array_eq (transpose (transpose a o1) o2) a.
Proof.
  destruct a as [sa ea].
  unfold array_eq, transpose, ndim; cbn [shape elem].
  intros Hl1 Hl2 H12 H21. rewrite length_map, Hl1.
  assert (Hshape : map (fun k => nth k (map (fun k0 => nth k0 sa 0) o1) 0) o2
                   = sa).
  { transitivity (map (fun k => nth k sa 0) (seq 0 (length sa)));
      [|apply map_nth_seq].
    apply nth_ext with (d := 0) (d' := 0).
    - rewrite !length_map, length_seq. exact Hl2.
    - rewrite length_map. intros k Hk.
      rewrite (nth_indep _ 0 (nth 0 (map (fun k0 => nth k0 sa 0) o1) 0))
        by (rewrite length_map; exact Hk).
      rewrite (map_nth (fun j => nth j (map (fun k0 => nth k0 sa 0) o1) 0)).
      destruct (H12 k ltac:(lia)) as [Hm Hnth].
      rewrite nth_map_order by lia. rewrite Hnth.
      rewrite nth_map_seq by lia. reflexivity. }
  split; [exact Hshape|].
  intros idx Hidx. rewrite Hshape in Hidx.
  f_equal.
  assert (Hlenidx : length idx = length sa).
  { unfold in_range in Hidx. apply Forall2_length in Hidx. exact Hidx. }
  transitivity (map (fun k => nth k idx 0) (seq 0 (length idx)));
    [|apply map_nth_seq].
  rewrite Hlenidx. apply map_ext_in. intros ax Hax. apply in_seq in Hax.
  rewrite (index_of_inverse Hl1 H12 H21) by lia.
  destruct (H12 ax ltac:(lia)) as [Hm Hnth].
  rewrite nth_map_seq by lia.
  rewrite (index_of_inverse Hl2 H21 H12) by lia.
  rewrite Hnth. reflexivity.
Qed.

End TransposeFacts.

(** *** Flat positions *)

Lemma in_range_cons_inv (s0 i : nat) (s idx : list nat) :
  in_range (s0 :: s) (i :: idx) -> i < s0 /\ in_range s idx.
Proof. unfold in_range. intros H; inversion H; subst; split; assumption. Qed.

Lemma ravel_lt (s idx : list nat) : in_range s idx -> ravel s idx < nprod s.
Proof.
  revert idx; induction s as [|s0 s IH]; intros idx H.
  - simpl. destruct idx; simpl; lia.
  - destruct idx as [|i idx]; [inversion H|].
    apply in_range_cons_inv in H as [Hi H]. specialize (IH idx H).
    simpl. nia.
Qed.

Lemma unravel_ravel (s idx : list nat) :
  in_range s idx -> unravel s (ravel s idx) = idx.
Proof.
  revert idx; induction s as [|s0 s IH]; intros idx H.
  - inversion H; reflexivity.
  - destruct idx as [|i idx]; [inversion H|].
    apply in_range_cons_inv in H as [Hi H].
    pose proof (ravel_lt H) as Hr. simpl.
    assert (Hq : (i * nprod s + ravel s idx) / nprod s = i).
    { symmetry. apply Nat.div_unique with (r := ravel s idx); [exact Hr | lia]. }
    assert (Hm : (i * nprod s + ravel s idx) mod nprod s = ravel s idx).
    { symmetry. apply Nat.mod_unique with (q := i); [exact Hr | lia]. }
    rewrite Hq, Hm, IH by exact H. reflexivity.
Qed.

Lemma ravel_unravel (s : list nat) (k : nat) :
  k < nprod s -> ravel s (unravel s k) = k.
Proof.
  revert k; induction s as [|s0 s IH]; intros k Hk; simpl in *.
  - lia.
  - assert (Hp : nprod s <> 0) by (intros E; rewrite E in Hk; lia).
    rewrite IH by (apply Nat.mod_upper_bound; exact Hp).
    pose proof (Nat.div_mod_eq k (nprod s)). lia.
Qed.

Lemma resolve_shape_spec (total : nat) (s : list nat) :
  resolve_shape total (shape_spec s) = Ok s.
Proof.
  unfold resolve_shape, shape_spec.
  assert (Hex : existsb (fun d => (d <? -1)%Z) (map Z.of_nat s) = false).
  { induction s as [|x s IH]; simpl; [reflexivity|].
    rewrite IH. destruct (Z.ltb_spec (Z.of_nat x) (-1)); [lia | reflexivity]. }
  assert (Hf : filter (fun d => (d =? -1)%Z) (map Z.of_nat s) = []).
  { clear Hex. induction s as [|x s IH]; simpl; [reflexivity|].
    destruct (Z.eqb_spec (Z.of_nat x) (-1)); [lia | exact IH]. }
  rewrite Hex, Hf. simpl. f_equal.
  rewrite map_map. rewrite <- (map_id s) at 2. apply map_ext. intros; apply Nat2Z.id.
Qed.

Lemma resolve_shape_packed (total a b c : nat) :
  a * b * c <> 0 -> total mod (a * b * c) = 0 ->
  resolve_shape total [Z.of_nat a; Z.of_nat b; (-1)%Z; Z.of_nat c]
  = Ok [a; b; total / (a * b * c); c].
Proof.
  intros Hnz Hdiv. unfold resolve_shape. cbn [existsb filter known_prod fold_right map].
  assert (Ha : (Z.of_nat a <? -1)%Z = false) by (apply Z.ltb_ge; lia).
  assert (Hb : (Z.of_nat b <? -1)%Z = false) by (apply Z.ltb_ge; lia).
  assert (Hc : (Z.of_nat c <? -1)%Z = false) by (apply Z.ltb_ge; lia).
  assert (Ha' : (Z.of_nat a =? -1)%Z = false) by (apply Z.eqb_neq; lia).
  assert (Hb' : (Z.of_nat b =? -1)%Z = false) by (apply Z.eqb_neq; lia).
  assert (Hc' : (Z.of_nat c =? -1)%Z = false) by (apply Z.eqb_neq; lia).
  rewrite Ha, Hb, Hc, Ha', Hb', Hc'. cbn.
  assert (Hk : Z.to_nat (Z.of_nat a * (Z.of_nat b * (Z.of_nat c * 1))) = a * b * c) by lia.
  rewrite Hk, !Nat2Z.id.
  assert ((a * b * c =? 0) = false) as -> by (apply Nat.eqb_neq; exact Hnz).
  rewrite Hdiv. cbn. reflexivity.
Qed.

Section ReshapeFacts.
Variable A : Type.

(** Reshaping to a shape of the same size and back gives the array back. *)
Lemma reshape_back (a b : ndarray A) (spec : list Z) :
  reshape a spec = Ok b ->
  exists c, reshape b (shape_spec (shape a)) = Ok c /\ array_eq c a.
Proof.
  destruct a as [sa ea]. unfold reshape, size. cbn [shape elem].
  destruct (resolve_shape (nprod sa) spec) as [s|e] eqn:Hs; simpl; [|discriminate].
  destruct (nprod s =? nprod sa) eqn:Hsize; [|discriminate].
  apply Nat.eqb_eq in Hsize. intros Hb. injection Hb as <-.
  cbn [shape elem]. rewrite resolve_shape_spec. simpl.
  rewrite Hsize, Nat.eqb_refl.
  eexists. split; [reflexivity|].
  split; [reflexivity|]. cbn [shape elem]. intros idx Hidx.
  pose proof (ravel_lt Hidx) as Hlt.
  rewrite ravel_unravel by (rewrite Hsize; exact Hlt).
  rewrite unravel_ravel by exact Hidx. reflexivity.
Qed.

End ReshapeFacts.

(** *** Squeezing and broadcasting *)

Lemma nprod_squeezed (s : list nat) :
  nprod (filter (fun d => negb (d =? 1)) s) = nprod s.
Proof.
  induction s as [|d s IH]; [reflexivity|].
  cbn [filter]. destruct (Nat.eqb_spec d 1) as [->|_]; cbn [negb].
  - rewrite IH. change (nprod (1 :: s)) with (1 * nprod s). lia.
  - change (nprod (d :: filter (fun d0 => negb (d0 =? 1)) s))
      with (d * nprod (filter (fun d0 => negb (d0 =? 1)) s)).
    rewrite IH. reflexivity.
Qed.

(** The index, in the squeezed array, of the element at [idx]: the
    components along the axes of length 1 are left out. *)
Definition squeezed_index (s idx : list nat) : list nat :=
  map snd (filter (fun di => negb (fst di =? 1)) (combine s idx)).

Lemma squeezed_index_spec (s idx : list nat) :
  in_range s idx ->
  in_range (filter (fun d => negb (d =? 1)) s) (squeezed_index s idx)
  /\ ravel (filter (fun d => negb (d =? 1)) s) (squeezed_index s idx) = ravel s idx.
Proof.
  unfold in_range, squeezed_index.
  induction 1 as [|i d idx s Hi _ [IHr IHv]]; [split; [constructor | reflexivity]|].
  cbn [combine filter fst]. destruct (Nat.eqb_spec d 1) as [->|Hd]; cbn [negb map snd].
  - split; [exact IHr|]. assert (i = 0) as -> by lia.
    cbn [ravel]. rewrite IHv. lia.
  - split; [constructor; assumption|].
    cbn [ravel]. rewrite IHv, nprod_squeezed. reflexivity.
Qed.

Lemma squeeze_elem {X : Type} (a : ndarray X) (idx : list nat) :
  in_range (shape a) idx ->
  elem (squeeze a) (squeezed_index (shape a) idx) = elem a idx.
Proof.
  intros H. unfold squeeze. cbn [elem].
  destruct (squeezed_index_spec H) as [_ Hv]. rewrite Hv.
  rewrite unravel_ravel by exact H. reflexivity.
Qed.

Lemma Forall2_rev {X Y : Type} (P : X -> Y -> Prop) (l : list X) (l' : list Y) :
  Forall2 P l l' -> Forall2 P (rev l) (rev l').
Proof.
  induction 1 as [|x y l l' Hxy _ IH]; [constructor|].
  cbn [rev]. apply Forall2_app; [exact IH | repeat constructor; exact Hxy].
Qed.

Lemma broadcast_rev_nil_r (r : list nat) : broadcast_rev r [] = Some r.
Proof. destruct r; reflexivity. Qed.

Lemma broadcast_rev_comm (r1 r2 : list nat) :
  broadcast_rev r1 r2 = broadcast_rev r2 r1.
Proof.
  revert r2; induction r1 as [|a r1 IH]; intros [|b r2]; try reflexivity.
  cbn [broadcast_rev]. rewrite (IH r2).
  destruct (broadcast_rev r2 r1) as [r|]; [|reflexivity].
  rewrite (Nat.eqb_sym b a).
  destruct (Nat.eqb_spec a b) as [->|Hab]; [reflexivity|].
  destruct (Nat.eqb_spec a 1) as [->|Ha], (Nat.eqb_spec b 1) as [->|Hb];
    reflexivity.
Qed.

(** An index of the broadcast result reads an index of the operand. *)
Lemma broadcast_index_rev_in_range (r1 r2 r ridx : list nat) :
  broadcast_rev r1 r2 = Some r -> Forall2 lt ridx r ->
  Forall2 lt (broadcast_index_rev r1 ridx) r1.
Proof.
  revert r2 r ridx; induction r1 as [|a r1 IH]; intros r2 r ridx Hb Hr;
    [constructor|].
  destruct r2 as [|b r2].
  - cbn [broadcast_rev] in Hb. injection Hb as <-.
    inversion Hr as [|i d ridx' r' Hi Hrest]; subst.
    cbn [broadcast_index_rev]. constructor.
    + destruct (Nat.eqb_spec a 1); lia.
    + apply (IH [] r1 ridx' (broadcast_rev_nil_r r1) Hrest).
  - cbn [broadcast_rev] in Hb.
    destruct (broadcast_rev r1 r2) as [r0|] eqn:H0; [|discriminate].
    assert (Hhead : exists h, r = h :: r0 /\ (a = 1 \/ h = a)).
    { destruct (Nat.eqb_spec a b) as [->|Hab];
        [injection Hb as <-; eexists; split; [reflexivity | right; reflexivity]|].
      destruct (Nat.eqb_spec a 1) as [->|Ha];
        [injection Hb as <-; eexists; split; [reflexivity | left; reflexivity]|].
      destruct (Nat.eqb_spec b 1) as [->|Hb1]; [|discriminate].
      injection Hb as <-. eexists; split; [reflexivity | right; reflexivity]. }
    destruct Hhead as (h & -> & Hh).
    inversion Hr as [|i d ridx' r' Hi Hrest]; subst.
    cbn [broadcast_index_rev]. constructor.
    + destruct (Nat.eqb_spec a 1); lia.
    + apply (IH r2 r0 ridx' H0 Hrest).
Qed.

Lemma broadcast_index_in_range (s1 s2 s idx : list nat) :
  broadcast_shapes s1 s2 = Some s -> in_range s idx ->
  in_range s1 (broadcast_index s1 idx) /\ in_range s2 (broadcast_index s2 idx).
Proof.
  unfold broadcast_shapes, broadcast_index, in_range. intros Hb Hidx.
  destruct (broadcast_rev (rev s1) (rev s2)) as [r|] eqn:Hr; [|discriminate].
  cbn [option_map] in Hb. injection Hb as <-.
  apply Forall2_rev in Hidx. rewrite rev_involutive in Hidx.
  split.
  - rewrite <- (rev_involutive s1) at 2. apply Forall2_rev.
    apply (broadcast_index_rev_in_range _ _ Hr Hidx).
  - rewrite <- (rev_involutive s2) at 2. apply Forall2_rev.
    rewrite broadcast_rev_comm in Hr.
    apply (broadcast_index_rev_in_range _ _ Hr Hidx).
Qed.

(** Two arrays of one shape go together element by element. *)
Lemma broadcast_rev_same (r : list nat) : broadcast_rev r r = Some r.
Proof.
  induction r as [|a r IH]; [reflexivity|].
  cbn [broadcast_rev]. rewrite IH, Nat.eqb_refl. reflexivity.
Qed.

Lemma broadcast_shapes_same (s : list nat) : broadcast_shapes s s = Some s.
Proof.
  unfold broadcast_shapes. rewrite broadcast_rev_same. cbn [option_map].
  rewrite rev_involutive. reflexivity.
Qed.

Lemma broadcast_index_rev_same (r ridx : list nat) :
  Forall2 lt ridx r -> broadcast_index_rev r ridx = ridx.
Proof.
  induction 1 as [|i d ridx r Hi _ IH]; [reflexivity|].
  cbn [broadcast_index_rev]. rewrite IH.
  destruct (Nat.eqb_spec d 1); [f_equal; lia | reflexivity].
Qed.

Lemma broadcast_index_same (s idx : list nat) :
  in_range s idx -> broadcast_index s idx = idx.
Proof.
  unfold in_range, broadcast_index. intros H. apply Forall2_rev in H.
  rewrite (broadcast_index_rev_same H). apply rev_involutive.
Qed.

(** *** Strings *)

Lemma str_index_get (c : ascii) (s : string) (i : nat) :
  str_index c s = Some i -> String.get i s = Some c /\ i < String.length s.
Proof.
  revert i; induction s as [|c' s IH]; intros i; simpl; [discriminate|].
  destruct (Ascii.eqb c' c) eqn:E.
  - intros [= <-]. apply Ascii.eqb_eq in E. subst. split; [reflexivity | lia].
  - destruct (str_index c s) as [j|]; simpl; [|discriminate].
    intros [= <-]. destruct (IH j eq_refl) as [Hg Hl]. split; [exact Hg | lia].
Qed.

Lemma str_index_distinct (c1 c2 : ascii) (s : string) (i j : nat) :
  c1 <> c2 -> str_index c1 s = Some i -> str_index c2 s = Some j -> i <> j.
Proof.
  intros Hne H1 H2 ->.
  apply str_index_get in H1 as [H1 _]. apply str_index_get in H2 as [H2 _].
  congruence.
Qed.

Lemma normalize_axis_nat (n k : nat) :
  k < n -> normalize_axis n (Z.of_nat k) = Ok k.
Proof.
  intros Hk. unfold normalize_axis.
  destruct (Z.ltb_spec (Z.of_nat k) (- Z.of_nat n)); [lia|].
  destruct (Z.leb_spec (Z.of_nat n) (Z.of_nat k)); [lia|]. simpl.
  destruct (Z.ltb_spec (Z.of_nat k) 0); [lia|]. rewrite Nat2Z.id. reflexivity.
Qed.

Lemma normalize_axis_Z (n : nat) (k : Z) :
  (0 <= k < Z.of_nat n)%Z -> normalize_axis n k = Ok (Z.to_nat k).
Proof.
  intros Hk. unfold normalize_axis.
  destruct (Z.ltb_spec k (- Z.of_nat n)); [lia|].
  destruct (Z.leb_spec (Z.of_nat n) k); [lia|]. cbn [orb].
  destruct (Z.ltb_spec k 0); [lia|]. reflexivity.
Qed.

Lemma normalize_axis_last (n : nat) :
  1 <= n -> normalize_axis n (-1)%Z = Ok (n - 1).
Proof.
  intros Hn. unfold normalize_axis.
  destruct (Z.ltb_spec (-1) (- Z.of_nat n)); [lia|].
  destruct (Z.leb_spec (Z.of_nat n) (-1)); [lia|]. cbn [orb].
  change ((-1 <? 0)%Z) with true. cbv iota. f_equal. lia.
Qed.

Lemma has_duplicates_3 (a b c : nat) :
  a <> b -> a <> c -> b <> c -> has_duplicates [a; b; c] = false.
Proof.
  intros Hab Hac Hbc. simpl.
  apply Nat.eqb_neq in Hab, Hac, Hbc. rewrite Hab, Hac, Hbc. reflexivity.
Qed.

Lemma NoDup_3 (a b c : nat) : a <> b -> a <> c -> b <> c -> NoDup [a; b; c].
Proof.
  intros. repeat constructor; simpl; intuition congruence.
Qed.

Lemma list_ends (l : list nat) :
  3 <= length l ->
  exists a b mid c, l = a :: b :: mid ++ [c].
Proof.
  intros H. destruct l as [|a [|b l]]; simpl in H; try lia.
  destruct (exists_last (l := l)) as (mid & c & ->); [intros ->; simpl in H; lia|].
  exists a, b, mid, c. reflexivity.
Qed.

Lemma nprod_app (l1 l2 : list nat) : nprod (l1 ++ l2) = nprod l1 * nprod l2.
Proof. induction l1 as [|x l1 IH]; simpl; [lia|]. rewrite IH. lia. Qed.


Lemma nprod_perm (l l' : list nat) : Permutation l l' -> nprod l = nprod l'.
Proof. induction 1; simpl; lia. Qed.

Lemma nprod_transposed (s o o' : list nat) :
  length o = length s -> undoes (length s) o o' -> undoes (length s) o' o ->
  nprod (map (fun k => nth k s 0) o) = nprod s.
Proof.
  intros Hlen H12 H21.
  assert (Hperm : Permutation o (seq 0 (length s))).
  { apply NoDup_Permutation_bis.
    - apply (undoes_NoDup Hlen H21).
    - rewrite length_seq. lia.
    - intros v Hv. destruct (In_nth o v 0 Hv) as (i & Hi & <-).
      apply in_seq. destruct (H21 i ltac:(lia)) as [Hlt _]. lia. }
  rewrite (nprod_perm (Permutation_map _ Hperm)).
  rewrite map_nth_seq. reflexivity.
Qed.

Section PrepareRecover.
Variable A : Type.

Lemma moveaxis_spatial (a : ndarray A) (y x z : nat) :
  3 <= ndim a -> y < ndim a -> x < ndim a -> z < ndim a ->
  y <> x -> y <> z -> x <> z ->
  moveaxis a [Z.of_nat y; Z.of_nat x; Z.of_nat z] [0; 1; -1]%Z
  = Ok (transpose a (moveaxis_order (ndim a) [y; x; z] [0; 1; ndim a - 1])).
Proof.
  intros Hn Hy Hx Hz Hyx Hyz Hxz. unfold moveaxis, normalize_axis_tuple.
  cbn [normalize_axes].
  rewrite !normalize_axis_nat by assumption.
  rewrite (@normalize_axis_Z (ndim a) 0) by lia.
  rewrite (@normalize_axis_Z (ndim a) 1) by lia.
  rewrite normalize_axis_last by lia. cbn [bind].
  rewrite !has_duplicates_3 by lia. reflexivity.
Qed.

Lemma moveaxis_spatial_back (a : ndarray A) (y x z : nat) :
  3 <= ndim a -> y < ndim a -> x < ndim a -> z < ndim a ->
  y <> x -> y <> z -> x <> z ->
  moveaxis a [0; 1; -1]%Z [Z.of_nat y; Z.of_nat x; Z.of_nat z]
  = Ok (transpose a (moveaxis_order (ndim a) [0; 1; ndim a - 1] [y; x; z])).
Proof.
  intros Hn Hy Hx Hz Hyx Hyz Hxz. unfold moveaxis, normalize_axis_tuple.
  cbn [normalize_axes].
  rewrite (@normalize_axis_Z (ndim a) 0) by lia.
  rewrite (@normalize_axis_Z (ndim a) 1) by lia.
  rewrite normalize_axis_last by lia.
  rewrite !normalize_axis_nat by assumption. cbn [bind].
  rewrite !has_duplicates_3 by lia. reflexivity.
Qed.

Lemma packed_shape (s : list nat) (a b c : nat) (mid : list nat) :
  s = a :: b :: mid ++ [c] ->
  firstn 2 s = [a; b] /\ last s 0 = c
  /\ nprod s = nprod mid * (a * b * c).
Proof.
  intros ->. split; [reflexivity|]. split.
  - change (a :: b :: mid ++ [c]) with ((a :: b :: mid) ++ [c]). apply last_last.
  - cbn [nprod fold_right]. fold (nprod (mid ++ [c])). rewrite nprod_app. simpl. lia.
Qed.

(** C6 (as amended): for an array of at least three dimensions and an
    order string no longer than the number of dimensions, holding 'x',
    'y' and 'z' at places that lower-casing does not move, with non-empty
    spatial axes, [prepare_data] packs into the (latitude, longitude,
    samples, levels) layout and [recover_data] gives back an array of
    the original shape and content. *)
Theorem prepare_recover_roundtrip
  (data : ndarray A) (dim_order : string) (y x z : nat) :
  3 <= ndim data ->
  String.length dim_order <= ndim data ->
  str_index "y" dim_order = Some y ->
  str_index "x" dim_order = Some x ->
  str_index "z" dim_order = Some z ->
  map (str_find (lower dim_order)) yxz = map (str_find dim_order) yxz ->
  nth y (shape data) 0 * nth x (shape data) 0 * nth z (shape data) 0 <> 0 ->
  exists packed info out,
    prepare_data data dim_order = Ok (packed, info)
    /\ shape packed =
         [nth y (shape data) 0; nth x (shape data) 0;
          size data / (nth y (shape data) 0 * nth x (shape data) 0
                       * nth z (shape data) 0);
          nth z (shape data) 0]
    /\ recover_data packed info = Ok out
    /\ array_eq out data.
Proof.
  intros Hn Hlen Hy Hx Hz Hlow Hnz.
  destruct (str_index_get _ _ Hy) as [_ Hyl].
  destruct (str_index_get _ _ Hx) as [_ Hxl].
  destruct (str_index_get _ _ Hz) as [_ Hzl].
  assert (Hyx : y <> x) by (apply (@str_index_distinct "y"%char "x"%char dim_order); [discriminate | assumption | assumption]).
  assert (Hyz : y <> z) by (apply (@str_index_distinct "y"%char "z"%char dim_order); [discriminate | assumption | assumption]).
  assert (Hxz : x <> z) by (apply (@str_index_distinct "x"%char "z"%char dim_order); [discriminate | assumption | assumption]).
  set (n := ndim data) in *.
  assert (Hfind : map (str_find dim_order) yxz = [Z.of_nat y; Z.of_nat x; Z.of_nat z]).
  { unfold yxz, str_find. cbn [map]. rewrite Hy, Hx, Hz. reflexivity. }
  set (Sr := [y; x; z]). set (Dr := [0; 1; n - 1]).
  assert (HndS : NoDup Sr) by (apply NoDup_3; assumption).
  assert (HndD : NoDup Dr) by (apply NoDup_3; lia).
  assert (HS : forall s, In s Sr -> s < n) by (intros s [<-|[<-|[<-|[]]]]; lia).
  assert (HD : forall d, In d Dr -> d < n) by (intros d [<-|[<-|[<-|[]]]]; lia).
  assert (HlenSD : length Sr = length Dr) by reflexivity.
  pose proof (moveaxis_order_inverse HndS HndD HlenSD HS HD) as H12.
  pose proof (moveaxis_order_inverse HndD HndS (eq_sym HlenSD) HD HS) as H21.
  destruct (moveaxis_order_spec HndS HndD HlenSD HS HD) as (Hl1 & Hin1 & _).
  destruct (moveaxis_order_spec HndD HndS (eq_sym HlenSD) HD HS) as (Hl2 & _ & _).
  set (o1 := moveaxis_order n Sr Dr) in *. set (o2 := moveaxis_order n Dr Sr) in *.
  fold (undoes n o1 o2) in H12. fold (undoes n o2 o1) in H21.
  pose proof (Hin1 0 ltac:(simpl; lia)) as Ho0.
  pose proof (Hin1 1 ltac:(simpl; lia)) as Ho1.
  pose proof (Hin1 2 ltac:(simpl; lia)) as Ho2. cbn [nth Sr Dr] in Ho0, Ho1, Ho2.
  (* the transposed array and its shape *)
  set (T := transpose data o1).
  assert (HshT : shape T = map (fun k => nth k (shape data) 0) o1) by reflexivity.
  assert (HlT : length (shape T) = n) by (rewrite HshT, length_map; exact Hl1).
  destruct (list_ends (shape T) ltac:(lia)) as (a & b & mid & c & Hends).
  assert (Ha : a = nth y (shape data) 0).
  { transitivity (nth 0 (shape T) 0); [rewrite Hends; reflexivity|].
    rewrite HshT, nth_map_order by lia. rewrite Ho0. reflexivity. }
  assert (Hb : b = nth x (shape data) 0).
  { transitivity (nth 1 (shape T) 0); [rewrite Hends; reflexivity|].
    rewrite HshT, nth_map_order by lia. rewrite Ho1. reflexivity. }
  assert (Hc : c = nth z (shape data) 0).
  { transitivity (nth (n - 1) (shape T) 0).
    - rewrite <- HlT, Hends. change (a :: b :: mid ++ [c]) with ((a :: b :: mid) ++ [c]).
      rewrite length_app. cbn [length].
      replace (S (S (length mid)) + 1 - 1) with (length (a :: b :: mid)) by (simpl; lia).
      symmetry. apply nth_middle.
    - rewrite HshT, nth_map_order by lia. rewrite Ho2. reflexivity. }
  destruct (@packed_shape _ _ _ _ _ Hends) as (Hfirst & Hlast & Hprod).
  assert (HsizeT : size T = size data).
  { unfold size. rewrite HshT. apply nprod_transposed with (o' := o2); assumption. }
  assert (Habc : a * b * c <> 0) by (rewrite Ha, Hb, Hc; exact Hnz).
  assert (Hres : resolve_shape (size T)
                   (shape_spec (firstn 2 (shape T)) ++ [(-1)%Z; Z.of_nat (last (shape T) 0)])
                 = Ok [a; b; size T / (a * b * c); c]).
  { rewrite Hfirst, Hlast. cbn [shape_spec map app].
    apply resolve_shape_packed; [exact Habc|].
    unfold size. rewrite Hprod. apply Nat.Div0.mod_mul. }
  assert (Hpk : exists packed,
             reshape T (shape_spec (firstn 2 (shape T))
                        ++ [(-1)%Z; Z.of_nat (last (shape T) 0)]) = Ok packed
             /\ shape packed = [a; b; size T / (a * b * c); c]).
  { unfold reshape. rewrite Hres. cbn [bind].
    assert (Heq : nprod [a; b; size T / (a * b * c); c] = size T).
    { unfold size. rewrite Hprod. rewrite Nat.div_mul by exact Habc. simpl. lia. }
    rewrite Heq, Nat.eqb_refl. eexists; split; reflexivity. }
  destruct Hpk as (packed & Hpacked & Hshp).
  destruct (reshape_back _ _ Hpacked) as (T' & Hback & HeqT).
  exists packed.
  eexists. exists (transpose T' o2).
  split; [|split; [|split]].
  - unfold prepare_data. fold n.
    assert ((n <? 3) = false) as -> by (apply Nat.ltb_ge; lia).
    assert ((n <? String.length dim_order) = false) as -> by (apply Nat.ltb_ge; lia).
    unfold str_contains. rewrite Hx, Hy, Hz. cbn [negb orb].
    rewrite Hlow, Hfind.
    rewrite moveaxis_spatial by (fold n; lia). fold n. fold Sr Dr o1 T. cbn [bind].
    rewrite Hpacked. cbn [bind]. reflexivity.
  - rewrite Hshp, <- HsizeT, Ha, Hb, Hc. reflexivity.
  - unfold recover_data. cbn [interm_shape origin_order].
    rewrite Hback. cbn [bind]. rewrite Hfind.
    assert (HndT' : ndim T' = n).
    { unfold ndim. destruct HeqT as [-> _]. exact HlT. }
    rewrite moveaxis_spatial_back by (try rewrite HndT'; lia).
    rewrite HndT'. reflexivity.
  - apply array_eq_trans with (b := transpose T o2).
    + apply transpose_ext with (o' := o1); try assumption.
      * unfold ndim. rewrite HlT. exact Hl2.
      * unfold ndim. rewrite HlT. exact H21.
      * unfold ndim. rewrite HlT. exact H12.
    + apply transpose_transpose; assumption.
Qed.

End PrepareRecover.

Definition example_field : ndarray nat :=
  {| shape := [2; 3; 4; 5]; elem := ravel [2; 3; 4; 5] |}.

Lemma prepare_recover_roundtrip_witness :
  exists packed info out,
    prepare_data example_field "tzyx" = Ok (packed, info)
    /\ shape packed = [4; 5; 2; 3]
    /\ recover_data packed info = Ok out
    /\ array_eq out example_field.
Proof.
  apply (@prepare_recover_roundtrip nat example_field "tzyx" 2 3 1);
    try reflexivity; vm_compute; lia.
Defined.

(** C6, counterexample: a 3-D array and the order string "tzyx", which
    contains 'x', 'y' and 'z' but is longer than the array has axes:
    [prepare_data] raises instead of packing. *)
Lemma prepare_data_rejects_long_order :
  3 <= ndim {| shape := [1; 1; 1]; elem := fun _ => 0 |}
  /\ str_contains "x" "tzyx" = true
  /\ str_contains "y" "tzyx" = true
  /\ str_contains "z" "tzyx" = true
  /\ prepare_data {| shape := [1; 1; 1]; elem := fun _ => 0 |} "tzyx"
     = Raise (ValueError "Inconsistent number dimensions'dim_order' must have length {}").
Proof. repeat split; reflexivity. Qed.

(** [prepare_data] looks the axes up in the lower-cased order string and
    [recover_data] in the string as given: when a capital X, Y or Z
    precedes its small letter the two disagree.  A (2, 3, 1, 1) array with
    the order "Xxyz" comes back with the shape (3, 2, 1, 1). *)
Example recover_data_mixed_case :
  match prepare_data example_field "Xxyz" with
  | Ok (packed, info) => option_map (@shape nat)
      (match recover_data packed info with Ok out => Some out | Raise _ => None end)
  | Raise _ => None
  end = Some [3; 2; 4; 5].
Proof. vm_compute. reflexivity. Qed.


Section TerrainMaskFacts.
Open Scope R_scope.
Variable lowpass_lanczos : list (list (list R)) -> list (list (list R)).

Lemma insert_sorted_length x l : length (insert_sorted x l) = S (length l).
Proof.
  induction l as [|y l IH]; simpl; [reflexivity|].
  destruct (Rle_dec x y); simpl; [reflexivity | rewrite IH; reflexivity].
Qed.

Lemma np_sort_length l : length (np_sort l) = length l.
Proof.
  induction l as [|x l IH]; simpl; [reflexivity|].
  rewrite insert_sorted_length, IH. reflexivity.
Qed.

Lemma insert_sorted_In x y l : In y (insert_sorted x l) -> y = x \/ In y l.
Proof.
  induction l as [|z l IH]; simpl.
  - intros [<-|[]]; left; reflexivity.
  - destruct (Rle_dec x z); simpl.
    + intros [<-|[<-|H]]; auto.
    + intros [<-|H]; auto. destruct (IH H); auto.
Qed.

Lemma np_sort_In y l : In y (np_sort l) -> In y l.
Proof.
  induction l as [|x l IH]; simpl; [tauto|].
  intros H. apply insert_sorted_In in H as [->|H]; auto.
Qed.

Lemma insert_sorted_max x l :
  (forall y, In y l -> y < x) -> insert_sorted x l = l ++ [x].
Proof.
  induction l as [|y l IH]; intros H; simpl; [reflexivity|].
  destruct (Rle_dec x y) as [Hle|_].
  - specialize (H y (or_introl eq_refl)). lra.
  - f_equal. apply IH. intros z Hz. apply H. right. exact Hz.
Qed.

Lemma searchsorted_prefix a v :
  (forall y, In y a -> y < v) -> searchsorted (a ++ [v]) v = length a.
Proof.
  induction a as [|x a IH]; intros H; simpl.
  - destruct (Rlt_dec v v); [lra | reflexivity].
  - destruct (Rlt_dec x v) as [_|Hn].
    + f_equal. apply IH. intros y Hy. apply H. right. exact Hy.
    + exfalso. apply Hn, H. left. reflexivity.
Qed.

Lemma clip_0 : clip 0 1 0 = 0.
Proof.
  unfold clip. rewrite Rmax_left by lra. rewrite Rmin_left by lra. reflexivity.
Qed.

Lemma clip_1 : clip 0 1 1 = 1.
Proof.
  unfold clip. rewrite Rmax_left by lra. rewrite Rmin_left by lra. reflexivity.
Qed.

Lemma mask_row_tail (a n : nat) :
  (1 <= a)%nat ->
  map (clip 0 1) (map (fun k => if (1 <=? k)%nat then 1 else 0) (seq a n))
  = repeat 1 n.
Proof.
  revert a; induction n as [|n IH]; intros a Ha; cbn [seq map repeat]; [reflexivity|].
  destruct (Nat.leb_spec 1 a); [|lia]. rewrite clip_1. f_equal. apply IH. lia.
Qed.

Lemma mask_row_first_level (n : nat) :
  map (clip 0 1) (map (fun k => if (1 <=? k)%nat then 1 else 0) (seq 0 (S n)))
  = 0 :: repeat 1 n.
Proof.
  cbn [seq map]. change (1 <=? 0)%nat with false. cbv iota. rewrite clip_0. f_equal.
  apply mask_row_tail. lia.
Qed.

(** C8: with the profile given surface first (its first entry above every
    other entry) and the surface pressure equal to that bottom-level
    pressure at every grid point, the unsmoothed mask is 0 on the whole
    bottom level and 1 on every other level. *)
Theorem terrain_mask_bottom_level (p0 : R) (rest : list R) (ps : list (list R)) :
  Forall (fun pk => pk < p0) rest ->
  Forall (Forall (fun v => v = p0)) ps ->
  terrain_mask lowpass_lanczos (p0 :: rest) ps false
  = map (map (fun _ => 0 :: repeat 1 (length rest))) ps.
Proof.
  intros Hrest Hps. unfold terrain_mask.
  rewrite Forall_forall in Hrest.
  assert (Hsort : np_sort (p0 :: rest) = np_sort rest ++ [p0]).
  { simpl. apply insert_sorted_max. intros y Hy. apply Hrest, np_sort_In, Hy. }
  assert (Hidx : searchsorted (np_sort (p0 :: rest)) p0 = length rest).
  { rewrite Hsort, searchsorted_prefix, np_sort_length; [reflexivity|].
    intros y Hy. apply Hrest, np_sort_In, Hy. }
  rewrite !map_map. apply map_ext_in. intros row Hrow.
  rewrite Forall_forall in Hps. specialize (Hps row Hrow).
  rewrite Forall_forall in Hps.
  rewrite !map_map. apply map_ext_in. intros v Hv. rewrite (Hps v Hv), Hidx.
  cbn [length]. replace (S (length rest) - length rest)%nat with 1%nat by lia.
  apply mask_row_first_level.
Qed.

End TerrainMaskFacts.

Lemma terrain_mask_bottom_level_witness :
  terrain_mask (fun b => b) [3; 2; 1]%R [[3; 3]; [3; 3]]%R false
  = [[[0; 1; 1]; [0; 1; 1]]; [[0; 1; 1]; [0; 1; 1]]]%R.
Proof.
  apply (@terrain_mask_bottom_level (fun b => b) 3%R [2; 1]%R [[3; 3]; [3; 3]]%R).
  - repeat constructor; lra.
  - repeat constructor.
Defined.

Local Open Scope Z_scope.

(** The loop stops at the largest divisor of [sample_size] that is at most
    [jobs], whenever [jobs] is positive and the fuel covers the descent. *)
Lemma number_chunks_loop_spec (fuel : nat) (sample_size jobs : Z) :
  1 <= jobs -> (Z.to_nat jobs <= fuel)%nat ->
  exists d, number_chunks_loop fuel sample_size jobs = Some (Ok d)
    /\ 1 <= d <= jobs
    /\ sample_size mod d = 0
    /\ (forall j, d < j <= jobs -> sample_size mod j <> 0).
Proof.
  revert jobs. induction fuel as [|fuel IH]; intros jobs Hpos Hfuel.
  - lia.
  - cbn [number_chunks_loop].
    destruct (jobs =? 0) eqn:E0; [apply Z.eqb_eq in E0; lia|].
    destruct (sample_size mod jobs =? 0) eqn:Em.
    + apply Z.eqb_eq in Em. exists jobs. repeat split; try lia.
    + apply Z.eqb_neq in Em.
      assert (Hne1 : jobs <> 1) by (intros ->; rewrite Z.mod_1_r in Em; lia).
      destruct (IH (jobs - 1)) as (d & Hrun & Hd & Hdiv & Hmax); try lia.
      exists d. repeat split; try lia; try assumption.
      intros j Hj. destruct (Z.eq_dec j jobs) as [->|Hneq]; [assumption|].
      apply Hmax. lia.
Qed.

(** What the code does for a positive worker count: the search always
    ends; it returns the largest divisor [d] of the sample size not above
    [workers] when [d <> 1], and the requested [workers] itself, unchanged,
    when the only divisor found is 1. *)
Theorem number_chunks_largest_divisor_or_workers
  (fuel : nat) (sample_size workers : Z) :
  1 <= workers -> (Z.to_nat workers <= fuel)%nat ->
  exists d,
    1 <= d <= workers
    /\ sample_size mod d = 0
    /\ (forall j, d < j <= workers -> sample_size mod j <> 0)
    /\ number_chunks fuel sample_size workers
       = Some (Ok (if d =? 1 then workers else d)).
Proof.
  intros Hpos Hfuel.
  destruct (number_chunks_loop_spec sample_size Hpos Hfuel)
    as (d & Hrun & Hd & Hdiv & Hmax).
  exists d. repeat split; try lia; try assumption.
  unfold number_chunks. rewrite Hrun. reflexivity.
Qed.

Lemma number_chunks_largest_divisor_or_workers_witness :
  exists d,
    1 <= d <= 4
    /\ 12 mod d = 0
    /\ (forall j, d < j <= 4 -> 12 mod j <> 0)
    /\ number_chunks 4 12 4 = Some (Ok (if d =? 1 then 4 else d)).
Proof.
  apply (@number_chunks_largest_divisor_or_workers 4%nat 12 4); simpl; lia.
Defined.

(** C7, the failing input: 7 samples and 3 requested workers.  No divisor
    of 7 other than 1 is at most 3, and the function answers 3: not the
    "integer factor of 'sample_size' closest to 'workers'" of its own
    comment, and not the single worker of a sequential run.  The
    constructor, asked for 3 jobs on 7 packed samples, keeps the 3. *)
Lemma number_chunks_no_sequential_fallback :
  number_chunks 3 7 3 = Some (Ok 3) /\ 7 mod 3 <> 0 /\ 3 <> 1
  /\ init_jobs 3 8 (Some 3) 7 = Some (Ok 3).
Proof.
  split; [reflexivity|]. split; [vm_compute; discriminate|].
  split; [lia | reflexivity].
Qed.

End ToolsFacts.

(** ** Facts about AtmosphericEnergyBudget.py *)

Module AEBFacts.
Import Tools AEB ListFacts ToolsFacts.

(** *** Construction: missing values *)


Definition constant_field (s : list nat) (x : fp) : ndarray fp :=
  {| shape := s; elem := fun _ => x |}.


(** The checks never read a value of the temperature, only its shape. *)
Lemma init_validate_ignores_temperature_values
  (u v w t t' p : ndarray fp) (axes : option string) (level_type grid_type : string) :
  shape t' = shape t ->
  init_validate u v w t' p axes level_type grid_type
  = init_validate u v w t p axes level_type grid_type.
Proof. intros H. unfold init_validate. rewrite H. reflexivity. Qed.


(** The dataset path: [parse_dataset] refuses a NaN in any required
    field, the temperature included. *)
Lemma check_fields_rejects_nan (arrays : list (string * ndarray fp)) :
  existsb (fun nv => any_nan (snd nv)) arrays = true ->
  exists msg, IoTools.check_fields arrays = Raise (ValueError msg).
Proof.
  induction arrays as [|[name values] rest IH]; simpl; [discriminate|].
  intros H. destruct (any_nan values); [eexists; reflexivity|].
  destruct (negb (name =? "pressure")%string && (ndim values <? 3));
    [eexists; reflexivity|].
  apply IH. exact H.
Qed.

(** *** Reflection of the comparisons on floats *)

Lemma Rleb_true x y : Rleb x y = true <-> (x <= y)%R.
Proof. unfold Rleb. destruct (Rle_dec x y); split; intros; try assumption; try reflexivity; try discriminate; contradiction. Qed.

Lemma Reqb_true x y : Reqb x y = true <-> x = y.
Proof. unfold Reqb. destruct (Req_dec_T x y); split; intros; try assumption; try reflexivity; try discriminate; contradiction. Qed.

Lemma Reqb_false x y : Reqb x y = false <-> x <> y.
Proof. unfold Reqb. destruct (Req_dec_T x y); split; intros; try assumption; try reflexivity; try discriminate; contradiction. Qed.

Lemma np_where_from (a : nat) (mask : list bool) (k : nat) :
  In k (map fst (filter snd (combine (seq a (length mask)) mask)))
  <-> a <= k < a + length mask /\ nth (k - a) mask false = true.
Proof.
  revert a; induction mask as [|b mask IH]; intros a; simpl.
  - split; [intros [] | lia].
  - destruct b; simpl; rewrite IH.
    + split.
      * intros [<-|[Hk Hn]].
        -- rewrite Nat.sub_diag. split; [lia | reflexivity].
        -- split; [lia|]. replace (k - a) with (S (k - S a)) by lia. exact Hn.
      * intros [Hk Hn]. destruct (Nat.eq_dec a k) as [->|Hne]; [left; reflexivity|].
        right. split; [lia|]. replace (k - a) with (S (k - S a)) in Hn by lia. exact Hn.
    + split.
      * intros [Hk Hn]. split; [lia|]. replace (k - a) with (S (k - S a)) by lia. exact Hn.
      * intros [Hk Hn]. destruct (Nat.eq_dec a k) as [->|Hne].
        -- rewrite Nat.sub_diag in Hn. discriminate.
        -- split; [lia|]. replace (k - a) with (S (k - S a)) in Hn by lia. exact Hn.
Qed.

Lemma np_where_spec (mask : list bool) (k : nat) :
  In k (np_where mask) <-> k < length mask /\ nth k mask false = true.
Proof.
  unfold np_where. rewrite np_where_from, Nat.sub_0_r. intuition lia.
Qed.

Lemma nth_last (l : list R) : nth (length l - 1) l 0%R = last l 0%R.
Proof.
  induction l as [|x l IH]; [reflexivity|].
  destruct l as [|y l]; [reflexivity|].
  simpl length in *.
  replace (S (S (length l)) - 1) with (S (S (length l) - 1)) by lia. exact IH.
Qed.

Lemma nth_map_mask (f : R -> bool) (l : list R) (k : nat) :
  k < length l -> nth k (map f l) false = f (nth k l 0%R).
Proof.
  intros Hk. rewrite nth_indep with (d' := f 0%R) by (rewrite length_map; exact Hk).
  apply map_nth.
Qed.

(** [np.where(mask)[0]] lists, in ascending order, the positions at which
    the mask holds. *)
Lemma filter_seq_sorted (f : nat -> bool) (a n : nat) :
  StronglySorted lt (filter f (seq a n)).
Proof.
  revert a. induction n as [|n IH]; intros a; cbn [seq filter]; [constructor|].
  destruct (f a); [|apply IH].
  constructor; [apply IH|].
  apply Forall_forall. intros k Hk. apply filter_In in Hk as [Hk _].
  apply in_seq in Hk. lia.
Qed.

Lemma np_where_as_filter (mask : list bool) (a : nat) :
  map fst (filter snd (combine (seq a (length mask)) mask))
  = filter (fun k => nth (k - a) mask false) (seq a (length mask)).
Proof.
  revert a. induction mask as [|b mask IH]; intros a; [reflexivity|].
  cbn [length seq combine filter snd map fst]. rewrite Nat.sub_diag.
  change (nth 0 (b :: mask) false) with b.
  assert (Hrest : filter (fun k => nth (k - a) (b :: mask) false) (seq (S a) (length mask))
                  = filter (fun k => nth (k - S a) mask false) (seq (S a) (length mask))).
  { apply filter_ext_in. intros k Hk. apply in_seq in Hk.
    replace (k - a) with (S (k - S a)) by lia. reflexivity. }
  destruct b; cbn [map fst]; rewrite IH, Hrest; reflexivity.
Qed.

Lemma np_where_sorted (mask : list bool) : StronglySorted lt (np_where mask).
Proof. unfold np_where. rewrite np_where_as_filter. apply filter_seq_sorted. Qed.

Section VerticalIntegration.
Open Scope R_scope.
Variable g : R.
Variable simpson : list R -> list R -> R.

(** C10 (as amended): for the default range and for every range with two
    different limits, the samples and the pressures handed to the Simpson
    integration are, in ascending order of the level index and each once,
    exactly those of the levels inside the range whose pressure differs
    from the first and from the last level, so both boundary levels are
    left out; the integral is multiplied by [direction] and divided by
    [g]. *)
Theorem vertical_integration_interior_levels
  (st : state) (scalar : list (list R)) (pressure_range : option (R * R)) :
  match pressure_range with Some (a, b) => a <> b | None => True end ->
  let range := match pressure_range with
               | Some r => r
               | None => (nth 0 (p st) 0, last (p st) 0)
               end in
  let lo := Rmin (fst range) (snd range) in
  let hi := Rmax (fst range) (snd range) in
  exists levels,
    vertical_integration g simpson st scalar pressure_range
    = Ok (map (fun row =>
                 IZR (direction st)
                 * simpson (map (fun k => nth k row 0) levels)
                           (map (fun k => nth k (p st) 0) levels) / g)
              scalar)
    /\ StronglySorted lt levels
    /\ (forall k, In k levels <->
          (k < length (p st))%nat
          /\ lo <= nth k (p st) 0 <= hi
          /\ nth k (p st) 0 <> nth 0 (p st) 0
          /\ nth k (p st) 0 <> last (p st) 0)
    /\ ~ In 0%nat levels
    /\ ~ In (length (p st) - 1)%nat levels.
Proof.
  intros Hrange range lo hi.
  set (level_mask :=
         map (fun pk => (Rleb lo pk && Rleb pk hi)
                        && (negb (Reqb pk (nth 0 (p st) 0))
                            && negb (Reqb pk (last (p st) 0))))
             (p st)).
  assert (Hspec : forall k, In k (np_where level_mask) <->
            (k < length (p st))%nat
            /\ lo <= nth k (p st) 0 <= hi
            /\ nth k (p st) 0 <> nth 0 (p st) 0
            /\ nth k (p st) 0 <> last (p st) 0).
  { intros k. rewrite np_where_spec. unfold level_mask. rewrite length_map.
    split.
    - intros [Hk Hm]. split; [exact Hk|].
      rewrite nth_map_mask in Hm by exact Hk.
      apply andb_true_iff in Hm as [H1 H2].
      apply andb_true_iff in H1 as [Hlo Hhi]. apply andb_true_iff in H2 as [Hf Hl].
      apply Rleb_true in Hlo, Hhi.
      apply negb_true_iff in Hf, Hl. apply Reqb_false in Hf, Hl. tauto.
    - intros (Hk & [Hlo Hhi] & Hf & Hl). split; [exact Hk|].
      rewrite nth_map_mask by exact Hk.
      apply Rleb_true in Hlo, Hhi. apply Reqb_false in Hf, Hl.
      rewrite Hlo, Hhi, Hf, Hl. reflexivity. }
  exists (np_where level_mask).
  split; [|split; [apply np_where_sorted|split; [exact Hspec|split]]].
  - unfold vertical_integration.
    assert (Hr : match pressure_range with
                 | None => Ok (nth 0 (p st) 0, last (p st) 0)
                 | Some (a, b) =>
                     if Reqb a b
                     then Raise (AssertionError "Inconsistent pressure levels for vertical integration.")
                     else Ok (a, b)
                 end = Ok range).
    { unfold range. destruct pressure_range as [[a b]|]; [|reflexivity].
      apply Reqb_false in Hrange. rewrite Hrange. reflexivity. }
    rewrite Hr. cbn [bind]. fold lo hi level_mask.
    rewrite !map_map. reflexivity.
  - intros H0. apply Hspec in H0. tauto.
  - intros Hn. apply Hspec in Hn. rewrite nth_last in Hn. tauto.
Qed.

End VerticalIntegration.

(** Five levels, surface first, and two profiles on them. *)
Definition five_levels : state :=
  {| nlat := 1; nlon := 1; truncation := 0;
     zonal_wavenumber := [0%nat]; total_wavenumber := [0%nat];
     degrees := [0%nat]; vector_norm := [1%R];
     p := [5; 4; 3; 2; 1]%R; direction := (-1); weights := [1%R];
     beta := [[[1; 1; 1; 1; 1]%R]] |}.

Definition two_profiles : list (list R) :=
  [[10; 20; 30; 40; 50]; [1; 2; 3; 4; 5]]%R.

Lemma vertical_integration_interior_levels_witness :
  exists levels,
    vertical_integration 2%R (fun y x => rsum (zip_with Rmult y x)) five_levels
      two_profiles (Some (5, 3)%R)
    = Ok (map (fun row =>
                 (IZR (-1) * (fun y x => rsum (zip_with Rmult y x))
                               (map (fun k => nth k row 0) levels)
                               (map (fun k => nth k [5; 4; 3; 2; 1] 0) levels) / 2)%R)
              two_profiles)
    /\ StronglySorted lt levels
    /\ (forall k, In k levels <->
          k < 5
          /\ (Rmin 5 3 <= nth k [5; 4; 3; 2; 1] 0 <= Rmax 5 3)%R
          /\ nth k [5; 4; 3; 2; 1]%R 0%R <> 5%R
          /\ nth k [5; 4; 3; 2; 1]%R 0%R <> 1%R)
    /\ ~ In 0 levels
    /\ ~ In 4 levels.
Proof.
  apply (@vertical_integration_interior_levels 2%R
           (fun y x => rsum (zip_with Rmult y x)) five_levels
           two_profiles (Some (5, 3)%R)).
  lra.
Defined.

(** C10, counterexample: a pressure range whose two limits are equal is
    refused by the assertion of the function; nothing is integrated. *)
Lemma vertical_integration_equal_limits_raise :
  vertical_integration 2%R (fun y x => rsum (zip_with Rmult y x)) five_levels
    two_profiles (Some (3, 3)%R)
  = Raise (AssertionError "Inconsistent pressure levels for vertical integration.").
Proof.
  unfold vertical_integration.
  assert (H : Reqb 3 3 = true) by (apply Reqb_true; reflexivity).
  rewrite H. reflexivity.
Qed.


Lemma getspecindx_lengths (T : nat) :
  length (snd (getspecindx T)) = length (fst (getspecindx T)).
Proof. unfold getspecindx. cbn [fst snd]. rewrite !length_map. reflexivity. Qed.

(** Every stored coefficient has its zonal wavenumber at most its degree. *)
Lemma getspecindx_order_le_degree (T i : nat) :
  i < length (fst (getspecindx T)) ->
  nth i (fst (getspecindx T)) 0 <= nth i (snd (getspecindx T)) 0.
Proof.
  unfold getspecindx. cbn [fst snd].
  set (kept := filter _ _). rewrite length_map. intros Hi.
  assert (Hm : nth i (map fst kept) 0 = fst (nth i kept (0, 0)))
    by (apply (map_nth fst kept (0, 0))).
  assert (Hn : nth i (map snd kept) 0 = snd (nth i kept (0, 0)))
    by (apply (map_nth snd kept (0, 0))).
  rewrite Hm, Hn.
  assert (Hin : In (nth i kept (0, 0)) kept) by (apply nth_In; exact Hi).
  apply filter_In in Hin as [_ Hc]. apply Z.ltb_lt in Hc. lia.
Qed.

Section CrossSpectrum.
Open Scope R_scope.
Variable earth_radius : R.

Lemma real_product_length (c1 c2 : list (list complex)) :
  length c2 = length c1 -> length (real_product c1 c2) = length c1.
Proof.
  intros H. unfold real_product. rewrite zip_with_length, H. apply Nat.min_id.
Qed.

Lemma nth_sum_rows (nsamp : nat) (rows : list (list R)) (j : nat) :
  (j < nsamp)%nat ->
  nth j (sum_rows nsamp rows) 0 = rsum (map (fun row => nth j row 0) rows).
Proof.
  intros Hj. unfold sum_rows.
  set (h := fun j0 => rsum (map (fun row => nth j0 row 0) rows)).
  rewrite nth_indep with (d' := h 0%nat) by (rewrite length_map, length_seq; exact Hj).
  rewrite map_nth, seq_nth by exact Hj. reflexivity.
Qed.

Lemma nth_map_rows (h : R -> R) (rows : list (list R)) (d j : nat) :
  (j < length (nth d rows []))%nat ->
  nth j (nth d (map (map h) rows) []) 0 = h (nth j (nth d rows []) 0)
  /\ (j < length (nth d (map (map h) rows) []))%nat.
Proof.
  intros Hj.
  assert (Hrow : nth d (map (map h) rows) [] = map h (nth d rows []))
    by (apply (map_nth (map h) rows [])).
  rewrite Hrow, length_map. split; [|exact Hj].
  rewrite nth_indep with (d' := h 0) by (rewrite length_map; exact Hj).
  apply map_nth.
Qed.

(** One degree of the binning loop, as a sum over all coefficients. *)
Lemma binned_degree (ms ls : list nat) (prod : list (list R)) (n nsamp d j : nat) :
  length ms = n -> length ls = n -> length prod = n ->
  (forall i, (i < n)%nat -> (nth i ms 0 <= nth i ls 0)%nat) ->
  (j < nsamp)%nat ->
  nth j (sum_rows nsamp
           (select (zip_with (fun m l => (m <=? d)%nat && (l =? d)%nat) ms ls)
                   (zip_with (fun m row =>
                                map (Rmult (if (m =? 0)%nat then 1 else 2)) row)
                             ms prod))) 0
  = rsum (map (fun i =>
                 if (nth i ls 0 =? d)%nat
                 then (if (nth i ms 0 =? 0)%nat then 1 else 2)
                      * nth j (nth i prod []) 0
                 else 0)
              (seq 0 n)).
Proof.
  intros Hms Hls Hprod Hle Hj.
  rewrite nth_sum_rows by exact Hj.
  rewrite (zip_with_as_map_seq _ ms ls 0%nat 0%nat Hms Hls).
  rewrite (zip_with_as_map_seq _ ms prod 0%nat [] Hms Hprod).
  rewrite select_map_seq, map_map.
  rewrite (rsum_filter
             (fun i => (nth i ms 0 <=? d)%nat && (nth i ls 0 =? d)%nat)
             (fun i => nth j (map (Rmult (if (nth i ms 0 =? 0)%nat then 1 else 2))
                                  (nth i prod [])) 0)).
  apply rsum_ext_in. intros i Hi. apply in_seq in Hi.
  specialize (Hle i ltac:(lia)).
  rewrite nth_scaled.
  destruct (Nat.eqb_spec (nth i ls 0%nat) d) as [E|E].
  - assert ((nth i ms 0 <=? d)%nat = true) as -> by (apply Nat.leb_le; lia).
    reflexivity.
  - rewrite andb_false_r. reflexivity.
Qed.

(** The sum, over the stored coefficients whose total wavenumber is [d],
    of the real part of [clm1 * conj(c2)] at flat sample position [j],
    that is of [Re(a) Re(b) + Im(a) Im(b)], the coefficients of non-zero
    zonal wavenumber counted twice. *)
Definition degree_sum (st : state) (clm1 c2 : list (list complex))
  (d j : nat) : R :=
  rsum (map (fun i =>
               if (nth i (total_wavenumber st) 0 =? d)%nat
               then (if (nth i (zonal_wavenumber st) 0 =? 0)%nat then 1 else 2)
                    * (fst (nth j (nth i clm1 []) C0) * fst (nth j (nth i c2 []) C0)
                       + snd (nth j (nth i clm1 []) C0) * snd (nth j (nth i c2 []) C0))
               else 0)
            (seq 0 (length clm1))).

Lemma real_part_of_product (a b : complex) :
  Cre (Cmul a (Cconj b)) = fst a * fst b + snd a * snd b.
Proof. unfold Cre, Cmul, Cconj. cbn [fst snd]. ring. Qed.

Lemma shape_eqb_true (s1 s2 : list nat) : shape_eqb s1 s2 = true <-> s1 = s2.
Proof.
  unfold shape_eqb. destruct (list_eq_dec Nat.eq_dec s1 s2); split; intros;
    try assumption; try reflexivity; try discriminate; contradiction.
Qed.

Lemma shape_eqb_refl (s : list nat) : shape_eqb s s = true.
Proof. apply shape_eqb_true. reflexivity. Qed.

(** The rows of the spectrum of the initialised engine, before the
    squeeze: one per degree, each entry the halved sum of its degree. *)
Lemma spectrum_rows_entries
  (nlat nlon T : nat) (p : list R) (direction : Z) (weights : list R)
  (beta : list (list (list R)))
  (clm1 c2 : list (list complex)) (nsamp : nat) (convention : string) :
  let st := init_state earth_radius nlat nlon T p direction weights beta in
  length clm1 = length (zonal_wavenumber st) ->
  length c2 = length clm1 ->
  convention = "energy"%string \/ convention = "power"%string ->
  length (spectrum_rows st nsamp (seq 0 (T + 1)) convention (real_product clm1 c2))
  = (T + 1)%nat
  /\ forall d j, (d <= T)%nat -> (j < nsamp)%nat ->
       nth j (nth d (spectrum_rows st nsamp (seq 0 (T + 1)) convention
                       (real_product clm1 c2)) []) 0
       = if String.eqb convention "energy"
         then degree_sum st clm1 c2 d j / 2 * (4 * PI)
         else degree_sum st clm1 c2 d j / 2.
Proof.
  intros st Hlen Hc2 Hconv.
  set (ms := zonal_wavenumber st) in *. set (ls := total_wavenumber st).
  set (n := length clm1) in *.
  assert (Hls : length ls = n).
  { unfold ls, st. cbn [total_wavenumber init_state]. rewrite getspecindx_lengths.
    symmetry. exact Hlen. }
  assert (Hprod : length (real_product clm1 c2) = n)
    by (apply real_product_length; exact Hc2).
  assert (Hle : forall i, (i < n)%nat -> (nth i ms 0 <= nth i ls 0)%nat).
  { intros i Hi. unfold ms, ls, st. cbn [zonal_wavenumber total_wavenumber init_state].
    apply getspecindx_order_le_degree.
    unfold ms, st in Hlen. cbn [zonal_wavenumber init_state] in Hlen. lia. }
  set (binned_rows :=
         map (fun degree =>
                sum_rows nsamp
                  (select (zip_with (fun m l => (m <=? degree)%nat && (l =? degree)%nat) ms ls)
                          (zip_with (fun m row =>
                                       map (Rmult (if (m =? 0)%nat then 1 else 2)) row)
                                    ms (real_product clm1 c2))))
             (seq 0 (T + 1))).
  assert (Hrun : spectrum_rows st nsamp (seq 0 (T + 1)) convention (real_product clm1 c2)
                 = if String.eqb (lower convention) "energy"
                   then map (map (fun x => x * (4 * PI)))
                            (map (map (fun x => x / 2)) binned_rows)
                   else map (map (fun x => x / 2)) binned_rows)
    by reflexivity.
  assert (Hrow : forall d j, (d <= T)%nat -> (j < nsamp)%nat ->
            nth j (nth d binned_rows []) 0 = degree_sum st clm1 c2 d j
            /\ (j < length (nth d binned_rows []))%nat).
  { intros d j Hd Hj. unfold binned_rows.
    set (h := fun degree => sum_rows nsamp _).
    rewrite nth_indep with (d' := h 0%nat) by (rewrite length_map, length_seq; lia).
    rewrite map_nth, seq_nth by lia. unfold h. cbn [Nat.add]. split.
    - rewrite (@binned_degree ms ls (real_product clm1 c2) n nsamp d j
                 (eq_sym Hlen) Hls Hprod Hle Hj).
      unfold degree_sum. fold ms ls n.
      apply rsum_ext_in. intros i Hi. apply in_seq in Hi.
      destruct (nth i ls 0%nat =? d)%nat; [|reflexivity].
      f_equal. unfold real_product.
      rewrite (@nth_zip_with _ _ _ _ clm1 c2 i [] [] []) by lia.
      rewrite nth_real_row. apply real_part_of_product.
    - unfold sum_rows. rewrite length_map, length_seq. exact Hj. }
  rewrite Hrun. split.
  - destruct (String.eqb (lower convention) "energy");
      unfold binned_rows; rewrite !length_map, length_seq; reflexivity.
  - intros d j Hd Hj.
    destruct (Hrow d j Hd Hj) as [Hval Hjl].
    destruct (nth_map_rows (fun x => x / 2) binned_rows d Hjl) as [Hhalf Hjl'].
    rewrite Hval in Hhalf.
    destruct Hconv as [-> | ->].
    + change (String.eqb (lower "energy") "energy") with true.
      change (String.eqb "energy" "energy") with true. cbv iota.
      destruct (nth_map_rows (fun x => x * (4 * PI)) _ d Hjl') as [Hpi _].
      rewrite Hpi, Hhalf. reflexivity.
    + change (String.eqb (lower "power") "energy") with false.
      change (String.eqb "power" "energy") with false. cbv iota. exact Hhalf.
Qed.

(** The entry of degree [d] and sample index [sidx] of the squeezed
    array of the rows. *)
Lemma squeezed_rows_entry (ss : list nat) (rows : list (list R)) (d : nat)
  (sidx : list nat) :
  (d < length rows)%nat -> in_range ss sidx ->
  elem (squeeze (array_of_rows ss rows))
       (squeezed_index (length rows :: ss) (d :: sidx))
  = nth (ravel ss sidx) (nth d rows []) 0.
Proof.
  intros Hd Hs.
  assert (Hin : in_range (shape (array_of_rows ss rows)) (d :: sidx)).
  { unfold array_of_rows. cbn [shape]. constructor; [exact Hd | exact Hs]. }
  pose proof (squeeze_elem _ Hin) as He.
  unfold array_of_rows at 2 in He. cbn [shape] in He.
  rewrite He. reflexivity.
Qed.

(** What [cross_spectrum] returns once its checks have passed. *)
Lemma cross_spectrum_returns
  (st : state) (clm1 : coeffs) (clm2 : option coeffs) (convention : string) :
  match clm2 with Some c => coeffs_shape c = coeffs_shape clm1 | None => True end ->
  convention = "energy"%string \/ convention = "power"%string ->
  cross_spectrum st clm1 clm2 None convention
  = Ok (squeeze
          (array_of_rows (sample_shape clm1)
             (spectrum_rows st (nprod (sample_shape clm1)) (degrees st) convention
                (real_product (coefficients clm1)
                   (coefficients match clm2 with Some c => c | None => clm1 end))))).
Proof.
  intros Hshape Hconv. unfold cross_spectrum. cbn [bind].
  assert (Hcheck : negb (String.eqb convention "energy" || String.eqb convention "power")
                   = false).
  { destruct Hconv as [-> | ->]; reflexivity. }
  rewrite Hcheck.
  destruct clm2 as [c|]; [|reflexivity].
  rewrite Hshape, shape_eqb_refl. reflexivity.
Qed.

(** C1 (as amended), the AtmosphericEnergyBudget.py engine:
    [cross_spectrum] takes the real part of [clm1 * conj(clm2)] (of
    [clm1 * conj(clm1)] without [clm2]), doubles the coefficients of
    non-zero zonal wavenumber, adds up for each degree [d] of [0..T]
    exactly the coefficients whose total wavenumber is [d], halves the
    sum, and multiplies it by [4 pi] exactly when the convention is
    'energy'.  The array it returns is squeezed: the entry of degree [d]
    and sample index [sidx] sits at [squeezed_index]. *)
Theorem cross_spectrum_bins_by_degree
  (nlat nlon T : nat) (p : list R) (direction : Z) (weights : list R)
  (beta : list (list (list R)))
  (clm1 : coeffs) (clm2 : option coeffs) (convention : string) :
  let st := init_state earth_radius nlat nlon T p direction weights beta in
  let c2 := match clm2 with Some c => c | None => clm1 end in
  length (coefficients clm1) = length (zonal_wavenumber st) ->
  match clm2 with Some c => coeffs_shape c = coeffs_shape clm1 | None => True end ->
  convention = "energy"%string \/ convention = "power"%string ->
  exists spectrum,
    cross_spectrum st clm1 clm2 None convention = Ok spectrum
    /\ shape spectrum
       = filter (fun n => negb (n =? 1)%nat) ((T + 1)%nat :: sample_shape clm1)
    /\ forall d sidx, (d <= T)%nat -> in_range (sample_shape clm1) sidx ->
         elem spectrum
              (squeezed_index ((T + 1)%nat :: sample_shape clm1) (d :: sidx))
         = if String.eqb convention "energy"
           then degree_sum st (coefficients clm1) (coefficients c2) d
                  (ravel (sample_shape clm1) sidx) / 2 * (4 * PI)
           else degree_sum st (coefficients clm1) (coefficients c2) d
                  (ravel (sample_shape clm1) sidx) / 2.
Proof.
  intros st c2 Hlen Hshape Hconv.
  assert (Hc2 : length (coefficients c2) = length (coefficients clm1)).
  { unfold c2. destruct clm2 as [c|]; [|reflexivity].
    unfold coeffs_shape in Hshape. injection Hshape as Hl _. exact Hl. }
  destruct (@spectrum_rows_entries nlat nlon T p direction weights beta
              (coefficients clm1) (coefficients c2) (nprod (sample_shape clm1))
              convention Hlen Hc2 Hconv) as [Hrows Hentry].
  eexists. split; [apply (cross_spectrum_returns st clm1 clm2 Hshape Hconv)|].
  fold c2. change (degrees st) with (seq 0 (T + 1)). subst st.
  set (rows := spectrum_rows _ _ _ _ _) in *.
  split.
  - unfold squeeze, array_of_rows. cbn [shape]. rewrite Hrows. reflexivity.
  - intros d sidx Hd Hs.
    assert (Hin : in_range (shape (array_of_rows (sample_shape clm1) rows)) (d :: sidx)).
    { unfold array_of_rows. cbn [shape]. rewrite Hrows.
      constructor; [lia | exact Hs]. }
    pose proof (squeeze_elem _ Hin) as He.
    unfold array_of_rows at 2 in He. cbn [shape] in He. rewrite Hrows in He.
    rewrite He. unfold array_of_rows. cbn [elem hd tl].
    apply Hentry; [exact Hd | apply ravel_lt; exact Hs].
Qed.

(** Any other convention is refused. *)
Lemma cross_spectrum_unknown_convention
  (st : state) (clm1 : coeffs) (clm2 : option coeffs) (convention : string) :
  convention <> "energy"%string -> convention <> "power"%string ->
  cross_spectrum st clm1 clm2 None convention
  = Raise (ValueError
      ("Parameter 'convention' must be one of ['energy', 'power']. Given "
       ++ convention)).
Proof.
  intros He Hp. unfold cross_spectrum. cbn [bind].
  apply String.eqb_neq in He, Hp. rewrite He, Hp. reflexivity.
Qed.

End CrossSpectrum.

(** Truncation 1: the coefficients (m, n) = (0, 0), (0, 1), (1, 1), each at
    two samples. *)
Definition three_modes : coeffs :=
  {| sample_shape := [2%nat];
     coefficients := [[(1, 2); (3, 4)]; [(0, 1); (2, 0)]; [(1, 1); (5, 6)]]%R |}.

Definition three_modes' : coeffs :=
  {| sample_shape := [2%nat];
     coefficients := [[(2, 1); (1, 1)]; [(3, 0); (0, 2)]; [(1, -1); (2, 2)]]%R |}.

Lemma cross_spectrum_bins_by_degree_witness :
  let st := init_state 6371200 4 8 1 [1%R] 1 [1%R] [[[1%R]]] in
  exists spectrum,
    cross_spectrum st three_modes (Some three_modes') None "energy" = Ok spectrum
    /\ shape spectrum = filter (fun n => negb (n =? 1)%nat) [2%nat; 2%nat]
    /\ forall d sidx, (d <= 1)%nat -> in_range [2%nat] sidx ->
         elem spectrum (squeezed_index [2%nat; 2%nat] (d :: sidx))
         = (degree_sum st (coefficients three_modes) (coefficients three_modes')
              d (ravel [2%nat] sidx) / 2 * (4 * PI))%R.
Proof.
  apply (@cross_spectrum_bins_by_degree 6371200 4 8 1 [1%R] 1 [1%R] [[[1%R]]]
           three_modes (Some three_modes') "energy");
    [reflexivity | reflexivity | left; reflexivity].
Defined.

(** There, at the first sample, degree 1 holds the coefficient of order 0
    once and the coefficient of order 1 twice. *)
Lemma degree_sum_of_three_modes :
  let st := init_state 6371200 4 8 1 [1%R] 1 [1%R] [[[1%R]]] in
  degree_sum st (coefficients three_modes) (coefficients three_modes') 1%nat 0%nat
  = (1 * (0 * 3 + 1 * 0) + 2 * (1 * 1 + 1 * -1))%R
  /\ degree_sum st (coefficients three_modes) (coefficients three_modes') 0%nat 1%nat
     = (1 * (3 * 1 + 4 * 1))%R.
Proof.
  cbv zeta. unfold degree_sum. cbn. unfold rsum. cbn. split; ring.
Qed.

Section Norm.
Open Scope R_scope.
Variable earth_radius : R.
Variable vector_field : Type.
Variable getvrtdivspec : vector_field -> coeffs * coeffs.




Lemma init_vector_norm_positive (T : nat) :
  earth_radius <> 0 ->
  Forall (fun x => 0 < x) (init_vector_norm earth_radius T).
Proof.
  intros Hr. unfold init_vector_norm, kappa_from_deg. rewrite Nat.add_1_r.
  cbn [seq map]. constructor; [lra|].
  rewrite map_map. apply Forall_map, Forall_forall. intros n Hn.
  apply in_seq in Hn.
  assert (Hn1 : 1 <= INR n) by (change 1 with (INR 1); apply le_INR; lia).
  assert (Hs : 0 < sqrt (INR n * (INR n + 1))) by (apply sqrt_lt_R0; nra).
  assert (Hq : sqrt (INR n * (INR n + 1)) / earth_radius <> 0).
  { unfold Rdiv. apply Rmult_integral_contrapositive_currified; [lra|].
    apply Rinv_neq_0_compat. exact Hr. }
  assert (Hsq := pow2_ge_0 (sqrt (INR n * (INR n + 1)) / earth_radius)).
  assert (Hne : (sqrt (INR n * (INR n + 1)) / earth_radius) ^ 2 <> 0)
    by (apply pow_nonzero; exact Hq).
  lra.
Qed.

(** The two cross-spectra that [_vector_spectra] adds: of the vorticity
    and of the divergence coefficients. *)
Definition rotational_spectrum (st : state) (vector_1 : vector_field)
  (vector_2 : option vector_field) : result (ndarray R) :=
  cross_spectrum st (fst (getvrtdivspec vector_1))
    (option_map (fun v => fst (getvrtdivspec v)) vector_2) None "power".

Definition divergent_spectrum (st : state) (vector_1 : vector_field)
  (vector_2 : option vector_field) : result (ndarray R) :=
  cross_spectrum st (snd (getvrtdivspec vector_1))
    (option_map (fun v => snd (getvrtdivspec v)) vector_2) None "power".

(** [_vector_spectra] adds the two cross-spectra and divides the sum by
    [vector_norm], of shape (T + 1, 1, 1), both with NumPy's
    broadcasting. *)
Lemma vector_spectra_broadcasts
  (st : state) (vector_1 : vector_field) (vector_2 : option vector_field)
  (r : ndarray R) :
  _vector_spectra getvrtdivspec st vector_1 vector_2 = Ok r ->
  exists a b s,
    rotational_spectrum st vector_1 vector_2 = Ok a
    /\ divergent_spectrum st vector_1 vector_2 = Ok b
    /\ broadcast_shapes (shape a) (shape b) = Some s
    /\ broadcast_shapes s [length (vector_norm st); 1%nat; 1%nat] = Some (shape r)
    /\ forall idx,
         elem r idx
         = (elem a (broadcast_index (shape a) (broadcast_index s idx))
            + elem b (broadcast_index (shape b) (broadcast_index s idx)))
           / nth (hd 0%nat (broadcast_index [length (vector_norm st); 1%nat; 1%nat] idx))
                 (vector_norm st) 0.
Proof.
  unfold _vector_spectra, rotational_spectrum, divergent_spectrum.
  destruct (getvrtdivspec vector_1) as [rot_a div_a]. cbn [fst snd].
  assert (Hgen : forall ra rb,
    (x <- (a <- ra ;; b <- rb ;; broadcast_with Rplus a b) ;;
     broadcast_with Rdiv x (norm_array (vector_norm st))) = Ok r ->
    exists a b s,
      ra = Ok a /\ rb = Ok b
      /\ broadcast_shapes (shape a) (shape b) = Some s
      /\ broadcast_shapes s [length (vector_norm st); 1%nat; 1%nat] = Some (shape r)
      /\ forall idx,
           elem r idx
           = (elem a (broadcast_index (shape a) (broadcast_index s idx))
              + elem b (broadcast_index (shape b) (broadcast_index s idx)))
             / nth (hd 0%nat (broadcast_index [length (vector_norm st); 1%nat; 1%nat] idx))
                   (vector_norm st) 0).
  { intros [a|e] [b|e']; cbn [bind]; try discriminate.
    unfold broadcast_with.
    destruct (broadcast_shapes (shape a) (shape b)) as [s|] eqn:Hs;
      cbn [bind shape elem norm_array]; [|discriminate].
    destruct (broadcast_shapes s _) as [s'|] eqn:Hs'; [|discriminate].
    intros [= <-]. exists a, b, s. cbn [shape elem].
    repeat split; try reflexivity; assumption. }
  destruct vector_2 as [v2|]; cbn [option_map].
  - destruct (getvrtdivspec v2) as [rot_b div_b]. cbn [fst snd]. apply Hgen.
  - apply Hgen.
Qed.

End Norm.

End AEBFacts.

(** ** Facts about src/seba.py *)

Module SebaFacts.
Import Tools Seba ListFacts.

Section Engine.
Open Scope R_scope.
Variable epsilon : R.
Variable earth_radius : R.
Variable integrate_order : list (list complex) -> nat -> list (list complex).
Variable grdtospec : list R -> list (list complex).
Variable getvrtdivspec : list R -> list R -> list (list complex) * list (list complex).
Variable spectral_gradient : list R -> list R * list R.
Variable finite_difference : list R -> list R -> list R.
Variable rotate_vector : mvector -> mvector.

(** *** Sums of spectra *)

Lemma zip_with_comm {X W : Type} (f : X -> X -> W) (a b : list X) :
  (forall x y, f x y = f y x) -> zip_with f a b = zip_with f b a.
Proof.
  intros Hf. unfold zip_with.
  revert b; induction a as [|x a IH]; intros [|y b]; simpl; try reflexivity.
  rewrite Hf, IH. reflexivity.
Qed.

Lemma zip_with_assoc {X : Type} (f : X -> X -> X) (a b c : list X) :
  (forall x y z, f (f x y) z = f x (f y z)) ->
  zip_with f (zip_with f a b) c = zip_with f a (zip_with f b c).
Proof.
  intros Hf. unfold zip_with.
  revert b c; induction a as [|x a IH]; intros [|y b] [|z c]; simpl; try reflexivity.
  rewrite Hf. f_equal. apply IH.
Qed.

Lemma spec_add_comm (a b : spectrum) : spec_add a b = spec_add b a.
Proof.
  apply zip_with_comm. intros x y. apply zip_with_comm. intros; lra.
Qed.

Lemma spec_add_assoc (a b c : spectrum) :
  spec_add (spec_add a b) c = spec_add a (spec_add b c).
Proof.
  apply zip_with_assoc. intros x y z. apply zip_with_assoc. intros; lra.
Qed.

(** C4: the three mechanisms are computed and exported one by one, and
    their sum, vertical + vorticity + Coriolis, is the total conversion
    [conversion_dke_rke], which is also the exported total [cdr]. *)
Theorem conversion_dke_rke_is_sum_of_mechanisms
  (st : state) (cdr_w cdr_v cdr_c : spectrum) :
  conversion_dke_rke_vertical integrate_order getvrtdivspec st = Ok cdr_w ->
  conversion_dke_rke_vorticity integrate_order getvrtdivspec rotate_vector st = Ok cdr_v ->
  conversion_dke_rke_coriolis integrate_order getvrtdivspec rotate_vector st = Ok cdr_c ->
  conversion_dke_rke integrate_order getvrtdivspec rotate_vector st
  = Ok (spec_add (spec_add cdr_w cdr_v) cdr_c)
  /\ nonlinear_energy_fluxes_cdr integrate_order getvrtdivspec rotate_vector st
     = Ok [("cdr_w", "conversion_dke_rke_vertical_velocity", cdr_w);
           ("cdr_v", "conversion_dke_rke_vorticity", cdr_v);
           ("cdr_c", "conversion_dke_rke_coriolis", cdr_c);
           ("cdr", "conversion_dke_rke",
            spec_add (spec_add cdr_w cdr_v) cdr_c)]%string.
Proof.
  intros Hw Hv Hc. split.
  - unfold conversion_dke_rke. rewrite Hv, Hc, Hw. cbn [bind]. f_equal.
    rewrite (spec_add_comm cdr_w cdr_v), !spec_add_assoc.
    f_equal. apply spec_add_comm.
  - unfold nonlinear_energy_fluxes_cdr. rewrite Hw, Hv, Hc. reflexivity.
Qed.

(** *** Mask-aware gradients *)

(** A field given by its values and the validity of its points: the masked
    array, its indicator [beta] and its zero-filled values [beta * phi]. *)
Lemma filled_masked (valid : list bool) (values : list R) :
  filled (zip_with (fun (ok : bool) v => if ok then Some v else None) valid values)
  = zip_with Rmult (map (fun ok : bool => if ok then 1 else 0) valid) values.
Proof.
  unfold filled, zip_with.
  revert values; induction valid as [|ok valid IH]; intros [|v values];
    cbn [map combine fst snd]; try reflexivity.
  rewrite IH. f_equal. destruct ok; lra.
Qed.

Lemma mask_indicator_masked (valid : list bool) (values : list R) :
  length valid = length values ->
  mask_indicator (zip_with (fun (ok : bool) v => if ok then Some v else None)
                           valid values)
  = map (fun ok : bool => if ok then 1 else 0) valid.
Proof.
  unfold mask_indicator, zip_with.
  revert values; induction valid as [|ok valid IH]; intros [|v values] Hlen;
    cbn [map combine fst snd length] in *; try reflexivity; try discriminate.
  rewrite IH by lia. destruct ok; reflexivity.
Qed.

Lemma is_masked_masked (valid : list bool) (values : list R) :
  length valid = length values ->
  is_masked (zip_with (fun (ok : bool) v => if ok then Some v else None) valid values)
  = negb (forallb (fun ok => ok) valid).
Proof.
  unfold is_masked, zip_with.
  revert values; induction valid as [|ok valid IH]; intros [|v values] Hlen;
    cbn [map combine fst snd length existsb forallb] in *;
    try reflexivity; try discriminate.
  rewrite IH by lia. destruct ok; reflexivity.
Qed.

Lemma filled_unmasked (a : list R) : filled (unmasked a) = a.
Proof.
  unfold filled, unmasked. rewrite map_map. apply map_id.
Qed.

Lemma all_valid_values (valid : list bool) (values : list R) :
  length valid = length values -> forallb (fun ok => ok) valid = true ->
  zip_with Rmult (map (fun ok : bool => if ok then 1 else 0) valid) values = values.
Proof.
  unfold zip_with.
  revert values; induction valid as [|ok valid IH]; intros [|v values] Hlen Hall;
    cbn [map combine fst snd length forallb] in *; try reflexivity; try discriminate.
  apply andb_true_iff in Hall as [Hok Hall]. subst ok.
  rewrite IH by (try assumption; lia). f_equal. lra.
Qed.

(** [grad - grad_beta * scalar] on the masked array: at a valid point
    [grad - (beta phi) grad_beta], masked elsewhere. *)
Lemma masked_difference (valid : list bool) (values grad grad_beta : list R) :
  msub grad
    (pmul grad_beta
       (zip_with (fun (ok : bool) v => if ok then Some v else None) valid values))
  = zip_with (fun (ok : bool) x => if ok then Some x else None) valid
      (zip_with Rminus grad
         (zip_with Rmult
            (zip_with Rmult (map (fun ok : bool => if ok then 1 else 0) valid) values)
            grad_beta)).
Proof.
  unfold msub, pmul, zip_with.
  revert values grad grad_beta.
  induction valid as [|ok valid IH]; intros [|v values] [|x grad] [|y grad_beta];
    cbn [map combine fst snd]; rewrite ?combine_nil; cbn [map combine fst snd];
    try reflexivity.
  rewrite IH. f_equal. destruct ok; cbn [option_map]; [f_equal; lra | reflexivity].
Qed.

(** C5: for a field [phi] given by its values and the validity [beta] of
    its points, both gradients return, at the valid points and masked
    elsewhere, [grad(beta phi) - (beta phi) grad(beta)], with [beta phi]
    the zero-filled field: the spectral gradient for the horizontal one,
    the finite difference along pressure for the vertical one.  A field
    without masked points gets the plain gradient. *)
Theorem masked_gradients_follow_identity
  (st : state) (valid : list bool) (values : list R) :
  length valid = length values ->
  let phi : marray :=
    zip_with (fun (ok : bool) v => if ok then Some v else None) valid values in
  let beta := map (fun ok : bool => if ok then 1 else 0) valid in
  let beta_phi := zip_with Rmult beta values in
  let identity := fun grad grad_beta : list R =>
    zip_with (fun (ok : bool) x => if ok then Some x else None) valid
      (zip_with Rminus grad (zip_with Rmult beta_phi grad_beta)) in
  horizontal_gradient spectral_gradient phi
  = (if forallb (fun ok => ok) valid
     then (map Some (fst (spectral_gradient values)),
           map Some (snd (spectral_gradient values)))
     else (identity (fst (spectral_gradient beta_phi)) (fst (spectral_gradient beta)),
           identity (snd (spectral_gradient beta_phi)) (snd (spectral_gradient beta))))
  /\ vertical_gradient finite_difference st phi
     = (if forallb (fun ok => ok) valid
        then map Some (finite_difference values (pressure st))
        else identity (finite_difference beta_phi (pressure st))
                      (finite_difference beta (pressure st))).
Proof.
  intros Hlen. cbv zeta.
  unfold horizontal_gradient, vertical_gradient, getgrad, gradient_1d.
  rewrite (is_masked_masked valid values Hlen).
  rewrite (mask_indicator_masked valid values Hlen).
  rewrite !filled_unmasked, !filled_masked.
  destruct (forallb (fun ok => ok) valid) eqn:Hall; cbn [negb].
  - rewrite (all_valid_values valid values Hlen Hall). split; reflexivity.
  - rewrite !masked_difference. split; reflexivity.
Qed.

(** *** The mode-coupling correction *)

(** The share of valid points at flattened sample-and-level position [q]:
    the area-weighted mean over the sphere of the indicator of the
    unmasked points. *)
Definition valid_fraction (st : state) (q : nat) : R :=
  rsum (map (fun j =>
               average (weights st)
                 (map (fun mrow =>
                         if nth q (nth j mrow []) true then 0 else 1)
                      (mask st)))
            (seq 0 (nlon st)))
  / INR (nlon st).

Lemma beta_fraction_is_valid_fraction (st : state) :
  mask_fields_initialised st ->
  forall q, (q < length (beta_fraction st))%nat ->
    nth q (beta_fraction st) 0 = valid_fraction st q.
Proof.
  intros [Hbeta Hmean] q Hq. unfold representative_mean in Hmean.
  destruct (negb (length (beta st) =? nlat st)%nat); [discriminate|].
  destruct (negb (AEB.sample_size (beta st) =? nlon st)%nat); [discriminate|].
  injection Hmean as Hmean. rewrite <- Hmean in Hq |- *.
  rewrite length_map, length_seq in Hq.
  set (h := fun q0 : nat => _ / INR (nlon st)).
  rewrite nth_indep with (d' := h 0%nat) by (rewrite length_map, length_seq; exact Hq).
  rewrite map_nth, seq_nth by exact Hq. unfold h. cbn [Nat.add].
  unfold valid_fraction. f_equal. f_equal. apply map_ext. intros j. f_equal.
  rewrite Hbeta. unfold init_beta. rewrite map_map. apply map_ext. intros mrow.
  set (f := fun m : bool => if m then 0 else 1).
  assert (Hrow : nth j (map (map f) mrow) [] = map f (nth j mrow []))
    by (apply (map_nth (map f) mrow [])).
  rewrite Hrow. apply (map_nth f (nth j mrow []) true).
Qed.

Definition coefficient_product (clm1 c2 : list (list complex)) : list (list complex) :=
  zip_with (zip_with (fun a b => Cmul a (Cconj b))) clm1 c2.

(** [cross_spectrum] returns its spectrum divided, position by position
    along the sample and level axes, by [beta_fraction]. *)
Lemma cross_spectrum_divides
  (st : state) (clm1 : list (list complex)) (clm2 : option (list (list complex)))
  (accumulate : bool) :
  match clm2 with Some c => AEB.same_shape c clm1 = true | None => True end ->
  let c2 := match clm2 with Some c => c | None => clm1 end in
  let raw :=
    map (map Cre)
        (if accumulate
         then accumulate_order integrate_order st (coefficient_product clm1 c2)
         else coefficient_product clm1 c2) in
  cross_spectrum integrate_order st clm1 clm2 accumulate
  = Ok (map (fun row => zip_with Rdiv row (beta_fraction st)) raw)
  /\ forall d q, (q < length (nth d raw []))%nat ->
       (q < length (beta_fraction st))%nat ->
       nth q (nth d (map (fun row => zip_with Rdiv row (beta_fraction st)) raw) []) 0
       = nth q (nth d raw []) 0 / nth q (beta_fraction st) 0.
Proof.
  intros Hshape c2 raw. split.
  - unfold cross_spectrum, raw, c2, coefficient_product.
    destruct clm2 as [c|]; [rewrite Hshape|]; cbn [bind]; rewrite map_map; reflexivity.
  - intros d q Hq Hb.
    set (h := fun row => zip_with Rdiv row (beta_fraction st)).
    assert (Hrow : nth d (map h raw) [] = h (nth d raw []))
      by (apply (map_nth h raw [])).
    rewrite Hrow. unfold h. apply nth_zip_with; assumption.
Qed.

(** C2 (as amended), the seba.py engine: every spectrum that
    [cross_spectrum] returns is the (accumulated) real cross-spectrum
    divided by [beta_fraction], the representative mean of the mask at
    each sample and level, that is the area-weighted share of valid
    points. *)
Theorem cross_spectrum_divided_by_beta_fraction
  (st : state) (clm1 : list (list complex)) (clm2 : option (list (list complex)))
  (accumulate : bool) :
  mask_fields_initialised st ->
  match clm2 with Some c => AEB.same_shape c clm1 = true | None => True end ->
  let c2 := match clm2 with Some c => c | None => clm1 end in
  let raw :=
    map (map Cre)
        (if accumulate
         then accumulate_order integrate_order st (coefficient_product clm1 c2)
         else coefficient_product clm1 c2) in
  exists spectrum,
    cross_spectrum integrate_order st clm1 clm2 accumulate = Ok spectrum
    /\ forall d q, (q < length (nth d raw []))%nat ->
         (q < length (beta_fraction st))%nat ->
         nth q (nth d spectrum []) 0
         = nth q (nth d raw []) 0 / valid_fraction st q.
Proof.
  intros Hinit Hshape c2 raw.
  destruct (@cross_spectrum_divides st clm1 clm2 accumulate Hshape) as [Hrun Hdiv].
  eexists. split; [exact Hrun|].
  intros d q Hq Hb. rewrite <- (beta_fraction_is_valid_fraction Hinit Hb).
  apply Hdiv; assumption.
Qed.

(** The scalar and vector spectra go through [cross_spectrum]. *)
Lemma scalar_spectra_divided (st : state) (scalar_1 : marray) :
  _scalar_spectra integrate_order grdtospec st scalar_1 None
  = Ok (map (fun row => zip_with Rdiv row (beta_fraction st))
            (map (map Cre)
               (accumulate_order integrate_order st
                  (coefficient_product (grdtospec (filled scalar_1))
                                       (grdtospec (filled scalar_1)))))).
Proof.
  unfold _scalar_spectra, _spectral_transform. cbn [bind].
  apply (@cross_spectrum_divides st _ None true I).
Qed.

(** *** The normalisation of the vector spectra *)







End Engine.

(** A one-column state: one grid point, one sample, one level, nothing
    masked, wavenumber-0 truncation. *)
Definition one_point : state :=
  {| nlat := 1; nlon := 1; samples := 1; nlevels := 1; truncation := 0;
     weights := [1%R]; pressure := [1%R]; norm := [[1%R]];
     mask := [[[false]]]; beta := [[[1%R]]];
     beta_fraction := [(rsum [average [1] [1]] / INR 1)%R];
     omega := [Some 2%R];
     wind := ([Some 1%R], [Some 1%R]);
     wind_shear := ([Some 1%R], [Some 1%R]);
     wind_div := ([Some 1%R], [Some 1%R]);
     wind_rot := ([Some 1%R], [Some 1%R]);
     fc := ([1%R], [1%R]); vrt := [Some 3%R] |}.

Definition one_mode (u v : list R) : list (list complex) * list (list complex) :=
  ([[(rsum u, 0%R)]], [[(0%R, rsum v)]]).

(** A one-column state with four different winds, nothing masked. *)
Definition two_winds : state :=
  {| nlat := 1; nlon := 1; samples := 1; nlevels := 1; truncation := 0;
     weights := [1%R]; pressure := [1%R]; norm := [[1%R]];
     mask := [[[false]]]; beta := [[[1%R]]];
     beta_fraction := [(rsum [average [1] [1]] / INR 1)%R];
     omega := [Some 2%R];
     wind := ([Some 4%R], [Some 7%R]);
     wind_shear := ([Some 7%R], [Some 11%R]);
     wind_div := ([Some 1%R], [Some 2%R]);
     wind_rot := ([Some 3%R], [Some 5%R]);
     fc := ([3%R], [3%R]); vrt := [Some 5%R] |}.

(** The quarter turn [(u, v) -> (-v, u)]. *)
Definition quarter_turn (v : mvector) : mvector :=
  (map (option_map Ropp) (snd v), fst v).

Ltac spectrum_value :=
  cbn; unfold rsum, average, zip_with, Cre, Cmul, Cconj; cbn;
  do 3 f_equal; field.

Lemma two_winds_vertical :
  conversion_dke_rke_vertical (fun c _ => c) one_mode two_winds = Ok [[(-152)%R]].
Proof.
  unfold conversion_dke_rke_vertical, _vector_spectra, cross_spectrum, _compute_rotdiv.
  spectrum_value.
Qed.

Lemma two_winds_vorticity :
  conversion_dke_rke_vorticity (fun c _ => c) one_mode quarter_turn two_winds
  = Ok [[5%R]].
Proof.
  unfold conversion_dke_rke_vorticity, _vector_spectra, cross_spectrum, _compute_rotdiv.
  spectrum_value.
Qed.

Lemma two_winds_coriolis :
  conversion_dke_rke_coriolis (fun c _ => c) one_mode quarter_turn two_winds
  = Ok [[3%R]].
Proof.
  unfold conversion_dke_rke_coriolis, _vector_spectra, cross_spectrum, _compute_rotdiv.
  spectrum_value.
Qed.

Lemma conversion_dke_rke_is_sum_of_mechanisms_witness :
  conversion_dke_rke_vertical (fun c _ => c) one_mode two_winds = Ok [[(-152)%R]]
  /\ conversion_dke_rke_vorticity (fun c _ => c) one_mode quarter_turn two_winds
     = Ok [[5%R]]
  /\ conversion_dke_rke_coriolis (fun c _ => c) one_mode quarter_turn two_winds
     = Ok [[3%R]]
  /\ conversion_dke_rke (fun c _ => c) one_mode quarter_turn two_winds
     = Ok (spec_add (spec_add [[(-152)%R]] [[5%R]]) [[3%R]])
  /\ nonlinear_energy_fluxes_cdr (fun c _ => c) one_mode quarter_turn two_winds
     = Ok [("cdr_w", "conversion_dke_rke_vertical_velocity", [[(-152)%R]]);
           ("cdr_v", "conversion_dke_rke_vorticity", [[5%R]]);
           ("cdr_c", "conversion_dke_rke_coriolis", [[3%R]]);
           ("cdr", "conversion_dke_rke",
            spec_add (spec_add [[(-152)%R]] [[5%R]]) [[3%R]])]%string.
Proof.
  split; [exact two_winds_vertical|].
  split; [exact two_winds_vorticity|].
  split; [exact two_winds_coriolis|].
  apply (@conversion_dke_rke_is_sum_of_mechanisms
           (fun c _ => c) one_mode quarter_turn two_winds
           [[(-152)%R]] [[5%R]] [[3%R]]
           two_winds_vertical two_winds_vorticity two_winds_coriolis).
Defined.

(** Two latitudes of equal weight, one longitude, one sample and level;
    the first latitude is below ground (masked). *)
Definition half_masked : state :=
  {| nlat := 2; nlon := 1; samples := 1; nlevels := 1; truncation := 0;
     weights := [1%R; 1%R]; pressure := [1%R]; norm := [[1%R]];
     mask := [[[true]]; [[false]]]; beta := [[[0%R]]; [[1%R]]];
     beta_fraction := [(rsum [average [1; 1] [0; 1]] / INR 1)%R];
     omega := [None; Some 2%R];
     wind := ([None; Some 1%R], [None; Some 1%R]);
     wind_shear := ([None; Some 1%R], [None; Some 1%R]);
     wind_div := ([None; Some 1%R], [None; Some 1%R]);
     wind_rot := ([None; Some 1%R], [None; Some 1%R]);
     fc := ([1%R; 1%R], [1%R; 1%R]); vrt := [None; Some 3%R] |}.

(** Three points round a ring, the middle one masked, and stand-ins for
    the two numerical routines that couple neighbouring points: the
    difference to the next point (and the sum with it), and that
    difference times the pressure. *)
Definition three_cells : state :=
  {| nlat := 1; nlon := 3; samples := 1; nlevels := 1; truncation := 0;
     weights := [1%R]; pressure := [1%R; 2%R; 3%R]; norm := [[1%R]];
     mask := [[[false]; [true]; [false]]]; beta := [[[1%R]; [0%R]; [1%R]]];
     beta_fraction := [(2 / 3)%R];
     omega := [Some 1%R; None; Some 3%R];
     wind := ([Some 1%R; None; Some 3%R], [Some 1%R; None; Some 3%R]);
     wind_shear := ([Some 1%R; None; Some 3%R], [Some 1%R; None; Some 3%R]);
     wind_div := ([Some 1%R; None; Some 3%R], [Some 1%R; None; Some 3%R]);
     wind_rot := ([Some 1%R; None; Some 3%R], [Some 1%R; None; Some 3%R]);
     fc := ([1%R; 1%R; 1%R], [1%R; 1%R; 1%R]);
     vrt := [Some 1%R; None; Some 3%R] |}.

Definition ring_gradient (l : list R) : list R * list R :=
  (zip_with Rminus (tl l ++ firstn 1 l) l, zip_with Rplus (tl l ++ firstn 1 l) l).

Definition ring_difference (l p : list R) : list R :=
  zip_with Rmult (zip_with Rminus (tl l ++ firstn 1 l) l) p.

Lemma masked_gradients_follow_identity_witness :
  let valid := [true; false; true] in
  let values := [1; 7; 3]%R in
  let phi : marray :=
    zip_with (fun (ok : bool) v => if ok then Some v else None) valid values in
  let beta := map (fun ok : bool => if ok then 1%R else 0%R) valid in
  let beta_phi := zip_with Rmult beta values in
  let identity := fun grad grad_beta : list R =>
    zip_with (fun (ok : bool) x => if ok then Some x else None) valid
      (zip_with Rminus grad (zip_with Rmult beta_phi grad_beta)) in
  horizontal_gradient ring_gradient phi
  = (identity (fst (ring_gradient beta_phi)) (fst (ring_gradient beta)),
     identity (snd (ring_gradient beta_phi)) (snd (ring_gradient beta)))
  /\ vertical_gradient ring_difference three_cells phi
     = identity (ring_difference beta_phi [1; 2; 3]%R)
                (ring_difference beta [1; 2; 3]%R).
Proof.
  apply (@masked_gradients_follow_identity ring_gradient ring_difference
           three_cells [true; false; true] [1; 7; 3]%R).
  reflexivity.
Defined.

(** There the value hidden under the mask plays no part, and the step of
    the mask is taken off the gradient of the zero-filled field. *)
Lemma masked_gradient_of_three_cells :
  fst (horizontal_gradient ring_gradient [Some 1; None; Some 3]%R)
  = [Some 0; None; Some (-2)]%R
  /\ fst (ring_gradient [1; 0; 3]%R) = [(0 - 1); (3 - 0); (1 - 3)]%R.
Proof.
  split; [|reflexivity].
  unfold horizontal_gradient, getgrad, ring_gradient, msub, pmul, zip_with. cbn.
  repeat (f_equal; try lra).
Qed.

(** Half of the sphere is valid there. *)
Lemma half_masked_fraction : valid_fraction half_masked 0 = (1 / 2)%R.
Proof.
  unfold valid_fraction, average, rsum, zip_with. cbn. field.
Qed.

Lemma cross_spectrum_divided_by_beta_fraction_witness :
  let raw := map (map Cre)
               (accumulate_order (fun c _ => c) half_masked
                  (coefficient_product [[(3, 4)%R]] [[(3, 4)%R]])) in
  exists spectrum,
    cross_spectrum (fun c _ => c) half_masked [[(3, 4)%R]] None true = Ok spectrum
    /\ forall d q, q < length (nth d raw []) ->
         q < length (beta_fraction half_masked) ->
         nth q (nth d spectrum []) 0%R
         = (nth q (nth d raw []) 0 / valid_fraction half_masked q)%R.
Proof.
  apply (@cross_spectrum_divided_by_beta_fraction
           (fun c _ => c) half_masked [[(3, 4)%R]] None true);
    [split; reflexivity | exact I].
Defined.

End SebaFacts.

(** ** The two engines side by side *)

Module Engines.
Import Tools.
Open Scope R_scope.

(** Stand-ins for the transforms at truncation 1: three coefficients,
    (m, n) = (0, 0), (0, 1), (1, 1), at two times and two levels. *)
Definition rot_modes : AEB.coeffs :=
  {| AEB.sample_shape := [2%nat; 2%nat];
     AEB.coefficients := [[(1, 2); (3, 4); (0, 1); (2, 2)];
                          [(0, 1); (2, 0); (1, 1); (0, 3)];
                          [(1, 1); (5, 6); (2, 0); (1, 0)]] |}.

Definition div_modes : AEB.coeffs :=
  {| AEB.sample_shape := [2%nat; 2%nat];
     AEB.coefficients := [[(2, 1); (1, 1); (1, 0); (0, 2)];
                          [(3, 0); (0, 2); (2, 1); (1, 1)];
                          [(1, -1); (2, 2); (0, 1); (3, 0)]] |}.

Definition aeb_modes (north : bool) : AEB.coeffs * AEB.coeffs :=
  if north then (rot_modes, div_modes) else (div_modes, rot_modes).

Definition wind_modes (u v : list R)
  : list (list complex) * list (list complex) :=
  ([map (fun x => (x, 0)) u; map (fun x => (0, x)) v; map (fun x => (x, x)) u],
   [map (fun x => (x, 0)) v; map (fun x => (0, x)) u; map (fun x => (x, - x)) v]).

(** Binning at truncation 1: degree 0 is the first coefficient, degree 1
    the second plus twice the third. *)
Definition bin_three (cs_lm : list (list complex)) (n : nat)
  : list (list complex) :=
  match cs_lm with
  | [c00; c10; c11] =>
      [c00; zip_with (fun x y => (fst x + 2 * fst y, snd x + 2 * snd y)) c10 c11]
  | _ => firstn n cs_lm
  end.

(** One grid point, two times and two levels, the second level half
    valid in the books of the engine. *)
Definition four_samples : Seba.state :=
  {| Seba.nlat := 1%nat; Seba.nlon := 1%nat; Seba.samples := 2%nat;
     Seba.nlevels := 2%nat; Seba.truncation := 1%nat;
     Seba.weights := [1]; Seba.pressure := [2; 1];
     Seba.norm := Seba.init_norm (/ 1000000) 6371200 1 2 2;
     Seba.mask := [[[false; false; false; false]]];
     Seba.beta := [[[1; 1; 1; 1]]];
     Seba.beta_fraction := [1; 1 / 2; 1; 1 / 2];
     Seba.omega := [Some 2; Some 1; Some 3; Some 1];
     Seba.wind := ([Some 4; Some 7; Some 1; Some 2], [Some 7; Some 1; Some 2; Some 5]);
     Seba.wind_shear := ([Some 7; Some 11; Some 1; Some 2], [Some 1; Some 3; Some 2; Some 5]);
     Seba.wind_div := ([Some 1; Some 2; Some 3; Some 4], [Some 1; Some 2; Some 3; Some 4]);
     Seba.wind_rot := ([Some 3; Some 5; Some 7; Some 9], [Some 3; Some 5; Some 7; Some 9]);
     Seba.fc := ([3; 3; 3; 3], [3; 3; 3; 3]);
     Seba.vrt := [Some 5; Some 1; Some 2; Some 3] |}.


Definition empty_array : ndarray R := {| shape := []; elem := fun _ => 0 |}.

(** The vector spectrum of the stand-in coefficients in
    AtmosphericEnergyBudget.py, truncation 1. *)
Definition aeb_vector_spectrum : ndarray R :=
  match AEB._vector_spectra aeb_modes
          (AEB.init_state 6371200 4 8 1 [2; 1] 1 [1; 1; 1; 1] [])
          true (Some false) with
  | Ok r => r
  | Raise _ => empty_array
  end.

(** The vector spectrum of the wind of [four_samples] in seba.py. *)
Definition seba_vector_spectrum : Seba.spectrum :=
  match Seba._vector_spectra bin_three wind_modes four_samples
          (Seba.wind four_samples) None with
  | Ok r => r
  | Raise _ => []
  end.



Lemma aeb_vector_spectrum_shape :
  shape aeb_vector_spectrum = [2%nat; 2%nat; 2%nat]
  /\ length seba_vector_spectrum = 2%nat
  /\ map (@length R) seba_vector_spectrum = [4%nat; 4%nat].
Proof. repeat split. Qed.



(** C2, counterexample: the spectrum that
    AtmosphericEnergyBudget.cross_spectrum returns does not depend on the
    mask: with every point valid (mean of beta 1) and with half of the
    points below ground (mean of beta 1/2) it is the same array, whose
    entry of degree 1 at the first sample is 5/2, not 5/2 over 1/2. *)
Lemma aeb_cross_spectrum_ignores_beta :
  let open := AEB.init_state 6371200 2 1 1 [1] 1 [1; 1] [[[1]]; [[1]]] in
  let half := AEB.init_state 6371200 2 1 1 [1] 1 [1; 1] [[[0]]; [[1]]] in
  AEB.global_average open (AEB.beta open) = Ok [1]
  /\ AEB.global_average half (AEB.beta half) = Ok [1 / 2]
  /\ AEB.cross_spectrum open AEBFacts.three_modes None None "power"
     = AEB.cross_spectrum half AEBFacts.three_modes None None "power"
  /\ match AEB.cross_spectrum half AEBFacts.three_modes None None "power" with
     | Ok spectrum =>
         shape spectrum = [2%nat; 2%nat]
         /\ elem spectrum [1%nat; 0%nat] = 5 / 2
     | Raise _ => False
     end
  /\ 5 / 2 <> 5 / 2 / (1 / 2).
Proof.
  cbv zeta. repeat split.
  - unfold AEB.global_average. cbn. unfold AEB.average, rsum, zip_with. cbn.
    do 2 f_equal. field.
  - unfold AEB.global_average. cbn. unfold AEB.average, rsum, zip_with. cbn.
    do 2 f_equal. field.
  - unfold AEB.cross_spectrum, AEB.spectrum_rows.
    change (String.eqb (Tools.lower "power"%string) "energy"%string) with false.
    cbn. unfold rsum. cbn. lra.
  - lra.
Qed.

(** C1, counterexample: [cross_spectrum] of seba.py has no [convention]
    and, called with [accumulate=False], returns one row for each of the
    three coefficients, the squared moduli over [beta_fraction]: nothing
    is doubled, binned by degree or halved.  On the same coefficients
    AtmosphericEnergyBudget.cross_spectrum returns the two degrees 0 and
    1, the second with the coefficient of order 1 doubled. *)
Lemma seba_cross_spectrum_without_binning :
  Seba.cross_spectrum bin_three four_samples (AEB.coefficients rot_modes) None false
  = Ok [[5 / 1; 25 / (1 / 2); 1 / 1; 8 / (1 / 2)];
        [1 / 1; 4 / (1 / 2); 2 / 1; 9 / (1 / 2)];
        [2 / 1; 61 / (1 / 2); 4 / 1; 1 / (1 / 2)]]
  /\ Seba.truncation four_samples = 1%nat
  /\ match AEB.cross_spectrum (AEB.init_state 6371200 4 8 1 [2; 1] 1 [1; 1; 1; 1] [])
             rot_modes None None "power" with
     | Ok spectrum =>
         shape spectrum = [2%nat; 2%nat; 2%nat]
         /\ elem spectrum [0%nat; 0%nat; 0%nat] = 5 / 2
         /\ elem spectrum [1%nat; 0%nat; 0%nat] = (1 + 2 * 2) / 2
     | Raise _ => False
     end.
Proof.
  split; [|split; [reflexivity|]].
  - unfold Seba.cross_spectrum. cbn. unfold Cre, Cmul, Cconj. cbn.
    repeat (f_equal; try (unfold Rdiv; f_equal; ring)).
  - unfold AEB.cross_spectrum, AEB.spectrum_rows.
    change (String.eqb (Tools.lower "power"%string) "energy"%string) with false.
    cbn. unfold rsum. cbn. repeat split; lra.
Qed.

End Engines.


(** ** Facts about the chunks, grids and intersections of tools.py *)

(** *** Chunks and workers *)

Module ChunkFacts.
Import Tools AEB ListFacts ToolsFacts ToolsNumerics.
Local Open Scope Z_scope.

(** The chunk size is the quotient of the number of items by
    [n_workers * factor], rounded up. *)
Theorem get_chunk_size_is_ceiling (n_workers len_iterable factor : Z) :
  0 < n_workers * factor ->
  exists c, get_chunk_size n_workers len_iterable factor = Ok c
    /\ (c - 1) * (n_workers * factor) < len_iterable <= c * (n_workers * factor).
Proof.
  intros Hd. unfold get_chunk_size.
  set (d := n_workers * factor) in *.
  destruct (d =? 0) eqn:E0; [apply Z.eqb_eq in E0; lia|].
  pose proof (Z.div_mod len_iterable d ltac:(lia)) as Hdm.
  pose proof (Z.mod_pos_bound len_iterable d Hd) as Hb.
  destruct (len_iterable mod d =? 0) eqn:Em.
  - apply Z.eqb_eq in Em. eexists; split; [reflexivity|]. nia.
  - apply Z.eqb_neq in Em. eexists; split; [reflexivity|]. nia.
Qed.

Lemma get_chunk_size_is_ceiling_witness :
  exists c, get_chunk_size 4 10 4 = Ok c /\ (c - 1) * (4 * 4) < 10 <= c * (4 * 4).
Proof. apply (@get_chunk_size_is_ceiling 4 10 4). lia. Defined.

(** The worker count that [__init__] settles on is at least 1 and at most
    the number of packed samples, and never above what was asked for
    (the CPU count by default). *)
Theorem init_jobs_within_bounds
  (fuel : nat) (cpu_count : Z) (jobs : option Z) (packed_size : Z) :
  1 <= cpu_count -> 1 <= packed_size ->
  match jobs with Some j => 1 <= j | None => True end ->
  (Z.to_nat packed_size <= fuel)%nat ->
  exists r,
    init_jobs fuel cpu_count jobs packed_size = Some (Ok r)
    /\ 1 <= r <= packed_size
    /\ r <= match jobs with Some j => j | None => cpu_count end.
Proof.
  intros Hcpu Hp Hj Hfuel. unfold init_jobs.
  set (requested := match jobs with
                    | None => Z.min cpu_count packed_size
                    | Some j => Z.min j packed_size
                    end).
  assert (Hr : 1 <= requested <= packed_size
               /\ requested <= match jobs with Some j => j | None => cpu_count end).
  { unfold requested. destruct jobs as [j|]; lia. }
  destruct (@number_chunks_loop_spec fuel packed_size requested ltac:(lia) ltac:(lia))
    as (d & Hrun & Hd & _).
  unfold number_chunks. rewrite Hrun.
  eexists. split; [reflexivity|].
  destruct (d =? 1); lia.
Qed.

Lemma init_jobs_within_bounds_witness :
  exists r,
    init_jobs 12 8 None 12 = Some (Ok r)
    /\ 1 <= r <= 12
    /\ r <= 8.
Proof.
  apply (@init_jobs_within_bounds 12%nat 8 None 12); try lia; exact I.
Defined.

Lemma number_chunks_loop_diverges (fuel : nat) (sample_size jobs : Z) :
  1 <= sample_size -> jobs < - sample_size ->
  number_chunks_loop fuel sample_size jobs = None.
Proof.
  revert jobs. induction fuel as [|fuel IH]; intros jobs Hs Hj; [reflexivity|].
  cbn [number_chunks_loop].
  destruct (Z.eqb_spec jobs 0); [lia|].
  assert (Hm : sample_size mod jobs = sample_size + jobs).
  { symmetry. apply Z.mod_unique with (q := -1); [right; lia | lia]. }
  destruct (Z.eqb_spec (sample_size mod jobs) 0) as [E|_]; [lia|].
  apply IH; lia.
Qed.

(** Outside the positive worker counts: with 0 workers the first
    remainder raises [ZeroDivisionError]; with a negative count below
    [- sample_size] no count the loop reaches divides the sample size, and
    the loop never ends. *)
Theorem number_chunks_without_positive_workers
  (fuel : nat) (sample_size workers : Z) :
  (1 <= fuel)%nat -> 1 <= sample_size -> workers < - sample_size ->
  number_chunks fuel sample_size 0 = Some (Raise ZeroDivisionError)
  /\ number_chunks fuel sample_size workers = None.
Proof.
  intros Hf Hs Hw. split.
  - destruct fuel as [|fuel]; [lia|]. reflexivity.
  - unfold number_chunks. rewrite number_chunks_loop_diverges by assumption.
    reflexivity.
Qed.

Lemma number_chunks_without_positive_workers_witness :
  number_chunks 5 3 0 = Some (Raise ZeroDivisionError)
  /\ number_chunks 5 3 (-4) = None.
Proof.
  apply (@number_chunks_without_positive_workers 5%nat 3 (-4)); lia.
Defined.

End ChunkFacts.

(** *** The triangular truncation *)

Module TriangleFacts.
Import Tools ListFacts.

Lemma filter_flat_map {X Y : Type} (f : Y -> bool) (g : X -> list Y) (l : list X) :
  filter f (flat_map g l) = flat_map (fun x => filter f (g x)) l.
Proof.
  induction l as [|x l IH]; [reflexivity|].
  cbn [flat_map]. rewrite filter_app, IH. reflexivity.
Qed.

Lemma filter_map_swap {X Y : Type} (f : Y -> bool) (g : X -> Y) (l : list X) :
  filter f (map g l) = map g (filter (fun x => f (g x)) l).
Proof.
  induction l as [|x l IH]; [reflexivity|].
  cbn [map filter]. destruct (f (g x)); rewrite IH; reflexivity.
Qed.

Lemma filter_seq_from (m a len : nat) :
  filter (fun n => m <=? n) (seq a len)
  = seq (Nat.max a m) (a + len - Nat.max a m).
Proof.
  revert a. induction len as [|len IH]; intros a.
  - cbn [seq filter]. replace (a + 0 - Nat.max a m) with 0 by lia. reflexivity.
  - cbn [seq filter]. rewrite IH.
    destruct (Nat.leb_spec m a) as [H|H].
    + replace (Nat.max a m) with a by lia.
      replace (Nat.max (S a) m) with (S a) by lia.
      replace (a + S len - a) with (S len) by lia.
      replace (S a + len - S a) with len by lia. reflexivity.
    + replace (Nat.max (S a) m) with (Nat.max a m) by lia.
      f_equal. lia.
Qed.

Lemma combine_fst_snd {X Y : Type} (l : list (X * Y)) :
  combine (map fst l) (map snd l) = l.
Proof.
  induction l as [|[x y] l IH]; [reflexivity|]. cbn. rewrite IH. reflexivity.
Qed.

Definition triangle (T : nat) : list (nat * nat) :=
  flat_map (fun m => map (pair m) (seq m (T + 1 - m))) (seq 0 (T + 1)).

Lemma getspecindx_kept (T : nat) :
  combine (fst (getspecindx T)) (snd (getspecindx T)) = triangle T.
Proof.
  unfold getspecindx, triangle. cbn [fst snd]. rewrite combine_fst_snd.
  rewrite filter_flat_map. apply flat_map_ext. intros m.
  rewrite filter_map_swap. cbn [fst snd]. f_equal.
  rewrite (filter_ext _ (fun n => m <=? n)).
  - rewrite filter_seq_from. f_equal; lia.
  - intros n. destruct (Nat.leb_spec m n) as [H|H].
    + apply Z.ltb_lt. lia.
    + apply Z.ltb_ge. lia.
Qed.

Lemma in_triangle (T m n : nat) : In (m, n) (triangle T) <-> m <= n <= T.
Proof.
  unfold triangle. rewrite in_flat_map. split.
  - intros (m' & Hm & Hin). apply in_map_iff in Hin as (n' & E & Hn).
    inversion E; subst. apply in_seq in Hm. apply in_seq in Hn. lia.
  - intros H. exists m. split; [apply in_seq; lia|].
    apply in_map_iff. exists n. split; [reflexivity|apply in_seq; lia].
Qed.

Lemma NoDup_rows (T : nat) (l : list nat) :
  NoDup l -> NoDup (flat_map (fun m => map (pair m) (seq m (T + 1 - m))) l).
Proof.
  induction 1 as [|m l Hnot Hnd IH]; [constructor|].
  cbn [flat_map]. apply NoDup_app.
  - generalize (seq_NoDup (T + 1 - m) m). generalize (seq m (T + 1 - m)).
    induction 1 as [|n0 l0 Hn0 _ IH0]; [constructor|].
    cbn [map]. constructor; [|exact IH0].
    intros Hin. apply in_map_iff in Hin as (n1 & E & Hn1).
    inversion E; subst. contradiction.
  - exact IH.
  - intros [m' n'] Hin Hin'. apply in_map_iff in Hin as (n0 & E & _).
    inversion E; subst. apply in_flat_map in Hin' as (m0 & Hm0 & Hin').
    apply in_map_iff in Hin' as (n1 & E1 & _). inversion E1; subst.
    contradiction.
Qed.

Lemma length_rows (T k : nat) :
  k <= T + 1 ->
  2 * length (flat_map (fun m => map (pair m) (seq m (T + 1 - m))) (seq (T + 1 - k) k))
  = k * (k + 1).
Proof.
  induction k as [|k IH]; intros Hk; [reflexivity|].
  cbn [seq flat_map]. rewrite length_app, length_map, length_seq.
  replace (S (T + 1 - S k)) with (T + 1 - k) by lia.
  specialize (IH ltac:(lia)). lia.
Qed.

(** [getspecindx] lists the pairs (order, degree) of the triangular
    truncation by order, the degrees of every order ascending: each pair
    with [m <= n <= T] once, [(T + 1) (T + 2) / 2] pairs in all. *)
Theorem getspecindx_triangle (T : nat) :
  let ms := fst (getspecindx T) in
  let ls := snd (getspecindx T) in
  combine ms ls
    = flat_map (fun m => map (pair m) (seq m (T + 1 - m))) (seq 0 (T + 1))
  /\ length ms = length ls
  /\ 2 * length ms = (T + 1) * (T + 2)
  /\ NoDup (combine ms ls)
  /\ (forall m n, In (m, n) (combine ms ls) <-> m <= n <= T).
Proof.
  intros ms ls.
  assert (Hlen : length ms = length ls).
  { unfold ms, ls, getspecindx. cbn [fst snd]. rewrite !length_map. reflexivity. }
  pose proof (getspecindx_kept T) as Hk. fold ms ls in Hk.
  split; [exact Hk|]. split; [exact Hlen|]. split.
  - assert (Hc : length (combine ms ls) = length ms)
      by (rewrite length_combine; lia).
    rewrite <- Hc, Hk. unfold triangle.
    pose proof (@length_rows T (T + 1) ltac:(lia)) as H.
    replace (T + 1 - (T + 1)) with 0 in H by lia. lia.
  - rewrite Hk. split.
    + apply NoDup_rows, seq_NoDup.
    + intros m n. apply in_triangle.
Qed.

End TriangleFacts.

(** *** Cumulative fluxes *)

Module FluxFacts.
Import Tools ListFacts ToolsNumerics.
Open Scope R_scope.

Lemma skipn_as_map_seq {X : Type} (s : list X) (d : X) (l : nat) :
  skipn l s = map (fun k => nth k s d) (seq l (length s - l)).
Proof.
  rewrite (list_as_map_seq s d) at 1.
  rewrite skipn_map, skipn_seq. reflexivity.
Qed.

Lemma nth_cumulative_flux (spectra : list (list R)) (l j : nat) :
  (l < length spectra)%nat ->
  (j < match spectra with [] => 0 | row :: _ => length row end)%nat ->
  nth j (nth l (cumulative_flux spectra) []) 0
  = if (l <? 2)%nat then 0
    else rsum (map (fun k => nth j (nth k spectra []) 0)
                   (seq l (length spectra - l))).
Proof.
  intros Hl Hj. unfold cumulative_flux.
  set (nsamp := match spectra with [] => 0%nat | row :: _ => length row end) in *.
  set (h := fun ln : nat => if (ln <? 2)%nat then repeat 0 nsamp
         else map (fun j => rsum (map (fun row => nth j row 0) (skipn ln spectra)))
                  (seq 0 nsamp)).
  assert (Hrow : nth l (map h (seq 0 (length spectra))) [] = h l).
  { rewrite nth_indep with (d' := h 0%nat) by (rewrite length_map, length_seq; exact Hl).
    rewrite map_nth, seq_nth by exact Hl. reflexivity. }
  rewrite Hrow. unfold h. destruct (l <? 2)%nat.
  - apply nth_repeat.
  - set (f := fun j0 : nat => rsum (map (fun row => nth j0 row 0) (skipn l spectra))).
    rewrite nth_indep with (d' := f 0%nat) by (rewrite length_map, length_seq; exact Hj).
    rewrite map_nth, seq_nth by exact Hj. unfold f.
    rewrite (skipn_as_map_seq spectra [] l), map_map. reflexivity.
Qed.

(** The cumulative flux has the shape of the spectra; at the degrees 0 and
    1 it is zero, and from degree 2 on it is the sum of the spectra over
    all degrees from [l] up, so that each row is the spectrum of its degree
    added to the next row. *)
Theorem cumulative_flux_accumulates (spectra : list (list R)) (l j : nat) :
  (l < length spectra)%nat ->
  (j < length (nth 0 spectra []))%nat ->
  length (cumulative_flux spectra) = length spectra
  /\ length (nth l (cumulative_flux spectra) []) = length (nth 0 spectra [])
  /\ nth j (nth l (cumulative_flux spectra) []) 0
     = (if (l <? 2)%nat then 0
        else rsum (map (fun k => nth j (nth k spectra []) 0)
                       (seq l (length spectra - l))))
  /\ ((2 <= l)%nat -> (S l < length spectra)%nat ->
      nth j (nth l (cumulative_flux spectra) []) 0
      = nth j (nth l spectra []) 0
        + nth j (nth (S l) (cumulative_flux spectra) []) 0).
Proof.
  intros Hl Hj.
  assert (Hns : length (nth 0 spectra [])
                = match spectra with [] => 0%nat | row :: _ => length row end)
    by (destruct spectra; reflexivity).
  rewrite Hns in Hj |- *.
  split; [unfold cumulative_flux; rewrite length_map, length_seq; reflexivity|].
  split.
  { unfold cumulative_flux.
    set (nsamp := match spectra with [] => 0%nat | row :: _ => length row end).
    set (h := fun ln : nat => if (ln <? 2)%nat then repeat 0 nsamp
         else map (fun j => rsum (map (fun row => nth j row 0) (skipn ln spectra)))
                  (seq 0 nsamp)).
    rewrite nth_indep with (d' := h 0%nat) by (rewrite length_map, length_seq; exact Hl).
    rewrite map_nth, seq_nth by exact Hl. unfold h. cbn [Nat.add].
    destruct (l <? 2)%nat; [apply repeat_length|].
    rewrite length_map, length_seq. reflexivity. }
  split; [apply nth_cumulative_flux; assumption|].
  intros H2 HS.
  rewrite !nth_cumulative_flux by assumption.
  destruct (Nat.ltb_spec l 2) as [?|_]; [lia|].
  destruct (Nat.ltb_spec (S l) 2) as [?|_]; [lia|].
  replace (length spectra - l)%nat with (S (length spectra - S l)) by lia.
  reflexivity.
Qed.

Lemma cumulative_flux_accumulates_witness :
  let spectra := [[1]; [2]; [3]; [4]] in
  length (cumulative_flux spectra) = length spectra
  /\ length (nth 2 (cumulative_flux spectra) []) = length (nth 0 spectra [])
  /\ nth 0 (nth 2 (cumulative_flux spectra) []) 0
     = (if (2 <? 2)%nat then 0
        else rsum (map (fun k => nth 0 (nth k spectra []) 0)
                       (seq 2 (length spectra - 2))))
  /\ ((2 <= 2)%nat -> (3 < length spectra)%nat ->
      nth 0 (nth 2 (cumulative_flux spectra) []) 0
      = nth 0 (nth 2 spectra []) 0
        + nth 0 (nth 3 (cumulative_flux spectra) []) 0).
Proof.
  apply (@cumulative_flux_accumulates [[1]; [2]; [3]; [4]] 2 0); simpl; lia.
Defined.

End FluxFacts.

(** *** Regular grids *)

Module GridFacts.
Import Tools ListFacts Np ToolsNumerics.
Open Scope R_scope.

Lemma nth_linspace (start stop : R) (num i : nat) :
  (i < num)%nat ->
  nth i (linspace start stop num) 0
  = start + INR i * ((stop - start) / INR (num - 1)).
Proof.
  intros Hi. unfold linspace.
  set (h := fun i0 : nat => start + INR i0 * ((stop - start) / INR (num - 1))).
  rewrite nth_indep with (d' := h 0%nat) by (rewrite length_map, length_seq; exact Hi).
  rewrite map_nth, seq_nth by exact Hi. reflexivity.
Qed.

Lemma length_linspace (start stop : R) (num : nat) :
  length (linspace start stop num) = num.
Proof. unfold linspace. rewrite length_map, length_seq. reflexivity. Qed.

Lemma even_succ_mod (k : nat) : ((2 * k + 1) mod 2 = 1)%nat.
Proof.
  rewrite Nat.add_comm, Nat.mul_comm, Nat.Div0.mod_add. reflexivity.
Qed.

Lemma odd_succ_mod (k : nat) : ((2 * k + 1 + 1) mod 2 = 0)%nat.
Proof.
  replace (2 * k + 1 + 1)%nat with (0 + (k + 1) * 2)%nat by lia.
  rewrite Nat.Div0.mod_add. reflexivity.
Qed.

(** The latitudes in closed form. *)
Lemma regular_lats_closed (nlat i : nat) :
  (i < nlat)%nat ->
  nth i (linspace (90 - INR ((nlat + 1) mod 2) * (90 / INR nlat))
                  (- (90 - INR ((nlat + 1) mod 2) * (90 / INR nlat))) nlat) 0
  = if Nat.even nlat then 90 - (2 * INR i + 1) * (90 / INR nlat)
    else if (nlat =? 1)%nat then 90
    else 90 - INR i * (180 / INR (nlat - 1)).
Proof.
  intros Hi. rewrite nth_linspace by exact Hi.
  destruct (Nat.Even_or_Odd nlat) as [[k ->]|[k ->]].
  - assert (He : Nat.even (2 * k) = true) by (apply Nat.even_spec; exists k; reflexivity).
    rewrite He, even_succ_mod.
    assert (Hk : (1 <= k)%nat) by lia.
    rewrite minus_INR by lia. rewrite mult_INR. cbn [INR].
    assert (Hk0 : INR k <> 0) by (apply not_0_INR; lia).
    assert (Hk1 : (1 + 1) * INR k - 1 <> 0).
    { assert (1 <= INR k) by (change 1 with (INR 1); apply le_INR; lia). lra. }
    field. split; assumption.
  - assert (He : Nat.even (2 * k + 1) = false).
    { rewrite Nat.add_1_r, Nat.even_succ. apply Bool.not_true_iff_false.
      intros Ho. apply Nat.odd_spec in Ho. destruct Ho as [m Hm]. lia. }
    rewrite He, odd_succ_mod. cbn [INR].
    destruct (Nat.eqb_spec (2 * k + 1) 1) as [E|E].
    + assert (i = 0)%nat as -> by lia. cbn [INR]. lra.
    + replace (2 * k + 1 - 1)%nat with (2 * k)%nat by lia.
      assert (Hk0 : INR (2 * k) <> 0) by (apply not_0_INR; lia).
      field. split; [exact Hk0 | apply not_0_INR; lia].
Qed.

Lemma ns_latitude_bounds (nlat : nat) :
  (1 <= nlat)%nat ->
  0 <= 90 - INR ((nlat + 1) mod 2) * (90 / INR nlat) <= 90
  /\ ((2 <= nlat)%nat -> 45 <= 90 - INR ((nlat + 1) mod 2) * (90 / INR nlat)).
Proof.
  intros Hn.
  assert (Hpos : 0 < INR nlat) by (apply lt_0_INR; lia).
  assert (H1 : 1 <= INR nlat) by (change 1 with (INR 1); apply le_INR; lia).
  assert (Hq : 0 < 90 / INR nlat <= 90).
  { split.
    - apply Rdiv_lt_0_compat; lra.
    - apply Rmult_le_reg_r with (r := INR nlat); [exact Hpos|].
      unfold Rdiv. rewrite Rmult_assoc, Rinv_l by lra. nra. }
  assert (Hm : ((nlat + 1) mod 2 = 0 \/ (nlat + 1) mod 2 = 1)%nat).
  { pose proof (Nat.mod_upper_bound (nlat + 1) 2 ltac:(lia)). lia. }
  destruct Hm as [-> | ->]; cbn [INR].
  - split; [lra|]. intros _. lra.
  - split; [lra|]. intros H2.
    assert (H2r : 2 <= INR nlat) by (change 2 with (INR 2); apply le_INR; lia).
    assert (90 / INR nlat <= 45).
    { apply Rmult_le_reg_r with (r := INR nlat); [exact Hpos|].
      unfold Rdiv. rewrite Rmult_assoc, Rinv_l by lra. nra. }
    lra.
Qed.

(** A sample of [linspace(ns, -ns, n)] is [ns * (1 - 2 i / (n - 1))]. *)
Lemma linspace_symmetric_range (ns : R) (n i : nat) :
  (i < n)%nat -> 0 <= ns ->
  - ns <= nth i (linspace ns (- ns) n) 0 <= ns.
Proof.
  intros Hi Hns. rewrite nth_linspace by exact Hi.
  destruct (Nat.eq_dec n 1) as [->|Hn1].
  - assert (i = 0)%nat as -> by lia. cbn [INR]. lra.
  - assert (Hd : 0 < INR (n - 1)) by (apply lt_0_INR; lia).
    assert (Hi' : 0 <= INR i <= INR (n - 1)).
    { split; [apply pos_INR | apply le_INR; lia]. }
    set (t := INR i / INR (n - 1)).
    assert (Ht : 0 <= t <= 1).
    { unfold t. split.
      - apply Rmult_le_pos; [lra|]. left. apply Rinv_0_lt_compat. exact Hd.
      - apply Rmult_le_reg_r with (r := INR (n - 1)); [exact Hd|].
        unfold Rdiv. rewrite Rmult_assoc, Rinv_l by lra. lra. }
    replace (ns + INR i * ((- ns - ns) / INR (n - 1)))
      with (ns * (1 - 2 * t)) by (unfold t; field; lra).
    nra.
Qed.

Lemma linspace_antisymmetric (ns : R) (n i : nat) :
  (2 <= n)%nat -> (i < n)%nat ->
  nth (n - 1 - i) (linspace ns (- ns) n) 0 = - nth i (linspace ns (- ns) n) 0.
Proof.
  intros Hn Hi. rewrite !nth_linspace by lia.
  assert (Hd : INR (n - 1) <> 0) by (apply not_0_INR; lia).
  replace (n - 1 - i)%nat with ((n - 1) - i)%nat by lia.
  rewrite (minus_INR (n - 1) i) by lia.
  field. exact Hd.
Qed.

Lemma nth_map_cos (lats : list R) (i : nat) :
  (i < length lats)%nat ->
  nth i (map (fun x => cos (x * (PI / 180))) lats) 0 = cos (nth i lats 0 * (PI / 180)).
Proof.
  intros Hi.
  rewrite nth_indep with (d' := cos (0 * (PI / 180))) by (rewrite length_map; exact Hi).
  apply (map_nth (fun x => cos (x * (PI / 180)))).
Qed.

(** The grid of [regular_lats_wts]: for an even [nlat] the cell centres
    [90 - (2 i + 1) * 90 / nlat], 180/nlat degrees apart and without the
    poles; for an odd [nlat >= 3] the points [90 - i * 180 / (nlat - 1)],
    poles and equator included; the single point of [nlat = 1] is the
    north pole.  The weights are the cosines of the latitudes. *)
Theorem regular_lats_wts_latitudes (nlat i : nat) :
  (i < nlat)%nat ->
  exists lats wts,
    regular_lats_wts nlat = Ok (lats, wts)
    /\ length lats = nlat /\ length wts = nlat
    /\ nth i lats 0
       = (if Nat.even nlat then 90 - (2 * INR i + 1) * (90 / INR nlat)
          else if (nlat =? 1)%nat then 90
          else 90 - INR i * (180 / INR (nlat - 1)))
    /\ nth i wts 0 = cos (nth i lats 0 * (PI / 180)).
Proof.
  intros Hi. unfold regular_lats_wts.
  destruct (Nat.eqb_spec nlat 0) as [E|E]; [lia|].
  eexists. eexists. split; [reflexivity|].
  split; [apply length_linspace|].
  split; [rewrite length_map; apply length_linspace|].
  split; [apply regular_lats_closed; exact Hi|].
  apply nth_map_cos. rewrite length_linspace. exact Hi.
Qed.

Lemma regular_lats_wts_latitudes_witness :
  exists lats wts,
    regular_lats_wts 4 = Ok (lats, wts)
    /\ length lats = 4%nat /\ length wts = 4%nat
    /\ nth 1 lats 0
       = (if Nat.even 4 then 90 - (2 * INR 1 + 1) * (90 / INR 4)
          else if (4 =? 1)%nat then 90
          else 90 - INR 1 * (180 / INR (4 - 1)))
    /\ nth 1 wts 0 = cos (nth 1 lats 0 * (PI / 180)).
Proof. apply (@regular_lats_wts_latitudes 4 1). lia. Defined.

(** With at least two points the grid is symmetric about the equator: the
    latitudes mirror each other, the weights are equal in pairs, and every
    weight lies in [0, 1]. *)
Theorem regular_lats_wts_symmetric (nlat i : nat) :
  (2 <= nlat)%nat -> (i < nlat)%nat ->
  exists lats wts,
    regular_lats_wts nlat = Ok (lats, wts)
    /\ nth (nlat - 1 - i) lats 0 = - nth i lats 0
    /\ nth (nlat - 1 - i) wts 0 = nth i wts 0
    /\ -90 <= nth i lats 0 <= 90
    /\ 0 <= nth i wts 0 <= 1.
Proof.
  intros Hn Hi. unfold regular_lats_wts.
  destruct (Nat.eqb_spec nlat 0) as [E|E]; [lia|].
  set (ns := 90 - INR ((nlat + 1) mod 2) * (90 / INR nlat)).
  destruct (@ns_latitude_bounds nlat ltac:(lia)) as [Hns _]. fold ns in Hns.
  eexists. eexists. split; [reflexivity|].
  pose proof (@linspace_antisymmetric ns nlat i Hn Hi) as Hanti.
  pose proof (@linspace_symmetric_range ns nlat i Hi ltac:(lra)) as Hrange.
  split; [exact Hanti|].
  rewrite !nth_map_cos by (rewrite length_linspace; lia).
  split; [rewrite Hanti, <- Ropp_mult_distr_l; apply cos_neg|].
  split; [lra|].
  split; [|apply COS_bound].
  assert (Hpi : 0 < PI) by apply PI_RGT_0.
  apply cos_ge_0; nra.
Qed.

Lemma regular_lats_wts_symmetric_witness :
  exists lats wts,
    regular_lats_wts 5 = Ok (lats, wts)
    /\ nth (5 - 1 - 1) lats 0 = - nth 1 lats 0
    /\ nth (5 - 1 - 1) wts 0 = nth 1 wts 0
    /\ -90 <= nth 1 lats 0 <= 90
    /\ 0 <= nth 1 wts 0 <= 1.
Proof. apply (@regular_lats_wts_symmetric 5 1); lia. Defined.

Lemma np_diff_cons (x y : R) (l : list R) :
  np_diff (x :: y :: l) = (y - x) :: np_diff (y :: l).
Proof. reflexivity. Qed.

Lemma in_np_diff (l : list R) (d : R) :
  In d (np_diff l) ->
  exists i, (S i < length l)%nat /\ d = nth (S i) l 0 - nth i l 0.
Proof.
  induction l as [|x [|y l] IH]; [intros [] | intros [] |].
  rewrite np_diff_cons. intros [<-|H].
  - exists 0%nat. split; [simpl; lia | reflexivity].
  - destruct (IH H) as (i & Hi & ->). exists (S i). split; [simpl in *; lia | reflexivity].
Qed.

Lemma np_diff_length (l : list R) : length (np_diff l) = (length l - 1)%nat.
Proof.
  unfold np_diff. rewrite zip_with_length. destruct l; simpl; lia.
Qed.

(** A list whose consecutive samples all differ by [s] passes the
    equal-spacing test. *)
Lemma equally_spaced_constant_step (l : list R) (s : R) :
  (forall i, (S i < length l)%nat -> nth (S i) l 0 - nth i l 0 = s) ->
  forall d0, In d0 (map Rabs (np_diff l)) ->
  forallb (fun d => Rltb (Rabs (d - d0)) 5e-8) (map Rabs (np_diff l)) = true.
Proof.
  intros Hstep d0 Hd0.
  assert (Hall : forall d, In d (map Rabs (np_diff l)) -> d = Rabs s).
  { intros d Hd. apply in_map_iff in Hd as (e & <- & He).
    apply in_np_diff in He as (i & Hi & ->). rewrite (Hstep i Hi). reflexivity. }
  apply forallb_forall. intros d Hd.
  rewrite (Hall d Hd), (Hall d0 Hd0).
  unfold Rltb. destruct (Rlt_dec _ _) as [_|Hn]; [reflexivity|].
  exfalso. apply Hn. rewrite Rminus_diag, Rabs_R0. lra.
Qed.

Lemma allclose_refl (l : list R) : allclose l l 5e-8 = true.
Proof.
  unfold allclose. apply forallb_forall. intros [a b] Hin.
  assert (a = b) as ->.
  { clear -Hin. induction l as [|x l IH]; [destruct Hin|].
    destruct Hin as [E|Hin]; [inversion E; reflexivity | apply IH; exact Hin]. }
  cbn [fst snd]. unfold Rleb. destruct (Rle_dec _ _) as [_|Hn]; [reflexivity|].
  exfalso. apply Hn. rewrite Rminus_diag, Rabs_R0.
  pose proof (Rabs_pos b). lra.
Qed.

Lemma allclose_head_far (a b : list R) (x y atol : R) :
  nth 0 a 0 = x -> nth 0 b 0 = y ->
  (1 <= length a)%nat -> (1 <= length b)%nat ->
  ~ Rabs (x - y) <= atol + 1e-5 * Rabs y ->
  allclose a b atol = false.
Proof.
  intros Ha Hb Hla Hlb Hfar.
  destruct a as [|a0 a]; [simpl in Hla; lia|].
  destruct b as [|b0 b]; [simpl in Hlb; lia|].
  simpl in Ha, Hb. subst a0 b0. unfold allclose. cbn [combine forallb fst snd].
  unfold Rleb. destruct (Rle_dec _ _) as [Hle|_]; [contradiction | reflexivity].
Qed.

Lemma linspace_step (start stop : R) (n i : nat) :
  (S i < n)%nat ->
  nth (S i) (linspace start stop n) 0 - nth i (linspace start stop n) 0
  = (stop - start) / INR (n - 1).
Proof.
  intros Hi. rewrite !nth_linspace by lia. rewrite S_INR. ring.
Qed.

Section Infer.
Variable gaqd : nat -> list R * list R * Z.

(** The grid that [regular_lats_wts] builds is recognised as regular, with
    itself as the reference; listed south to north, the same grid is
    refused. *)
Theorem infer_gridtype_regular (nlat : nat) :
  (2 <= nlat)%nat ->
  exists lats wts,
    regular_lats_wts nlat = Ok (lats, wts)
    /\ infer_gridtype gaqd lats = Return ("regular"%string, lats, wts)
    /\ infer_gridtype gaqd (rev lats)
       = Throw (Checked (ValueError "Invalid equally-spaced latitudes (they may be non-global)")).
Proof.
  intros Hn.
  destruct (regular_lats_wts nlat) as [[lats wts]|e] eqn:Hreg;
    [|unfold regular_lats_wts in Hreg;
      destruct (Nat.eqb_spec nlat 0); [lia | discriminate]].
  exists lats, wts. split; [reflexivity|].
  pose proof Hreg as Hreg'.
  unfold regular_lats_wts in Hreg.
  destruct (Nat.eqb_spec nlat 0) as [E|E]; [lia|].
  set (ns := 90 - INR ((nlat + 1) mod 2) * (90 / INR nlat)) in Hreg.
  injection Hreg as Hl Hw.
  assert (Hlen : length lats = nlat) by (rewrite <- Hl; apply length_linspace).
  assert (Hstep : forall i, (S i < length lats)%nat ->
                  nth (S i) lats 0 - nth i lats 0 = (- ns - ns) / INR (nlat - 1)).
  { intros i Hi. rewrite <- Hl. apply linspace_step. lia. }
  destruct (@ns_latitude_bounds nlat ltac:(lia)) as [Hns0 Hns45].
  specialize (Hns45 Hn). fold ns in Hns0, Hns45.
  split.
  - unfold infer_gridtype.
    destruct (map Rabs (np_diff lats)) as [|d0 ds] eqn:Hd.
    + apply (f_equal (@length R)) in Hd.
      rewrite length_map, np_diff_length in Hd. simpl in Hd. lia.
    + rewrite <- Hd.
      rewrite (equally_spaced_constant_step lats Hstep d0)
        by (rewrite Hd; left; reflexivity).
      rewrite Hlen, Hreg', allclose_refl. reflexivity.
  - assert (Hrlen : length (rev lats) = nlat) by (rewrite length_rev; exact Hlen).
    assert (Hrstep : forall i, (S i < length (rev lats))%nat ->
                     nth (S i) (rev lats) 0 - nth i (rev lats) 0
                     = - ((- ns - ns) / INR (nlat - 1))).
    { intros i Hi. rewrite Hrlen in Hi.
      rewrite !rev_nth by lia. rewrite Hlen.
      replace (nlat - S i)%nat with (S (nlat - S (S i))) by lia.
      rewrite <- (Hstep (nlat - S (S i))%nat) by lia. ring. }
    unfold infer_gridtype.
    destruct (map Rabs (np_diff (rev lats))) as [|d0 ds] eqn:Hd.
    + apply (f_equal (@length R)) in Hd.
      rewrite length_map, np_diff_length in Hd. simpl in Hd. lia.
    + rewrite <- Hd.
      rewrite (equally_spaced_constant_step (rev lats) Hrstep d0)
        by (rewrite Hd; left; reflexivity).
      rewrite Hrlen, Hreg'.
      assert (Hfar : allclose (rev lats) lats 5e-8 = false).
      { assert (H0 : nth 0 lats 0 = ns).
        { rewrite <- Hl, nth_linspace by lia. cbn [INR]. ring. }
        assert (Hlast : nth 0 (rev lats) 0 = - ns).
        { rewrite rev_nth by lia. rewrite Hlen.
          replace (nlat - 1)%nat with (nlat - 1 - 0)%nat by lia.
          rewrite <- Hl, linspace_antisymmetric by lia.
          rewrite nth_linspace by lia. cbn [INR]. ring. }
        apply (allclose_head_far (rev lats) lats Hlast H0); try lia.
        replace (- ns - ns) with (- (2 * ns)) by ring.
        rewrite Rabs_Ropp.
        rewrite (Rabs_pos_eq (2 * ns)) by lra.
        rewrite (Rabs_pos_eq ns) by lra. lra. }
      rewrite Hfar. reflexivity.
Qed.

End Infer.

Lemma infer_gridtype_regular_witness :
  exists lats wts,
    regular_lats_wts 4 = Ok (lats, wts)
    /\ infer_gridtype (fun _ => ([], [], 0%Z)) lats = Return ("regular"%string, lats, wts)
    /\ infer_gridtype (fun _ => ([], [], 0%Z)) (rev lats)
       = Throw (Checked (ValueError "Invalid equally-spaced latitudes (they may be non-global)")).
Proof. apply (@infer_gridtype_regular (fun _ => ([], [], 0%Z)) 4). lia. Defined.

End GridFacts.

(** *** The terrain mask *)

Module TerrainFacts.
Import Tools ListFacts ToolsFacts.
Open Scope R_scope.

(** Number of entries of [l] below [v]. *)
Definition count_below (v : R) (l : list R) : nat :=
  length (filter (fun q => if Rlt_dec q v then true else false) l).

Lemma count_below_insert (v x : R) (l : list R) :
  count_below v (insert_sorted x l) = count_below v (x :: l).
Proof.
  unfold count_below. induction l as [|y l IH]; [reflexivity|].
  cbn [insert_sorted]. destruct (Rle_dec x y); [reflexivity|].
  cbn [filter] in *. destruct (Rlt_dec y v); destruct (Rlt_dec x v);
    cbn [length] in *; rewrite IH; reflexivity.
Qed.

Lemma count_below_sort (v : R) (l : list R) :
  count_below v (np_sort l) = count_below v l.
Proof.
  induction l as [|x l IH]; [reflexivity|].
  cbn [np_sort fold_right]. fold (np_sort l).
  rewrite count_below_insert. unfold count_below in *. cbn [filter].
  destruct (Rlt_dec x v); cbn [length]; rewrite IH; reflexivity.
Qed.

Definition ascending (l : list R) : Prop :=
  forall i j, (i < j < length l)%nat -> nth i l 0 <= nth j l 0.

Lemma ascending_tail (x : R) (l : list R) : ascending (x :: l) -> ascending l.
Proof.
  intros H i j Hij. apply (H (S i) (S j)). simpl. lia.
Qed.

Lemma ascending_head (x : R) (l : list R) :
  ascending (x :: l) -> forall y, In y l -> x <= y.
Proof.
  intros H y Hy. destruct (In_nth l y 0 Hy) as (k & Hk & <-).
  apply (H 0%nat (S k)). simpl. lia.
Qed.

Lemma insert_sorted_ascending (x : R) (l : list R) :
  ascending l -> ascending (insert_sorted x l).
Proof.
  induction l as [|y l IH]; intros Hl.
  - intros i j Hij. simpl in Hij. lia.
  - cbn [insert_sorted]. destruct (Rle_dec x y) as [Hxy|Hxy].
    + intros i j Hij. destruct i as [|i].
      * destruct j as [|j]; [lia|]. cbn [nth].
        destruct j as [|j]; [exact Hxy|].
        apply Rle_trans with (r2 := y); [exact Hxy|].
        apply (ascending_head Hl). apply nth_In. simpl in Hij. lia.
      * destruct j as [|j]; [lia|]. cbn [nth]. apply Hl. simpl in Hij |- *. lia.
    + pose proof (IH (ascending_tail Hl)) as Hins.
      intros i j Hij. destruct i as [|i].
      * destruct j as [|j]; [lia|]. cbn [nth].
        assert (Hin : In (nth j (insert_sorted x l) 0) (insert_sorted x l)).
        { apply nth_In. simpl in Hij. lia. }
        apply insert_sorted_In in Hin as [->|Hin]; [lra|].
        apply (ascending_head Hl). exact Hin.
      * destruct j as [|j]; [lia|]. cbn [nth]. apply Hins. simpl in Hij. lia.
Qed.

Lemma np_sort_ascending (l : list R) : ascending (np_sort l).
Proof.
  induction l as [|x l IH].
  - intros i j Hij. simpl in Hij. lia.
  - cbn [np_sort fold_right]. apply insert_sorted_ascending. exact IH.
Qed.

(** On a sorted array [searchsorted] counts the entries below [v]. *)
Lemma searchsorted_count (a : list R) (v : R) :
  ascending a -> searchsorted a v = count_below v a.
Proof.
  unfold count_below. induction a as [|x a IH]; intros Ha; [reflexivity|].
  cbn [searchsorted filter]. destruct (Rlt_dec x v) as [Hx|Hx].
  - cbn [length]. f_equal. apply IH. apply (ascending_tail Ha).
  - assert (Hnone : filter (fun q => if Rlt_dec q v then true else false) a = []).
    { pose proof (ascending_head Ha) as Hf. clear -Hf Hx.
      induction a as [|y l IH]; [reflexivity|].
      cbn [filter]. destruct (Rlt_dec y v) as [Hy|_].
      - specialize (Hf y (or_introl eq_refl)). lra.
      - apply IH. intros z Hz. apply Hf. right. exact Hz. }
    rewrite Hnone. reflexivity.
Qed.

(** For a strictly decreasing profile, the levels at or above pressure [v]
    are the first [length p - count_below v p]. *)
Lemma decreasing_levels (p : list R) (v : R) (k : nat) :
  (forall a b, (a < b < length p)%nat -> nth b p 0 < nth a p 0) ->
  (k < length p)%nat ->
  (length p - count_below v p <= k)%nat <-> nth k p 0 < v.
Proof.
  revert k. induction p as [|x p IH]; intros k Hdec Hk; [simpl in Hk; lia|].
  assert (Hdec' : forall a b, (a < b < length p)%nat -> nth b p 0 < nth a p 0).
  { intros a b Hab. apply (Hdec (S a) (S b)). simpl. lia. }
  assert (Hle : (count_below v p <= length p)%nat) by apply filter_length_le.
  unfold count_below in *. cbn [filter length].
  destruct (Rlt_dec x v) as [Hx|Hx]; cbn [length].
  - assert (Hall : filter (fun q => if Rlt_dec q v then true else false) p = p).
    { apply forallb_filter_id.
      apply forallb_forall. intros y Hy.
      destruct (In_nth p y 0 Hy) as (m & Hm & <-).
      pose proof (Hdec 0%nat (S m) ltac:(simpl; lia)) as H. cbn [nth] in H.
      destruct (Rlt_dec _ _); [reflexivity | lra]. }
    rewrite Hall. split; [intros _|intros _; lia].
    destruct k as [|k]; [exact Hx|]. cbn [nth].
    pose proof (Hdec 0%nat (S k) ltac:(simpl in *; lia)) as H. cbn [nth] in H. lra.
  - destruct k as [|k].
    + cbn [nth]. split; [intros H; lia | intros H; lra].
    + cbn [nth]. rewrite <- (IH k Hdec' ltac:(simpl in Hk; lia)). lia.
Qed.

Lemma nth_map_in {X Y : Type} (f : X -> Y) (l : list X) (i : nat) (d : Y) (d' : X) :
  (i < length l)%nat -> nth i (map f l) d = f (nth i l d').
Proof.
  intros Hi. rewrite nth_indep with (d' := f d') by (rewrite length_map; exact Hi).
  apply map_nth.
Qed.

Lemma clip_unit_range (x : R) : 0 <= clip 0 1 x <= 1.
Proof.
  unfold clip. split.
  - apply Rmin_glb; [apply Rmax_r | lra].
  - apply Rmin_r.
Qed.

Section TerrainMaskLevels.
Variable lowpass_lanczos : list (list (list R)) -> list (list (list R)).

(** With the pressure profile strictly decreasing (surface first), the
    unsmoothed mask is 0 exactly on the levels whose pressure is at least
    the surface pressure of the column, and 1 on the levels above. *)
Theorem terrain_mask_masks_levels_below_surface
  (p : list R) (ps : list (list R)) (i j k : nat) :
  (forall a b, (a < b < length p)%nat -> nth b p 0 < nth a p 0) ->
  (i < length ps)%nat -> (j < length (nth i ps []))%nat -> (k < length p)%nat ->
  nth k (nth j (nth i (terrain_mask lowpass_lanczos p ps false) []) []) 0
  = if Rle_dec (nth j (nth i ps []) 0) (nth k p 0) then 0 else 1.
Proof.
  intros Hdec Hi Hj Hk. unfold terrain_mask.
  rewrite !map_map.
  rewrite (@nth_map_in _ _ _ ps i [] []) by exact Hi.
  rewrite !map_map.
  rewrite (@nth_map_in _ _ _ (nth i ps []) j [] 0) by exact Hj.
  rewrite map_map.
  rewrite (@nth_map_in _ _ _ (seq 0 (length p)) k 0 0%nat)
    by (rewrite length_seq; exact Hk).
  rewrite seq_nth by exact Hk. cbn [Nat.add].
  set (v := nth j (nth i ps []) 0).
  rewrite (@searchsorted_count (np_sort p) v (np_sort_ascending p)), count_below_sort.
  pose proof (@decreasing_levels p v k Hdec Hk) as Hlev.
  destruct (Nat.leb_spec (length p - count_below v p) k) as [Hm|Hm].
  - apply Hlev in Hm. destruct (Rle_dec v (nth k p 0)) as [Hle|_]; [lra|].
    apply clip_1.
  - destruct (Rle_dec v (nth k p 0)) as [_|Hn]; [apply clip_0|].
    exfalso. assert (Hlt : nth k p 0 < v) by lra. apply Hlev in Hlt. lia.
Qed.

(** Whatever the smoothing filter returns, every entry of the mask lies
    between 0 and 1. *)
Theorem terrain_mask_in_unit_interval
  (p : list R) (ps : list (list R)) (smooth : bool) :
  Forall (Forall (Forall (fun b => 0 <= b <= 1)))
         (terrain_mask lowpass_lanczos p ps smooth).
Proof.
  unfold terrain_mask.
  apply Forall_map, Forall_forall. intros plane _.
  apply Forall_map, Forall_forall. intros column _.
  apply Forall_map, Forall_forall. intros b _.
  apply clip_unit_range.
Qed.

End TerrainMaskLevels.

Lemma terrain_mask_masks_levels_below_surface_witness :
  nth 1 (nth 0 (nth 0 (terrain_mask (fun b => b) [3; 2; 1] [[5 / 2]] false) []) []) 0
  = if Rle_dec (nth 0 (nth 0 [[5 / 2]] []) 0) (nth 1 [3; 2; 1] 0) then 0 else 1.
Proof.
  apply (@terrain_mask_masks_levels_below_surface (fun b => b) [3; 2; 1] [[5 / 2]] 0 0 1);
    try (simpl; lia).
  intros a b H. destruct a as [|[|[|a]]], b as [|[|[|b]]]; simpl in *; try lia; lra.
Defined.

End TerrainFacts.

(** *** Intersections of two lines *)

Module IntersectionFacts.
Import Tools ListFacts ToolsFacts Np ToolsNumerics.
Open Scope R_scope.
Import AEB AEBFacts GridFacts.

Lemma nth_np_diff (l : list R) (i : nat) :
  (S i < length l)%nat -> nth i (np_diff l) 0 = nth (S i) l 0 - nth i l 0.
Proof.
  intros Hi. unfold np_diff.
  rewrite (@nth_zip_with _ _ _ Rminus (tl l) l i 0 0 0).
  - destruct l; [simpl in Hi; lia | reflexivity].
  - destruct l; simpl in *; lia.
  - lia.
Qed.

Lemma np_nonzero_spec (a : list R) (k : nat) :
  In k (np_nonzero a) <-> (k < length a)%nat /\ nth k a 0 <> 0.
Proof.
  unfold np_nonzero. rewrite np_where_spec, length_map. split.
  - intros [Hk Hn]. split; [exact Hk|].
    rewrite nth_map_mask in Hn by exact Hk.
    apply negb_true_iff, Reqb_false in Hn. exact Hn.
  - intros [Hk Hn]. split; [exact Hk|].
    rewrite nth_map_mask by exact Hk.
    apply negb_true_iff, Reqb_false. exact Hn.
Qed.

Lemma nth_fancy (x : list R) (idx : list nat) (k : nat) :
  (k < length idx)%nat -> nth k (fancy x idx) 0 = nth (nth k idx 0%nat) x 0.
Proof.
  intros Hk. unfold fancy.
  rewrite nth_indep with (d' := nth 0%nat x 0) by (rewrite length_map; exact Hk).
  apply (map_nth (fun j => nth j x 0)).
Qed.

Lemma nth_next (idx : list nat) (k : nat) :
  (k < length idx)%nat ->
  nth k (map (fun j => (j + 1)%nat) idx) 0%nat = S (nth k idx 0%nat).
Proof.
  intros Hk.
  rewrite nth_indep with (d' := (0 + 1)%nat) by (rewrite length_map; exact Hk).
  rewrite (map_nth (fun j => (j + 1)%nat)). lia.
Qed.

(** Where the sign of [a - b] changes between two samples. *)
Lemma nearest_intersection_idx_spec (a b : list R) (i : nat) :
  length b = length a ->
  In i (nearest_intersection_idx a b)
  <-> (S i < length a)%nat
      /\ np_sign (nth (S i) a 0 - nth (S i) b 0) <> np_sign (nth i a 0 - nth i b 0).
Proof.
  intros Hb. unfold nearest_intersection_idx.
  rewrite np_nonzero_spec, np_diff_length, length_map, zip_with_length, Hb, Nat.min_id.
  assert (Hs : forall j, (j < length a)%nat ->
            nth j (map np_sign (zip_with Rminus a b)) 0
            = np_sign (nth j a 0 - nth j b 0)).
  { intros j Hj.
    rewrite nth_indep with (d' := np_sign 0)
      by (rewrite length_map, zip_with_length, Hb, Nat.min_id; exact Hj).
    rewrite map_nth. f_equal. apply nth_zip_with; lia. }
  split.
  - intros [Hi Hn]. split; [lia|].
    rewrite nth_np_diff in Hn
      by (rewrite length_map, zip_with_length, Hb, Nat.min_id; lia).
    rewrite !Hs in Hn by lia. lra.
  - intros [Hi Hn]. split; [lia|].
    rewrite nth_np_diff
      by (rewrite length_map, zip_with_length, Hb, Nat.min_id; lia).
    rewrite !Hs by lia. lra.
Qed.

(** Two values of different sign differ, and the first one's share of
    their difference lies between 0 and 1. *)
Lemma sign_change_fraction (d0 d1 : R) :
  np_sign d1 <> np_sign d0 ->
  d1 - d0 <> 0 /\ 0 <= - d0 / (d1 - d0) <= 1.
Proof.
  unfold np_sign. intros Hs.
  assert (Hcases : (0 < d0 /\ d1 <= 0) \/ (d0 < 0 /\ 0 <= d1) \/ (d0 = 0 /\ d1 <> 0)).
  { destruct (Rlt_dec 0 d0), (Rlt_dec d0 0), (Rlt_dec 0 d1), (Rlt_dec d1 0);
      try lra; try (exfalso; apply Hs; reflexivity). }
  assert (Hd : d1 - d0 <> 0) by lra.
  split; [exact Hd|].
  destruct Hcases as [[H0 H1]|[[H0 H1]|[H0 H1]]].
  - assert (Hneg : d1 - d0 < 0) by lra.
    replace (- d0 / (d1 - d0)) with (d0 / (d0 - d1)) by (field; lra).
    assert (Hp : 0 < d0 - d1) by lra.
    split.
    + apply Rmult_le_pos; [lra|]. left. apply Rinv_0_lt_compat. exact Hp.
    + apply Rmult_le_reg_r with (r := d0 - d1); [exact Hp|].
      unfold Rdiv. rewrite Rmult_assoc, Rinv_l by lra. lra.
  - assert (Hp : 0 < d1 - d0) by lra.
    split.
    + apply Rmult_le_pos; [lra|]. left. apply Rinv_0_lt_compat. exact Hp.
    + apply Rmult_le_reg_r with (r := d1 - d0); [exact Hp|].
      unfold Rdiv. rewrite Rmult_assoc, Rinv_l by lra. lra.
  - subst d0. replace (- 0 / (d1 - 0)) with 0 by (field; lra). lra.
Qed.

Ltac lens :=
  unfold fancy; rewrite ?zip_with_length, ?length_map, ?Nat.min_id; lia.

(** Every point that [find_intersections] reports for [direction='all']
    belongs to a pair of consecutive samples between which the sign of
    [a - b] changes; its abscissa lies between the two sample abscissas,
    and its ordinate is on the segment of line [a] and on the segment of
    line [b]: it is where the two polylines cross. *)
Theorem find_intersections_on_both_lines (x a b : list R) (k : nat) :
  length a = length x -> length b = length x ->
  (k < length (nearest_intersection_idx a b))%nat ->
  exists ix iy,
    find_intersections x a b "all" = Ok (ix, iy)
    /\ length ix = length (nearest_intersection_idx a b)
    /\ length iy = length (nearest_intersection_idx a b)
    /\ let i := nth k (nearest_intersection_idx a b) 0%nat in
       let x0 := nth i x 0 in let x1 := nth (S i) x 0 in
       let a0 := nth i a 0 in let a1 := nth (S i) a 0 in
       let b0 := nth i b 0 in let b1 := nth (S i) b 0 in
       (S i < length x)%nat
       /\ np_sign (a1 - b1) <> np_sign (a0 - b0)
       /\ Rmin x0 x1 <= nth k ix 0 <= Rmax x0 x1
       /\ (x1 <> x0 ->
           nth k iy 0 = a0 + (nth k ix 0 - x0) / (x1 - x0) * (a1 - a0)
           /\ nth k iy 0 = b0 + (nth k ix 0 - x0) / (x1 - x0) * (b1 - b0)).
Proof.
  intros Ha Hb Hk. unfold find_intersections. cbn [String.eqb Ascii.eqb Bool.eqb].
  set (idx := nearest_intersection_idx a b) in *.
  set (nxt := map (fun j => (j + 1)%nat) idx).
  eexists. eexists. split; [reflexivity|].
  assert (Hln : length nxt = length idx) by (unfold nxt; apply length_map).
  split; [unfold fancy; fold nxt; rewrite ?zip_with_length, ?length_map, ?Hln, ?Nat.min_id; lia|].
  split; [unfold fancy; fold nxt; rewrite ?zip_with_length, ?length_map, ?Hln, ?Nat.min_id; lia|].
  set (i := nth k idx 0%nat).
  set (x0 := nth i x 0). set (x1 := nth (S i) x 0).
  set (a0 := nth i a 0). set (a1 := nth (S i) a 0).
  set (b0 := nth i b 0). set (b1 := nth (S i) b 0).
  assert (Hin : In i idx) by (apply nth_In; exact Hk).
  apply nearest_intersection_idx_spec in Hin; [|congruence].
  destruct Hin as [Hi Hsign]. fold a0 a1 b0 b1 in Hsign.
  split; [lia|]. split; [exact Hsign|].
  destruct (@sign_change_fraction (a0 - b0) (a1 - b1) Hsign) as [Hd Ht].
  set (t := - (a0 - b0) / (a1 - b1 - (a0 - b0))) in *.
  (* the entries of the intermediate arrays at position k *)
  assert (Hf : forall y, nth k (fancy y idx) 0 = nth i y 0)
    by (intros y; apply nth_fancy; exact Hk).
  assert (Hg : forall y, nth k (fancy y nxt) 0 = nth (S i) y 0).
  { intros y. rewrite nth_fancy by lia. unfold nxt. rewrite nth_next by exact Hk.
    reflexivity. }
  assert (Hz : forall (f : R -> R -> R) l1 l2,
             length l1 = length idx -> length l2 = length idx ->
             nth k (zip_with f l1 l2) 0 = f (nth k l1 0) (nth k l2 0)).
  { intros f l1 l2 H1 H2. apply nth_zip_with; lia. }
  assert (Hlf : forall y, length (fancy y idx) = length idx) by (intros; apply length_map).
  assert (Hlg : forall y, length (fancy y nxt) = length idx)
    by (intros; unfold fancy; rewrite length_map; exact Hln).
  assert (Hlz : forall (f : R -> R -> R) l1 l2,
             length l1 = length idx -> length l2 = length idx ->
             length (zip_with f l1 l2) = length idx).
  { intros f l1 l2 H1 H2. rewrite zip_with_length, H1, H2. apply Nat.min_id. }
  fold nxt.
  set (IX := zip_with Rdiv
        (zip_with Rminus
           (zip_with Rmult (zip_with Rminus (fancy a nxt) (fancy b nxt)) (fancy x idx))
           (zip_with Rmult (zip_with Rminus (fancy a idx) (fancy b idx)) (fancy x nxt)))
        (zip_with Rminus (zip_with Rminus (fancy a nxt) (fancy b nxt))
           (zip_with Rminus (fancy a idx) (fancy b idx)))).
  assert (HlX : length IX = length idx)
    by (unfold IX; repeat first [apply Hlz | apply Hlf | apply Hlg]).
  assert (Hix : nth k IX 0 = x0 + t * (x1 - x0)).
  { unfold IX. rewrite !Hz by (repeat first [apply Hlz | apply Hlf | apply Hlg]).
    rewrite !Hf, !Hg. fold x0 x1 a0 a1 b0 b1. unfold t. field. exact Hd. }
  rewrite Hix.
  split.
  - unfold Rmin, Rmax. destruct (Rle_dec x0 x1); nra.
  - intros Hx.
    rewrite !Hz by (repeat first [exact HlX | apply Hlz | apply Hlf | apply Hlg]).
    rewrite Hix, !Hf, !Hg. fold x0 x1 a0 a1 b0 b1.
    split; [field; lra|].
    unfold t. field. split; lra.
Qed.

Lemma find_intersections_on_both_lines_witness :
  exists ix iy,
    find_intersections [0; 1] [0; 2] [1; 1] "all" = Ok (ix, iy)
    /\ length ix = length (nearest_intersection_idx [0; 2] [1; 1])
    /\ length iy = length (nearest_intersection_idx [0; 2] [1; 1])
    /\ let i := nth 0 (nearest_intersection_idx [0; 2] [1; 1]) 0%nat in
       let x0 := nth i [0; 1] 0 in let x1 := nth (S i) [0; 1] 0 in
       let a0 := nth i [0; 2] 0 in let a1 := nth (S i) [0; 2] 0 in
       let b0 := nth i [1; 1] 0 in let b1 := nth (S i) [1; 1] 0 in
       (S i < length [0; 1])%nat
       /\ np_sign (a1 - b1) <> np_sign (a0 - b0)
       /\ Rmin x0 x1 <= nth 0 ix 0 <= Rmax x0 x1
       /\ (x1 <> x0 ->
           nth 0 iy 0 = a0 + (nth 0 ix 0 - x0) / (x1 - x0) * (a1 - a0)
           /\ nth 0 iy 0 = b0 + (nth 0 ix 0 - x0) / (x1 - x0) * (b1 - b0)).
Proof.
  apply (@find_intersections_on_both_lines [0; 1] [0; 2] [1; 1] 0);
    try reflexivity.
  assert (Hin : In 0%nat (nearest_intersection_idx [0; 2] [1; 1])).
  { apply nearest_intersection_idx_spec; [reflexivity|]. split; [simpl; lia|].
    cbn [nth]. unfold np_sign.
    destruct (Rlt_dec 0 (2 - 1)); [|lra].
    destruct (Rlt_dec 0 (0 - 1)); [lra|].
    destruct (Rlt_dec (0 - 1) 0); [lra | lra]. }
  destruct (nearest_intersection_idx [0; 2] [1; 1]); [destruct Hin | simpl; lia].
Defined.

End IntersectionFacts.

(** ** Facts about the spectra, averages and levels of AtmosphericEnergyBudget.py *)

(** *** Symmetry and sign of the cross-spectrum *)

Module SpectrumFacts.
Import Tools AEB ListFacts AEBFacts.
Open Scope R_scope.

Lemma real_product_comm (c1 c2 : list (list complex)) :
  real_product c1 c2 = real_product c2 c1.
Proof.
  unfold real_product. apply SebaFacts.zip_with_comm. intros r1 r2.
  apply SebaFacts.zip_with_comm. intros [a1 a2] [b1 b2].
  unfold Cre, Cmul, Cconj. cbn [fst snd]. ring.
Qed.

(** The cross-spectrum is symmetric in its two sets of coefficients: the
    two calls return the same array or raise the same error, but for the
    assertion on the shapes, whose message names the two shapes in the
    order of the call. *)
Theorem cross_spectrum_symmetric
  (st : state) (clm1 clm2 : coeffs) (degrees_arg : option (list nat))
  (convention : string) :
  cross_spectrum st clm1 (Some clm2) degrees_arg convention
  = cross_spectrum st clm2 (Some clm1) degrees_arg convention
  \/ (coeffs_shape clm1 <> coeffs_shape clm2
      /\ cross_spectrum st clm1 (Some clm2) degrees_arg convention
         = Raise (AssertionError
             ("Arrays 'clm1' and 'clm2' of spectral coefficients must have the same shape. Expected 'clm2' shape: "
              ++ format_shape (coeffs_shape clm1) ++ " got: "
              ++ format_shape (coeffs_shape clm2)))
      /\ cross_spectrum st clm2 (Some clm1) degrees_arg convention
         = Raise (AssertionError
             ("Arrays 'clm1' and 'clm2' of spectral coefficients must have the same shape. Expected 'clm2' shape: "
              ++ format_shape (coeffs_shape clm2) ++ " got: "
              ++ format_shape (coeffs_shape clm1)))).
Proof.
  unfold cross_spectrum.
  destruct (match degrees_arg with
            | None => Ok (degrees st)
            | Some d => _
            end) as [degs|e]; [|left; reflexivity].
  cbn [bind].
  destruct (negb (String.eqb convention "energy" || String.eqb convention "power"));
    [left; reflexivity|].
  destruct (list_eq_dec Nat.eq_dec (coeffs_shape clm1) (coeffs_shape clm2)) as [E|N].
  - left. rewrite E, shape_eqb_refl. cbn [bind].
    rewrite (real_product_comm (coefficients clm1) (coefficients clm2)).
    unfold coeffs_shape in E. injection E as _ Hs. rewrite Hs. reflexivity.
  - right. split; [exact N|].
    assert (H12 : shape_eqb (coeffs_shape clm2) (coeffs_shape clm1) = false).
    { destruct (shape_eqb (coeffs_shape clm2) (coeffs_shape clm1)) eqn:Hb;
        [|reflexivity].
      apply shape_eqb_true in Hb. congruence. }
    assert (H21 : shape_eqb (coeffs_shape clm1) (coeffs_shape clm2) = false).
    { destruct (shape_eqb (coeffs_shape clm1) (coeffs_shape clm2)) eqn:Hb;
        [|reflexivity].
      apply shape_eqb_true in Hb. congruence. }
    rewrite H12, H21. split; reflexivity.
Qed.

Definition nonneg_rows (rows : list (list R)) : Prop :=
  Forall (Forall (fun x => 0 <= x)) rows.

Lemma nth_nonneg (row : list R) (j : nat) :
  Forall (fun x => 0 <= x) row -> 0 <= nth j row 0.
Proof.
  intros H. destruct (Nat.lt_ge_cases j (length row)) as [Hj|Hj].
  - rewrite Forall_forall in H. apply H, nth_In, Hj.
  - rewrite nth_overflow by exact Hj. lra.
Qed.

Lemma rsum_nonneg (l : list R) : Forall (fun x => 0 <= x) l -> 0 <= rsum l.
Proof.
  induction 1 as [|x l Hx _ IH]; simpl; lra.
Qed.

Lemma sum_rows_nonneg (nsamp : nat) (rows : list (list R)) :
  nonneg_rows rows -> Forall (fun x => 0 <= x) (sum_rows nsamp rows).
Proof.
  intros H. unfold sum_rows. apply Forall_map, Forall_forall. intros j _.
  apply rsum_nonneg, Forall_map. unfold nonneg_rows in H. rewrite Forall_forall in H.
  apply Forall_forall. intros row Hrow. apply nth_nonneg, H, Hrow.
Qed.

Lemma select_nonneg (mask : list bool) (rows : list (list R)) :
  nonneg_rows rows -> nonneg_rows (select mask rows).
Proof.
  unfold nonneg_rows, select. intros H. rewrite Forall_forall in H.
  apply Forall_forall. intros row Hin. apply in_map_iff in Hin as ([b r] & <- & Hin).
  apply filter_In in Hin as [Hin _]. apply in_combine_r in Hin. apply H, Hin.
Qed.

Lemma real_product_self_nonneg (clm : list (list complex)) :
  nonneg_rows (real_product clm clm).
Proof.
  unfold nonneg_rows, real_product, zip_with.
  apply Forall_map, Forall_forall. intros [r1 r2] Hin. cbn [fst snd].
  assert (r1 = r2) as ->.
  { clear -Hin. induction clm as [|x l IH]; [destruct Hin|].
    destruct Hin as [E|Hin]; [inversion E; reflexivity | apply IH; exact Hin]. }
  apply Forall_map, Forall_forall. intros [a b] Hab. cbn [fst snd].
  assert (a = b) as ->.
  { clear -Hab. induction r2 as [|x l IH]; [destruct Hab|].
    destruct Hab as [E|Hab]; [inversion E; reflexivity | apply IH; exact Hab]. }
  destruct b as [b1 b2]. unfold Cre, Cmul, Cconj. cbn [fst snd]. nra.
Qed.

Lemma nth_nonneg_rows (rows : list (list R)) (d j : nat) :
  nonneg_rows rows -> 0 <= nth j (nth d rows []) 0.
Proof.
  intros H. apply nth_nonneg.
  destruct (Nat.lt_ge_cases d (length rows)) as [Hd|Hd].
  - unfold nonneg_rows in H. rewrite Forall_forall in H. apply H, nth_In, Hd.
  - rewrite nth_overflow by exact Hd. constructor.
Qed.

Lemma spectrum_rows_nonneg
  (st : state) (nsamp : nat) (degs : list nat) (convention : string)
  (clm_sqd : list (list R)) :
  nonneg_rows clm_sqd ->
  nonneg_rows (spectrum_rows st nsamp degs convention clm_sqd).
Proof.
  intros Hp. unfold spectrum_rows.
  set (scaled := zip_with _ (zonal_wavenumber st) clm_sqd).
  assert (Hscaled : nonneg_rows scaled).
  { unfold scaled, nonneg_rows, zip_with.
    apply Forall_map, Forall_forall. intros [m row] Hin. cbn [fst snd].
    apply in_combine_r in Hin.
    unfold nonneg_rows in Hp.
    rewrite Forall_forall in Hp. specialize (Hp row Hin). rewrite Forall_forall in Hp.
    apply Forall_map, Forall_forall. intros x Hx. specialize (Hp x Hx).
    destruct (m =? 0)%nat; nra. }
  assert (Hhalf : nonneg_rows
            (map (map (fun x => x / 2))
               (map (fun degree =>
                  sum_rows nsamp
                    (select (zip_with (fun m l => (m <=? degree)%nat && (l =? degree)%nat)
                               (zonal_wavenumber st) (total_wavenumber st)) scaled))
                  degs))).
  { unfold nonneg_rows. rewrite map_map. apply Forall_map, Forall_forall.
    intros d _. apply Forall_map.
    pose proof (sum_rows_nonneg nsamp
                  (select_nonneg
                     (zip_with (fun m l => (m <=? d)%nat && (l =? d)%nat)
                        (zonal_wavenumber st) (total_wavenumber st)) Hscaled)) as Hs.
    rewrite Forall_forall in Hs. apply Forall_forall. intros x Hx.
    specialize (Hs x Hx). lra. }
  destruct (String.eqb (lower convention) "energy"); [|exact Hhalf].
  unfold nonneg_rows in Hhalf. rewrite Forall_forall in Hhalf.
  apply Forall_map, Forall_forall. intros row Hrow. specialize (Hhalf row Hrow).
  rewrite Forall_forall in Hhalf.
  apply Forall_map, Forall_forall. intros x Hx. specialize (Hhalf x Hx).
  pose proof PI_RGT_0. nra.
Qed.

Lemma cross_spectrum_self_nonneg
  (st : state) (clm : coeffs) (degrees_arg : option (list nat))
  (convention : string) (spectrum : ndarray R) :
  cross_spectrum st clm None degrees_arg convention = Ok spectrum ->
  forall idx, 0 <= elem spectrum idx.
Proof.
  unfold cross_spectrum.
  destruct (match degrees_arg with
            | None => Ok (degrees st)
            | Some d => _
            end) as [degs|e]; [|discriminate].
  cbn [bind].
  destruct (negb (String.eqb convention "energy" || String.eqb convention "power"));
    [discriminate|].
  cbn [bind]. intros [= <-] idx.
  unfold squeeze, array_of_rows. cbn [elem shape].
  apply nth_nonneg_rows, spectrum_rows_nonneg, real_product_self_nonneg.
Qed.

(** A power (or energy) spectrum has no negative entry. *)
Theorem power_spectrum_nonnegative
  (st : state) (clm : coeffs) (degrees_arg : option (list nat))
  (convention : string) (spectrum : ndarray R) :
  cross_spectrum st clm None degrees_arg convention = Ok spectrum ->
  forall idx, 0 <= elem spectrum idx.
Proof. apply cross_spectrum_self_nonneg. Qed.

Lemma power_spectrum_nonnegative_witness :
  exists spectrum,
    cross_spectrum (init_state 6371200 4 8 1 [1] 1 [1] [[[1]]])
                   three_modes None (Some [1%nat; 0%nat]) "energy" = Ok spectrum
    /\ shape spectrum = [2%nat; 2%nat]
    /\ forall idx, 0 <= elem spectrum idx.
Proof.
  eexists. split; [reflexivity|]. split; [reflexivity|].
  apply (@power_spectrum_nonnegative (init_state 6371200 4 8 1 [1] 1 [1] [[[1]]])
           three_modes (Some [1%nat; 0%nat]) "energy"). reflexivity.
Defined.

End SpectrumFacts.

(** *** The sum of a spectrum over the degrees *)

Module TotalFacts.
Import Tools AEB ListFacts ToolsFacts AEBFacts TriangleFacts.
Open Scope R_scope.

Lemma rsum_map_plus {X : Type} (f g : X -> R) (l : list X) :
  rsum (map (fun i => f i + g i) l) = rsum (map f l) + rsum (map g l).
Proof. induction l as [|x l IH]; simpl; [lra | rewrite IH; lra]. Qed.

Lemma rsum_map_zero {X : Type} (l : list X) : rsum (map (fun _ => 0) l) = 0.
Proof. induction l as [|x l IH]; simpl; [reflexivity | rewrite IH; lra]. Qed.

Lemma rsum_map_half {X : Type} (f : X -> R) (l : list X) :
  rsum (map (fun d => f d / 2) l) = rsum (map f l) / 2.
Proof.
  induction l as [|x l IH]; cbn [map rsum fold_right]; [lra|].
  fold (rsum (map (fun d => f d / 2) l)). fold (rsum (map f l)). rewrite IH. lra.
Qed.

(** Two nested sums may be taken in either order. *)
Lemma rsum_swap {X Y : Type} (F : X -> Y -> R) (D : list X) (L : list Y) :
  rsum (map (fun d => rsum (map (F d) L)) D)
  = rsum (map (fun i => rsum (map (fun d => F d i) D)) L).
Proof.
  induction D as [|d D IH]; cbn [map rsum fold_right].
  - symmetry. apply rsum_map_zero.
  - fold (rsum (map (fun d0 => rsum (map (F d0) L)) D)). rewrite IH.
    rewrite <- rsum_map_plus. reflexivity.
Qed.

Lemma rsum_indicator (l : nat) (v : R) (a n : nat) :
  rsum (map (fun d => if (l =? d)%nat then v else 0) (seq a n))
  = if ((a <=? l) && (l <? a + n))%nat then v else 0.
Proof.
  revert a. induction n as [|n IH]; intros a.
  - cbn [seq map rsum fold_right].
    destruct (Nat.leb_spec a l), (Nat.ltb_spec l (a + 0)); cbn [andb]; try reflexivity; lia.
  - cbn [seq map rsum fold_right].
    fold (rsum (map (fun d => if (l =? d)%nat then v else 0) (seq (S a) n))).
    rewrite IH.
    destruct (Nat.eqb_spec l a) as [->|Hne].
    + destruct (Nat.leb_spec (S a) a); [lia|].
      destruct (Nat.leb_spec a a); [|lia].
      destruct (Nat.ltb_spec a (a + S n)); [|lia]. cbn [andb]. lra.
    + destruct (Nat.leb_spec (S a) l), (Nat.leb_spec a l),
        (Nat.ltb_spec l (S a + n)), (Nat.ltb_spec l (a + S n));
        cbn [andb]; try lra; lia.
Qed.

Lemma nth_combine_fst_snd (ms ls : list nat) (i : nat) :
  length ms = length ls -> (i < length ms)%nat ->
  In (nth i ms 0%nat, nth i ls 0%nat) (combine ms ls).
Proof.
  intros Hlen Hi.
  rewrite <- (@nth_combine _ _ ms ls i 0%nat 0%nat) by lia.
  apply nth_In. rewrite length_combine. lia.
Qed.

Section Total.
Variable earth_radius : R.

(** The degree of every stored coefficient is at most the truncation. *)
Lemma getspecindx_degree_le (T i : nat) :
  (i < length (fst (getspecindx T)))%nat ->
  (nth i (snd (getspecindx T)) 0 <= T)%nat.
Proof.
  intros Hi.
  pose proof (@nth_combine_fst_snd (fst (getspecindx T)) (snd (getspecindx T)) i
                (eq_sym (getspecindx_lengths T)) Hi) as Hin.
  rewrite getspecindx_kept in Hin. apply in_triangle in Hin. lia.
Qed.

(** Added up over all degrees, the power cross-spectrum is half the sum
    over all stored coefficients of the real part of [clm1 * conj(clm2)],
    the coefficients of non-zero zonal wavenumber counted twice: the
    binning by degree drops no coefficient and counts none twice. *)
Theorem cross_spectrum_total
  (nlat nlon T : nat) (p : list R) (direction : Z) (weights : list R)
  (beta : list (list (list R)))
  (clm1 : coeffs) (clm2 : option coeffs) (sidx : list nat) :
  let st := init_state earth_radius nlat nlon T p direction weights beta in
  let c2 := match clm2 with Some c => c | None => clm1 end in
  let j := ravel (sample_shape clm1) sidx in
  length (coefficients clm1) = length (zonal_wavenumber st) ->
  match clm2 with Some c => coeffs_shape c = coeffs_shape clm1 | None => True end ->
  in_range (sample_shape clm1) sidx ->
  exists spectrum,
    cross_spectrum st clm1 clm2 None "power" = Ok spectrum
    /\ rsum (map (fun d =>
                    elem spectrum
                      (squeezed_index ((T + 1)%nat :: sample_shape clm1) (d :: sidx)))
                 (seq 0 (T + 1)))
       = rsum (map (fun i =>
                      (if (nth i (zonal_wavenumber st) 0 =? 0)%nat then 1 else 2)
                      * Cre (Cmul (nth j (nth i (coefficients clm1) []) C0)
                                  (Cconj (nth j (nth i (coefficients c2) []) C0))))
                   (seq 0 (length (coefficients clm1)))) / 2.
Proof.
  intros st c2 j Hlen Hshape Hs.
  assert (Hc2 : length (coefficients c2) = length (coefficients clm1)).
  { unfold c2. destruct clm2 as [c|]; [|reflexivity].
    unfold coeffs_shape in Hshape. injection Hshape as Hl _. exact Hl. }
  destruct (@spectrum_rows_entries earth_radius nlat nlon T p direction weights beta
              (coefficients clm1) (coefficients c2) (nprod (sample_shape clm1))
              "power" Hlen Hc2 (or_intror eq_refl)) as [Hrows Hentry].
  eexists. split.
  { apply (cross_spectrum_returns st clm1 clm2 Hshape (or_intror eq_refl)). }
  fold c2. change (degrees st) with (seq 0 (T + 1)). subst st.
  set (st := init_state earth_radius nlat nlon T p direction weights beta) in *.
  set (rows := spectrum_rows st _ _ _ _) in *.
  rewrite (rsum_ext_in _ (fun d => degree_sum st (coefficients clm1)
                                     (coefficients c2) d j / 2)).
  2:{ intros d Hd. apply in_seq in Hd. rewrite <- Hrows.
      rewrite squeezed_rows_entry by (try lia; exact Hs).
      apply (Hentry d j); [lia | apply ToolsFacts.ravel_lt; exact Hs]. }
  unfold degree_sum.
  transitivity (rsum (map (fun d =>
      rsum (map (fun i =>
        (if (nth i (total_wavenumber st) 0 =? d)%nat
         then (if (nth i (zonal_wavenumber st) 0 =? 0)%nat then 1 else 2)
              * (fst (nth j (nth i (coefficients clm1) []) C0)
                 * fst (nth j (nth i (coefficients c2) []) C0)
                 + snd (nth j (nth i (coefficients clm1) []) C0)
                   * snd (nth j (nth i (coefficients c2) []) C0))
         else 0)) (seq 0 (length (coefficients clm1))))) (seq 0 (T + 1))) / 2).
  { apply (rsum_map_half (fun d => rsum (map (fun i =>
        (if (nth i (total_wavenumber st) 0 =? d)%nat
         then (if (nth i (zonal_wavenumber st) 0 =? 0)%nat then 1 else 2)
              * (fst (nth j (nth i (coefficients clm1) []) C0)
                 * fst (nth j (nth i (coefficients c2) []) C0)
                 + snd (nth j (nth i (coefficients clm1) []) C0)
                   * snd (nth j (nth i (coefficients c2) []) C0))
         else 0)) (seq 0 (length (coefficients clm1)))))). }
  f_equal. rewrite rsum_swap. apply rsum_ext_in. intros i Hi. apply in_seq in Hi.
  rewrite rsum_indicator.
  assert (Hli : (nth i (total_wavenumber st) 0%nat <= T)%nat).
  { unfold st. cbn [total_wavenumber init_state]. apply getspecindx_degree_le.
    unfold st in Hlen. cbn [zonal_wavenumber init_state] in Hlen. lia. }
  destruct (Nat.leb_spec 0 (nth i (total_wavenumber st) 0%nat)); [|lia].
  destruct (Nat.ltb_spec (nth i (total_wavenumber st) 0%nat) (0 + (T + 1))); [|lia].
  cbn [andb]. rewrite real_part_of_product. reflexivity.
Qed.

End Total.

Lemma cross_spectrum_total_witness :
  let st := init_state 6371200 4 8 1 [1] 1 [1] [[[1]]] in
  exists spectrum,
    cross_spectrum st three_modes (Some three_modes') None "power" = Ok spectrum
    /\ rsum (map (fun d => elem spectrum (squeezed_index [2%nat; 2%nat] [d; 1%nat]))
                 (seq 0 (1 + 1)))
       = rsum (map (fun i =>
                      (if (nth i (zonal_wavenumber st) 0 =? 0)%nat then 1 else 2)
                      * Cre (Cmul (nth 1 (nth i (coefficients three_modes) []) C0)
                                  (Cconj (nth 1 (nth i (coefficients three_modes') [])
                                            C0))))
                   (seq 0 3)) / 2.
Proof.
  apply (@cross_spectrum_total 6371200 4 8 1 [1] 1 [1] [[[1]]]
           three_modes (Some three_modes') [1%nat]);
    [reflexivity | reflexivity | repeat constructor].
Defined.

(** There the two sides are the number 51/2: the three coefficients give
    7, 0 and twice 22. *)
Lemma cross_spectrum_total_of_three_modes :
  let st := init_state 6371200 4 8 1 [1] 1 [1] [[[1]]] in
  rsum (map (fun i =>
               (if (nth i (zonal_wavenumber st) 0 =? 0)%nat then 1 else 2)
               * Cre (Cmul (nth 1 (nth i (coefficients three_modes) []) C0)
                           (Cconj (nth 1 (nth i (coefficients three_modes') []) C0))))
            (seq 0 3)) / 2 = 51 / 2.
Proof.
  cbv zeta. cbn. unfold rsum, Cre, Cmul, Cconj. cbn. lra.
Qed.

End TotalFacts.

(** *** Global averages and perturbations *)

Module AverageFacts.
Import Tools AEB ListFacts AEBFacts AEBArrays.
Open Scope R_scope.

(** Rectangular (nlat, nlon, n) array. *)
Definition has_shape (nlat nlon n : nat) (scalar : list (list (list R))) : Prop :=
  length scalar = nlat
  /\ Forall (fun row => length row = nlon /\ Forall (fun col => length col = n) row)
            scalar.

Import TerrainFacts TotalFacts.

Lemma rsum_scale (c : R) (l : list R) : rsum (map (Rmult c) l) = c * rsum l.
Proof. induction l as [|x l IH]; simpl; [lra | rewrite IH; lra]. Qed.

Lemma rsum_const {X : Type} (c : R) (l : list X) :
  rsum (map (fun _ => c) l) = INR (length l) * c.
Proof.
  induction l as [|x l IH]; cbn [map rsum fold_right length]; [cbn; lra|].
  fold (rsum (map (fun _ => c) l)). rewrite IH, S_INR. lra.
Qed.

(** The weighted sum of [x_i - a] is the weighted sum of the [x_i] minus
    [a] times the sum of the weights. *)
Lemma weighted_sum_shift (xs w : list R) (a : R) :
  length xs = length w ->
  rsum (zip_with Rmult (map (fun x => x - a) xs) w)
  = rsum (zip_with Rmult xs w) - a * rsum w.
Proof.
  unfold zip_with. revert w. induction xs as [|x xs IH]; intros [|v w] H;
    simpl in *; try lia; [lra|].
  rewrite IH by lia. lra.
Qed.

Lemma average_shift (xs w : list R) (a : R) :
  length xs = length w -> rsum w <> 0 ->
  average w (map (fun x => x - a) xs) = average w xs - a.
Proof.
  intros Hlen Hw. unfold average. rewrite weighted_sum_shift by exact Hlen.
  field. exact Hw.
Qed.

Lemma has_shape_entry (nlat nlon n : nat) (scalar : list (list (list R)))
  (row : list (list R)) (j : nat) :
  has_shape nlat nlon n scalar -> In row scalar -> (j < nlon)%nat ->
  length (nth j row []) = n.
Proof.
  intros [_ H] Hrow Hj. rewrite Forall_forall in H.
  destruct (H row Hrow) as [Hl Hc]. rewrite Forall_forall in Hc.
  apply Hc, nth_In. lia.
Qed.

Lemma has_shape_sizes (nlat nlon n : nat) (scalar : list (list (list R))) :
  (nlat <> 0)%nat -> (nlon <> 0)%nat -> has_shape nlat nlon n scalar ->
  sample_size scalar = nlon /\ sample_size (nth 0 scalar []) = n.
Proof.
  intros Hlat Hlon [Hlen H].
  destruct scalar as [|row scalar]; [simpl in Hlen; lia|].
  inversion H as [|? ? [Hrow Hcols] _]; subst. cbn [sample_size nth].
  split; [reflexivity|].
  destruct row as [|col row]; [simpl in Hlon; lia|].
  inversion Hcols; subst. reflexivity.
Qed.

Lemma subtract_profile_shape (nlat nlon n : nat) (scalar : list (list (list R)))
  (profile : list R) :
  length profile = n -> has_shape nlat nlon n scalar ->
  has_shape nlat nlon n (subtract_profile scalar profile).
Proof.
  intros Hp [Hlen H]. unfold has_shape, subtract_profile. split.
  - rewrite length_map. exact Hlen.
  - apply Forall_map. rewrite Forall_forall in H |- *. intros row Hrow.
    destruct (H row Hrow) as [Hl Hc]. split; [rewrite length_map; exact Hl|].
    apply Forall_map. rewrite Forall_forall in Hc |- *. intros col Hcol.
    rewrite zip_with_length, (Hc col Hcol), Hp. apply Nat.min_id.
Qed.

(** What [global_average] returns on a rectangular array. *)
Lemma global_average_value (st : state) (n : nat) (scalar : list (list (list R))) :
  (nlat st <> 0)%nat -> (nlon st <> 0)%nat ->
  has_shape (nlat st) (nlon st) n scalar ->
  global_average st scalar
  = Ok (map (fun k =>
               rsum (map (fun j =>
                            average (weights st)
                              (map (fun row => nth k (nth j row []) 0) scalar))
                         (seq 0 (nlon st)))
               / INR (nlon st))
            (seq 0 n)).
Proof.
  intros Hlat Hlon Hs.
  destruct (has_shape_sizes Hlat Hlon Hs) as [Hss Hn]. destruct Hs as [Hlen _].
  unfold global_average. rewrite Hlen, Hss, !Nat.eqb_refl. cbn [negb].
  rewrite Hn. reflexivity.
Qed.

Lemma nth_repeat_in {X : Type} (a d : X) (m i : nat) :
  (i < m)%nat -> nth i (repeat a m) d = a.
Proof.
  intros Hi. rewrite nth_indep with (d' := a) by (rewrite repeat_length; exact Hi).
  apply nth_repeat.
Qed.

Lemma map_const_repeat {X : Type} (f : X -> R) (c : R) (l : list X) :
  (forall k, In k l -> f k = c) -> map f l = repeat c (length l).
Proof.
  induction l as [|x l IH]; intros H; [reflexivity|].
  cbn [map length repeat]. rewrite (H x (or_introl eq_refl)). f_equal.
  apply IH. intros k Hk. apply H. right. exact Hk.
Qed.

Lemma weighted_sum_repeat (w : list R) (c : R) :
  rsum (zip_with Rmult (repeat c (length w)) w) = c * rsum w.
Proof.
  unfold zip_with. induction w as [|v w IH]; simpl; [lra|].
  rewrite IH. lra.
Qed.

Lemma average_repeat (w : list R) (c : R) :
  rsum w <> 0 -> average w (repeat c (length w)) = c.
Proof.
  intros Hw. unfold average. rewrite weighted_sum_repeat. field. exact Hw.
Qed.

(** The global average of a constant field is that constant. *)
Theorem global_average_constant (st : state) (c : R) (n : nat) :
  (nlon st <> 0)%nat -> length (weights st) = nlat st -> rsum (weights st) <> 0 ->
  global_average st (repeat (repeat (repeat c n) (nlon st)) (nlat st))
  = Ok (repeat c n).
Proof.
  intros Hlon Hw Hsum.
  assert (Hlat : (nlat st <> 0)%nat).
  { intros E. rewrite E in Hw. destruct (weights st); [apply Hsum; reflexivity|discriminate]. }
  rewrite (@global_average_value st n); try assumption.
  - f_equal.
    transitivity (repeat c (length (seq 0 n))); [|rewrite length_seq; reflexivity].
    apply map_const_repeat.
    intros k Hk. apply in_seq in Hk.
    rewrite (rsum_ext_in _ (fun _ => c)).
    + rewrite rsum_const, length_seq. field. apply not_0_INR. exact Hlon.
    + intros j Hj. apply in_seq in Hj. rewrite map_repeat.
      rewrite nth_repeat_in by lia. rewrite nth_repeat_in by lia.
      rewrite <- Hw. apply average_repeat. exact Hsum.
  - split; [apply repeat_length|]. apply Forall_forall. intros row Hrow.
    apply repeat_spec in Hrow. subst row. split; [apply repeat_length|].
    apply Forall_forall. intros col Hcol. apply repeat_spec in Hcol. subst col.
    apply repeat_length.
Qed.

Definition unit_grid : state :=
  {| nlat := 2; nlon := 1; truncation := 0; zonal_wavenumber := [0%nat];
     total_wavenumber := [0%nat]; degrees := [0%nat]; vector_norm := [1];
     p := [1]; direction := 1%Z; weights := [1; 1]; beta := [[[1]]; [[1]]] |}.

Lemma global_average_constant_witness :
  global_average unit_grid (repeat (repeat (repeat 5 3) 1) 2) = Ok (repeat 5 3).
Proof.
  apply (@global_average_constant unit_grid 5 3); simpl; try lia; try reflexivity. lra.
Defined.

(** Taking the global average off a field leaves a field of zero global
    average: the perturbation [theta - theta_avg] that [__init__] forms
    averages to zero at every sample and level. *)
Theorem global_average_of_perturbation
  (st : state) (n : nat) (scalar : list (list (list R))) (avg : list R) :
  (nlon st <> 0)%nat -> length (weights st) = nlat st -> rsum (weights st) <> 0 ->
  has_shape (nlat st) (nlon st) n scalar ->
  global_average st scalar = Ok avg ->
  global_average st (subtract_profile scalar avg) = Ok (repeat 0 n).
Proof.
  intros Hlon Hw Hsum Hs Havg.
  assert (Hlat : (nlat st <> 0)%nat).
  { intros E. rewrite E in Hw. destruct (weights st); [apply Hsum; reflexivity|discriminate]. }
  rewrite (@global_average_value st n scalar Hlat Hlon Hs) in Havg. injection Havg as Havg.
  assert (Hla : length avg = n) by (rewrite <- Havg, length_map, length_seq; reflexivity).
  rewrite (@global_average_value st n _ Hlat Hlon (@subtract_profile_shape _ _ n scalar avg Hla Hs)).
  f_equal.
  transitivity (repeat 0 (length (seq 0 n))); [|rewrite length_seq; reflexivity].
  apply map_const_repeat.
  intros k Hk. apply in_seq in Hk.
  assert (Hak : nth k avg 0
                = rsum (map (fun j => average (weights st)
                                (map (fun row => nth k (nth j row []) 0) scalar))
                            (seq 0 (nlon st))) / INR (nlon st)).
  { rewrite <- Havg.
    set (h := fun k0 : nat => _ / INR (nlon st)).
    rewrite nth_indep with (d' := h 0%nat) by (rewrite length_map, length_seq; lia).
    rewrite map_nth, seq_nth by lia. reflexivity. }
  rewrite (rsum_ext_in _ (fun j => average (weights st)
                                (map (fun row => nth k (nth j row []) 0) scalar)
                              - nth k avg 0)).
  - rewrite (rsum_map_plus
               (fun j => average (weights st)
                           (map (fun row => nth k (nth j row []) 0) scalar))
               (fun _ => - nth k avg 0)).
    rewrite rsum_const, length_seq, Hak.
    field. apply not_0_INR. exact Hlon.
  - intros j Hj. apply in_seq in Hj.
    rewrite <- average_shift.
    + f_equal. unfold subtract_profile. rewrite !map_map.
      apply map_ext_in. intros row Hrow.
      rewrite (@nth_map_in _ _ _ row j [] []).
      * apply nth_zip_with.
        -- rewrite (@has_shape_entry _ _ n scalar row j Hs Hrow) by lia. lia.
        -- lia.
      * destruct Hs as [_ H]. rewrite Forall_forall in H.
        destruct (H row Hrow) as [Hl _]. lia.
    + rewrite length_map. destruct Hs as [Hl _]. lia.
    + exact Hsum.
Qed.

Lemma global_average_of_perturbation_witness :
  exists avg,
    global_average unit_grid [[[1; 2]]; [[3; 4]]] = Ok avg
    /\ global_average unit_grid (subtract_profile [[[1; 2]]; [[3; 4]]] avg)
       = Ok (repeat 0 2).
Proof.
  eexists. split; [reflexivity|].
  apply (@global_average_of_perturbation unit_grid 2 [[[1; 2]]; [[3; 4]]]);
    try reflexivity; try (simpl; lia).
  - simpl. lra.
  - split; [reflexivity|]. repeat constructor.
Defined.

End AverageFacts.

(** *** The normalised vector spectra *)

Module VectorSpectrumFacts.
Import Tools AEB ListFacts ToolsFacts AEBFacts.
Import TerrainFacts SpectrumFacts TotalFacts AverageFacts.
Open Scope R_scope.

Section VectorSpectra.
Variable earth_radius : R.
Variable vector_field : Type.
Variable getvrtdivspec : vector_field -> coeffs * coeffs.

(** The vector power spectrum of a field (its kinetic-energy spectrum up
    to the factor 1/2) has no negative entry. *)
Theorem vector_power_spectrum_nonnegative
  (nlat nlon T : nat) (p : list R) (direction : Z) (weights : list R)
  (beta : list (list (list R))) (vector_1 : vector_field) (spectrum : ndarray R) :
  earth_radius <> 0 ->
  _vector_spectra getvrtdivspec
    (init_state earth_radius nlat nlon T p direction weights beta) vector_1 None
  = Ok spectrum ->
  forall idx, in_range (shape spectrum) idx -> 0 <= elem spectrum idx.
Proof.
  intros Hr Hrun idx Hin.
  destruct (vector_spectra_broadcasts _ _ _ _ Hrun)
    as (a & b & s & Ha & Hb & Hs & Hs' & Hentry).
  unfold rotational_spectrum, divergent_spectrum in Ha, Hb.
  cbn [option_map] in Ha, Hb.
  pose proof (cross_spectrum_self_nonneg _ _ _ _ Ha) as Pa.
  pose proof (cross_spectrum_self_nonneg _ _ _ _ Hb) as Pb.
  pose proof (init_vector_norm_positive T Hr) as Pn.
  rewrite Forall_forall in Pn.
  cbn [vector_norm init_state] in Hs', Hentry.
  rewrite Hentry.
  destruct (broadcast_index_in_range _ _ Hs' Hin) as [_ Hk].
  inversion Hk as [|k n idx' s' Hlt Hrest Hidx Hshape]. cbn [hd].
  assert (Hpos : 0 < nth k (init_vector_norm earth_radius T) 0)
    by (apply Pn, nth_In; exact Hlt).
  apply Rmult_le_pos.
  - pose proof (Pa (broadcast_index (shape a) (broadcast_index s idx))).
    pose proof (Pb (broadcast_index (shape b) (broadcast_index s idx))). lra.
  - left. apply Rinv_0_lt_compat. exact Hpos.
Qed.

End VectorSpectra.

Definition rot_div_modes (north : bool) : coeffs * coeffs :=
  if north then (three_modes, three_modes') else (three_modes', three_modes).

Lemma vector_power_spectrum_nonnegative_witness :
  exists spectrum,
    _vector_spectra rot_div_modes
      (init_state 6371200 4 8 1 [1] 1 [1] [[[1]]]) true None = Ok spectrum
    /\ shape spectrum = [2%nat; 2%nat; 2%nat]
    /\ forall idx, in_range (shape spectrum) idx -> 0 <= elem spectrum idx.
Proof.
  eexists. split; [reflexivity|]. split; [reflexivity|].
  apply (@vector_power_spectrum_nonnegative 6371200 bool rot_div_modes
           4 8 1 [1] 1 [1] [[[1]]] true); [lra | reflexivity].
Defined.

End VectorSpectrumFacts.

(** *** The weights of a regular grid *)

Module WeightFacts.
Import Tools AEB ListFacts ToolsFacts AEBFacts.
Import Np ToolsNumerics GridFacts TerrainFacts SpectrumFacts TotalFacts AverageFacts.
Open Scope R_scope.

Lemma rsum_positive (l : list R) (x : R) :
  Forall (fun w => 0 <= w) l -> In x l -> 0 < x -> 0 < rsum l.
Proof.
  intros Hall Hin Hpos. induction l as [|w l IH]; [destruct Hin|].
  inversion Hall as [|? ? Hw Hrest]; subst.
  cbn [rsum fold_right]. fold (rsum l).
  pose proof (rsum_nonneg Hrest) as Hs.
  destruct Hin as [->|Hin]; [lra|].
  specialize (IH Hrest Hin). lra.
Qed.

(** The weights of a regular grid of at least two latitudes are not
    negative and their sum is positive, so that the weighted average
    over latitude is defined. *)
Theorem regular_weights_sum_positive (nlat : nat) :
  (2 <= nlat)%nat ->
  exists lats wts,
    regular_lats_wts nlat = Ok (lats, wts)
    /\ Forall (fun w => 0 <= w) wts
    /\ 0 < rsum wts.
Proof.
  intros Hn.
  - unfold regular_lats_wts.
    destruct (Nat.eqb_spec nlat 0) as [E|_]; [lia|].
    set (ns := 90 - INR ((nlat + 1) mod 2) * (90 / INR nlat)).
    destruct (@ns_latitude_bounds nlat ltac:(lia)) as [Hns _]. fold ns in Hns.
    eexists. eexists. split; [reflexivity|].
    assert (Hpi : 0 < PI) by apply PI_RGT_0.
    assert (Hall : Forall (fun w => 0 <= w)
                     (map (fun x => cos (x * (PI / 180))) (linspace ns (- ns) nlat))).
    { apply Forall_map, Forall_forall. intros x Hx.
      destruct (In_nth _ _ 0 Hx) as (i & Hi & <-). rewrite length_linspace in Hi.
      pose proof (@linspace_symmetric_range ns nlat i Hi ltac:(lra)) as Hr.
      apply cos_ge_0; nra. }
    split; [exact Hall|].
    (* one weight is positive: the first for an even grid, the middle one
       (the equator) for an odd grid *)
    assert (Hone : exists i, (i < nlat)%nat
                     /\ 0 < cos (nth i (linspace ns (- ns) nlat) 0 * (PI / 180))).
    { destruct (Nat.Even_or_Odd nlat) as [[k Hk]|[k Hk]].
      - exists 0%nat. split; [lia|].
        rewrite nth_linspace by lia. cbn [INR].
        replace (ns + 0 * ((- ns - ns) / INR (nlat - 1))) with ns by ring.
        assert (Hlt : ns < 90).
        { unfold ns. subst nlat. rewrite even_succ_mod. cbn [INR].
          assert (0 < 90 / INR (2 * k)).
          { apply Rdiv_lt_0_compat; [lra | apply lt_0_INR; lia]. }
          lra. }
        apply cos_gt_0; nra.
      - exists k. split; [lia|].
        rewrite nth_linspace by lia.
        assert (Hd : INR (nlat - 1) <> 0) by (apply not_0_INR; lia).
        assert (Hk2 : INR (nlat - 1) = 2 * INR k).
        { subst nlat. replace (2 * k + 1 - 1)%nat with (2 * k)%nat by lia.
          rewrite mult_INR. cbn [INR]. lra. }
        replace (ns + INR k * ((- ns - ns) / INR (nlat - 1))) with 0.
        + rewrite Rmult_0_l, cos_0. lra.
        + rewrite Hk2 in Hd |- *. field. lra. }
    destruct Hone as (i & Hi & Hpos).
    set (wts := map (fun x => cos (x * (PI / 180))) (linspace ns (- ns) nlat)) in *.
    assert (Hin : In (nth i wts 0) wts).
    { apply nth_In. unfold wts. rewrite length_map, length_linspace. exact Hi. }
    assert (Hval : nth i wts 0 = cos (nth i (linspace ns (- ns) nlat) 0 * (PI / 180))).
    { unfold wts. apply nth_map_cos. rewrite length_linspace. exact Hi. }
    rewrite <- Hval in Hpos.
    apply (rsum_positive Hall Hin Hpos).
Qed.

Lemma regular_weights_sum_positive_witness :
  exists lats wts,
    regular_lats_wts 3 = Ok (lats, wts)
    /\ Forall (fun w => 0 <= w) wts
    /\ 0 < rsum wts.
Proof. apply (@regular_weights_sum_positive 3). lia. Defined.

End WeightFacts.

(** *** Construction: the dimensions *)

Module PrepareFacts.
Import Tools AEB ListFacts ToolsFacts.

Lemma lower_ascii_idem (c : ascii) : lower_ascii (lower_ascii c) = lower_ascii c.
Proof.
  destruct c as [[] [] [] [] [] [] [] []]; reflexivity.
Qed.

Lemma lower_idem (s : string) : lower (lower s) = lower s.
Proof.
  induction s as [|c s IH]; [reflexivity|].
  cbn [lower]. rewrite lower_ascii_idem, IH. reflexivity.
Qed.

Lemma lower_length (s : string) : String.length (lower s) = String.length s.
Proof. induction s as [|c s IH]; [reflexivity|]. cbn. rewrite IH. reflexivity. Qed.

(** A small letter found in a string is found in the lower-cased string. *)
Lemma str_contains_lower (c : ascii) (s : string) :
  lower_ascii c = c -> str_contains c s = true -> str_contains c (lower s) = true.
Proof.
  intros Hc. unfold str_contains. induction s as [|c' s IH]; [discriminate|].
  cbn [lower str_index].
  destruct (Ascii.eqb_spec c' c) as [->|Hne].
  - rewrite Hc, Ascii.eqb_refl. reflexivity.
  - destruct (Ascii.eqb (lower_ascii c') c); [reflexivity|].
    destruct (str_index c s); [|discriminate].
    intros _. specialize (IH eq_refl).
    destruct (str_index c (lower s)); [reflexivity | discriminate].
Qed.

Lemma str_contains_index (c : ascii) (s : string) :
  str_contains c s = true -> exists i, str_index c s = Some i.
Proof.
  unfold str_contains. destruct (str_index c s) as [i|]; [|discriminate].
  intros _. exists i. reflexivity.
Qed.

Section Prepare.
Variable A : Type.

(** [prepare_data] on an order string that passes its checks: the packed
    shape. *)
Lemma prepare_data_packs (data : ndarray A) (dim_order : string) (y x z : nat) :
  3 <= ndim data ->
  String.length dim_order <= ndim data ->
  str_contains "x" dim_order = true ->
  str_contains "y" dim_order = true ->
  str_contains "z" dim_order = true ->
  str_index "y" (lower dim_order) = Some y ->
  str_index "x" (lower dim_order) = Some x ->
  str_index "z" (lower dim_order) = Some z ->
  (nth y (shape data) 0 * nth x (shape data) 0 * nth z (shape data) 0 <> 0
   -> exists packed info,
        prepare_data data dim_order = Ok (packed, info)
        /\ shape packed =
             [nth y (shape data) 0; nth x (shape data) 0;
              size data / (nth y (shape data) 0 * nth x (shape data) 0
                           * nth z (shape data) 0);
              nth z (shape data) 0]
        /\ size data mod (nth y (shape data) 0 * nth x (shape data) 0
                          * nth z (shape data) 0) = 0)
  /\ (nth y (shape data) 0 * nth x (shape data) 0 * nth z (shape data) 0 = 0
      -> prepare_data data dim_order = Raise (ValueError "cannot reshape array")).
Proof.
  intros Hn Hlen Hcx Hcy Hcz Hy Hx Hz.
  destruct (str_index_get _ _ Hy) as [_ Hyl].
  destruct (str_index_get _ _ Hx) as [_ Hxl].
  destruct (str_index_get _ _ Hz) as [_ Hzl].
  rewrite lower_length in Hyl, Hxl, Hzl.
  assert (Hyx : y <> x) by (apply (@str_index_distinct "y"%char "x"%char (lower dim_order)); [discriminate | assumption | assumption]).
  assert (Hyz : y <> z) by (apply (@str_index_distinct "y"%char "z"%char (lower dim_order)); [discriminate | assumption | assumption]).
  assert (Hxz : x <> z) by (apply (@str_index_distinct "x"%char "z"%char (lower dim_order)); [discriminate | assumption | assumption]).
  set (n := ndim data) in *.
  assert (Hfind : map (str_find (lower dim_order)) yxz
                  = [Z.of_nat y; Z.of_nat x; Z.of_nat z]).
  { unfold yxz, str_find. cbn [map]. rewrite Hy, Hx, Hz. reflexivity. }
  set (Sr := [y; x; z]). set (Dr := [0; 1; n - 1]).
  assert (HndS : NoDup Sr) by (apply NoDup_3; assumption).
  assert (HndD : NoDup Dr) by (apply NoDup_3; lia).
  assert (HS : forall s, In s Sr -> s < n) by (intros s [<-|[<-|[<-|[]]]]; lia).
  assert (HD : forall d, In d Dr -> d < n) by (intros d [<-|[<-|[<-|[]]]]; lia).
  assert (HlenSD : length Sr = length Dr) by reflexivity.
  pose proof (moveaxis_order_inverse HndS HndD HlenSD HS HD) as H12.
  pose proof (moveaxis_order_inverse HndD HndS (eq_sym HlenSD) HD HS) as H21.
  destruct (moveaxis_order_spec HndS HndD HlenSD HS HD) as (Hl1 & Hin1 & _).
  set (o1 := moveaxis_order n Sr Dr) in *. set (o2 := moveaxis_order n Dr Sr) in *.
  fold (undoes n o1 o2) in H12. fold (undoes n o2 o1) in H21.
  pose proof (Hin1 0 ltac:(simpl; lia)) as Ho0.
  pose proof (Hin1 1 ltac:(simpl; lia)) as Ho1.
  pose proof (Hin1 2 ltac:(simpl; lia)) as Ho2. cbn [nth Sr Dr] in Ho0, Ho1, Ho2.
  set (T := transpose data o1).
  assert (HshT : shape T = map (fun k => nth k (shape data) 0) o1) by reflexivity.
  assert (HlT : length (shape T) = n) by (rewrite HshT, length_map; exact Hl1).
  destruct (list_ends (shape T) ltac:(lia)) as (a & b & mid & c & Hends).
  assert (Ha : a = nth y (shape data) 0).
  { transitivity (nth 0 (shape T) 0); [rewrite Hends; reflexivity|].
    rewrite HshT, nth_map_order by lia. rewrite Ho0. reflexivity. }
  assert (Hb : b = nth x (shape data) 0).
  { transitivity (nth 1 (shape T) 0); [rewrite Hends; reflexivity|].
    rewrite HshT, nth_map_order by lia. rewrite Ho1. reflexivity. }
  assert (Hc : c = nth z (shape data) 0).
  { transitivity (nth (n - 1) (shape T) 0).
    - rewrite <- HlT, Hends. change (a :: b :: mid ++ [c]) with ((a :: b :: mid) ++ [c]).
      rewrite length_app. cbn [length].
      replace (S (S (length mid)) + 1 - 1) with (length (a :: b :: mid)) by (simpl; lia).
      symmetry. apply nth_middle.
    - rewrite HshT, nth_map_order by lia. rewrite Ho2. reflexivity. }
  destruct (@packed_shape _ _ _ _ _ Hends) as (Hfirst & Hlast & Hprod).
  assert (HsizeT : size T = size data).
  { unfold size. rewrite HshT. apply nprod_transposed with (o' := o2); assumption. }
  assert (Hrun : prepare_data data dim_order
                 = (data2 <- reshape T [Z.of_nat a; Z.of_nat b; (-1)%Z; Z.of_nat c] ;;
                    Ok (data2,
                        {| interm_shape := shape T;
                           origin_order := dim_order;
                           output_order :=
                             ("yx(" ++ str_remove "z" (str_remove "y" (str_remove "x" dim_order))
                                    ++ ")z")%string |}))).
  { unfold prepare_data. fold n.
    assert ((n <? 3) = false) as -> by (apply Nat.ltb_ge; lia).
    assert ((n <? String.length dim_order) = false) as -> by (apply Nat.ltb_ge; lia).
    rewrite Hcx, Hcy, Hcz. cbn [negb orb].
    rewrite Hfind.
    rewrite moveaxis_spatial by (fold n; lia). fold n. fold Sr Dr o1 T. cbn [bind].
    rewrite Hfirst, Hlast. reflexivity. }
  rewrite Hrun, <- Ha, <- Hb, <- Hc. split.
  - intros Habc.
    assert (Hres : resolve_shape (size T) [Z.of_nat a; Z.of_nat b; (-1)%Z; Z.of_nat c]
                   = Ok [a; b; size T / (a * b * c); c]).
    { apply resolve_shape_packed; [exact Habc|].
      unfold size. rewrite Hprod. apply Nat.Div0.mod_mul. }
    unfold reshape. rewrite Hres. cbn [bind].
    assert (Heq : nprod [a; b; size T / (a * b * c); c] = size T).
    { unfold size. rewrite Hprod. rewrite Nat.div_mul by exact Habc. simpl. lia. }
    rewrite Heq, Nat.eqb_refl. cbn [bind].
    eexists. eexists. split; [reflexivity|]. cbn [shape]. rewrite HsizeT.
    split; [reflexivity|].
    rewrite <- HsizeT. unfold size. rewrite Hprod. apply Nat.Div0.mod_mul.
  - intros Habc. unfold reshape, resolve_shape.
    cbn [existsb filter known_prod fold_right map length].
    assert (Ha1 : (Z.of_nat a <? -1)%Z = false) by (apply Z.ltb_ge; lia).
    assert (Hb1 : (Z.of_nat b <? -1)%Z = false) by (apply Z.ltb_ge; lia).
    assert (Hc1 : (Z.of_nat c <? -1)%Z = false) by (apply Z.ltb_ge; lia).
    assert (Ha' : (Z.of_nat a =? -1)%Z = false) by (apply Z.eqb_neq; lia).
    assert (Hb' : (Z.of_nat b =? -1)%Z = false) by (apply Z.eqb_neq; lia).
    assert (Hc' : (Z.of_nat c =? -1)%Z = false) by (apply Z.eqb_neq; lia).
    rewrite Ha1, Hb1, Hc1, Ha', Hb', Hc'. cbn.
    assert (Hk : Z.to_nat (Z.of_nat a * (Z.of_nat b * (Z.of_nat c * 1))) = 0) by lia.
    rewrite Hk. reflexivity.
Qed.

(** [prepare_data] returns exactly for an array of at least three
    dimensions, an order string no longer than the number of dimensions
    that holds 'x', 'y' and 'z', and latitude, longitude and level axes
    (found in the lower-cased string) that are not empty.  Whatever it
    raises is a [ValueError]. *)
Theorem prepare_data_domain (data : ndarray A) (dim_order : string) :
  let pos := fun c => Z.to_nat (str_find (lower dim_order) c) in
  ((exists r, prepare_data data dim_order = Ok r)
   <-> 3 <= ndim data
       /\ String.length dim_order <= ndim data
       /\ str_contains "x" dim_order = true
       /\ str_contains "y" dim_order = true
       /\ str_contains "z" dim_order = true
       /\ nth (pos "y"%char) (shape data) 0 * nth (pos "x"%char) (shape data) 0
          * nth (pos "z"%char) (shape data) 0 <> 0)
  /\ (forall e, prepare_data data dim_order = Raise e -> exists msg, e = ValueError msg).
Proof.
  intros pos.
  destruct (Nat.ltb_spec (ndim data) 3) as [H3|H3].
  { assert (Hr : prepare_data data dim_order
                 = Raise (ValueError "Input fields must be at least 3D")).
    { unfold prepare_data. destruct (Nat.ltb_spec (ndim data) 3); [reflexivity | lia]. }
    rewrite Hr. split.
    - split; [intros [r Hx]; discriminate | intros [H _]; lia].
    - intros e [= <-]. eexists. reflexivity. }
  destruct (Nat.ltb_spec (ndim data) (String.length dim_order)) as [Hl|Hl].
  { assert (Hr : prepare_data data dim_order
                 = Raise (ValueError "Inconsistent number dimensions'dim_order' must have length {}")).
    { unfold prepare_data. destruct (Nat.ltb_spec (ndim data) 3); [lia|].
      destruct (Nat.ltb_spec (ndim data) (String.length dim_order)); [reflexivity | lia]. }
    rewrite Hr. split.
    - split; [intros [r Hx]; discriminate | intros (_ & H & _); lia].
    - intros e [= <-]. eexists. reflexivity. }
  assert (Hhead : forall k : result (ndarray A * info_dict),
            (if ndim data <? 3
             then Raise (ValueError "Input fields must be at least 3D")
             else if ndim data <? String.length dim_order
             then Raise (ValueError "Inconsistent number dimensions'dim_order' must have length {}")
             else k) = k).
  { intros k. destruct (Nat.ltb_spec (ndim data) 3); [lia|].
    destruct (Nat.ltb_spec (ndim data) (String.length dim_order)); [lia | reflexivity]. }
  destruct (str_contains "x" dim_order) eqn:Hcx; cycle 1.
  { assert (Hr : prepare_data data dim_order
                 = Raise (ValueError "A latitude-longitude grid is required")).
    { unfold prepare_data. rewrite Hhead, Hcx. reflexivity. }
    rewrite Hr. split.
    - split; [intros [r Hx]; discriminate | intros (_ & _ & H & _); discriminate].
    - intros e [= <-]. eexists. reflexivity. }
  destruct (str_contains "y" dim_order) eqn:Hcy; cycle 1.
  { assert (Hr : prepare_data data dim_order
                 = Raise (ValueError "A latitude-longitude grid is required")).
    { unfold prepare_data. rewrite Hhead, Hcx, Hcy. reflexivity. }
    rewrite Hr. split.
    - split; [intros [r Hx]; discriminate | intros (_ & _ & _ & H & _); discriminate].
    - intros e [= <-]. eexists. reflexivity. }
  destruct (str_contains "z" dim_order) eqn:Hcz; cycle 1.
  { assert (Hr : prepare_data data dim_order
                 = Raise (ValueError "A vertical grid is required")).
    { unfold prepare_data. rewrite Hhead, Hcx, Hcy, Hcz. reflexivity. }
    rewrite Hr. split.
    - split; [intros [r Hx]; discriminate | intros (_ & _ & _ & _ & H & _); discriminate].
    - intros e [= <-]. eexists. reflexivity. }
  destruct (str_contains_index _ _ (@str_contains_lower "x" dim_order eq_refl Hcx)) as [x Hx].
  destruct (str_contains_index _ _ (@str_contains_lower "y" dim_order eq_refl Hcy)) as [y Hy].
  destruct (str_contains_index _ _ (@str_contains_lower "z" dim_order eq_refl Hcz)) as [z Hz].
  assert (Hpy : pos "y"%char = y) by (unfold pos, str_find; rewrite Hy; apply Nat2Z.id).
  assert (Hpx : pos "x"%char = x) by (unfold pos, str_find; rewrite Hx; apply Nat2Z.id).
  assert (Hpz : pos "z"%char = z) by (unfold pos, str_find; rewrite Hz; apply Nat2Z.id).
  rewrite Hpy, Hpx, Hpz.
  destruct (@prepare_data_packs data dim_order y x z H3 Hl Hcx Hcy Hcz Hy Hx Hz)
    as [Hok Hbad].
  destruct (Nat.eq_dec (nth y (shape data) 0 * nth x (shape data) 0
                        * nth z (shape data) 0) 0) as [E|E].
  - rewrite (Hbad E). split.
    + split; [intros [r Hr]; discriminate | intros (_ & _ & _ & _ & _ & H); contradiction].
    + intros e [= <-]. eexists. reflexivity.
  - destruct (Hok E) as (packed & info & Hrun & _). rewrite Hrun. split.
    + split; [intros _; repeat split; try assumption; lia | intros _; eexists; reflexivity].
    + intros e He. discriminate.
Qed.

End Prepare.

Lemma py_nth_index (s : list nat) (i : nat) : py_nth s (Z.of_nat i) = nth i s 0.
Proof.
  unfold py_nth. destruct (Z.ltb_spec (Z.of_nat i) 0); [lia|].
  rewrite Nat2Z.id. reflexivity.
Qed.

(** The dimensions that [__init__] reads off the shape of [u] are those of
    the array that [prepare_data] (through [_transform_data]) makes of it:
    (nlat, nlon, samples, nlevels), the samples being all the points of the
    other axes. *)
Theorem init_dimensions_are_prepared_shape
  (u v w t p : ndarray fp) (axes : option string) (level_type grid_type : string)
  (d : dims) :
  init_validate u v w t p axes level_type grid_type = Ok d ->
  str_contains "x" (d_axes d) = true ->
  str_contains "y" (d_axes d) = true ->
  str_contains "z" (d_axes d) = true ->
  d_nlon d * d_nlat d * d_nlevels d <> 0 ->
  exists packed info,
    prepare_data u (d_axes d) = Ok (packed, info)
    /\ shape packed = [d_nlat d; d_nlon d; d_samples d; d_nlevels d]
    /\ d_samples d * (d_nlon d * d_nlat d * d_nlevels d) = size u.
Proof.
  unfold init_validate.
  destruct (any_nan u || any_nan v); [discriminate|].
  destruct (negb (shape_eqb (shape u) (shape v))); [discriminate|].
  destruct (negb (shape_eqb (shape t) (shape u))); [discriminate|].
  destruct (negb (shape_eqb (shape w) (shape u))); [discriminate|].
  destruct (Nat.ltb_spec (ndim u) 3) as [?|H3]; [discriminate|].
  set (axes0 := match axes with None => "tzyx"%string | Some a => a end).
  destruct (Nat.eqb_spec (String.length axes0) (ndim u)) as [Hlen|?]; [|discriminate].
  cbn [negb].
  match goal with
  | |- (_ <- ?c ;; _) = _ -> _ => destruct c as [[]|]; [|discriminate]
  end.
  cbn [bind].
  destruct (negb _); [discriminate|].
  intros [= <-]. cbn [d_axes d_nlon d_nlat d_nlevels d_samples].
  intros Hcx Hcy Hcz Hnz.
  destruct (str_contains_index _ _ Hcx) as [x Hx].
  destruct (str_contains_index _ _ Hcy) as [y Hy].
  destruct (str_contains_index _ _ Hcz) as [z Hz].
  unfold str_find in *. rewrite Hx, Hy, Hz in *. rewrite !py_nth_index in *.
  destruct (@prepare_data_packs fp u (lower axes0) y x z H3
              ltac:(rewrite lower_length; lia) Hcx Hcy Hcz
              ltac:(rewrite lower_idem; exact Hy)
              ltac:(rewrite lower_idem; exact Hx)
              ltac:(rewrite lower_idem; exact Hz)) as [Hok _].
  set (ny := nth y (shape u) 0) in *. set (nx := nth x (shape u) 0) in *.
  set (nz := nth z (shape u) 0) in *.
  assert (Hprod : nx * ny * nz = ny * nx * nz) by lia.
  destruct (Hok ltac:(lia)) as (packed & info & Hrun & Hshape & Hmod).
  exists packed, info. split; [exact Hrun|].
  fold (size u). rewrite Hprod. split; [exact Hshape|].
  apply Nat.Div0.div_exact in Hmod. lia.
Qed.

Lemma init_dimensions_are_prepared_shape_witness :
  exists d packed info,
    init_validate (AEBFacts.constant_field [2; 3; 4; 5] (FVal 1))
                  (AEBFacts.constant_field [2; 3; 4; 5] (FVal 1))
                  (AEBFacts.constant_field [2; 3; 4; 5] (FVal 1))
                  (AEBFacts.constant_field [2; 3; 4; 5] (FVal 1))
                  (AEBFacts.constant_field [3] (FVal 1))
                  None "pressure" "gaussian" = Ok d
    /\ prepare_data (AEBFacts.constant_field [2; 3; 4; 5] (FVal 1)) (d_axes d)
       = Ok (packed, info)
    /\ shape packed = [d_nlat d; d_nlon d; d_samples d; d_nlevels d]
    /\ d_samples d * (d_nlon d * d_nlat d * d_nlevels d)
       = size (AEBFacts.constant_field [2; 3; 4; 5] (FVal 1)).
Proof.
  eexists.
  assert (Hinit : init_validate (AEBFacts.constant_field [2; 3; 4; 5] (FVal 1))
                  (AEBFacts.constant_field [2; 3; 4; 5] (FVal 1))
                  (AEBFacts.constant_field [2; 3; 4; 5] (FVal 1))
                  (AEBFacts.constant_field [2; 3; 4; 5] (FVal 1))
                  (AEBFacts.constant_field [3] (FVal 1))
                  None "pressure" "gaussian" = Ok _) by (vm_compute; reflexivity).
  destruct (init_dimensions_are_prepared_shape _ _ _ _ _ _ _ _ Hinit)
    as (packed & info & H1 & H2 & H3); try reflexivity; [vm_compute; lia|].
  exists packed, info. split; [exact Hinit|]. split; [exact H1|]. split; assumption.
Defined.

End PrepareFacts.

(** *** Packed levels *)

Module LevelFacts.
Import Tools AEB ListFacts ToolsFacts Np AEBArrays.

Section PackingFacts.
Variable A : Type.

(** The array [a] read through another shape of the same size. *)
Definition view (a : ndarray A) (s : list nat) : ndarray A :=
  {| shape := s; elem := fun idx => elem a (unravel (shape a) (ravel s idx)) |}.

Lemma view_view (a : ndarray A) (s1 s2 : list nat) :
  nprod s2 = nprod s1 -> array_eq (view (view a s1) s2) (view a s2).
Proof.
  intros H. split; [reflexivity|]. cbn [shape elem view]. intros idx Hidx.
  rewrite ravel_unravel; [reflexivity|].
  rewrite <- H. apply ravel_lt. exact Hidx.
Qed.

Lemma view_own_shape (a : ndarray A) : array_eq (view a (shape a)) a.
Proof.
  split; [reflexivity|]. cbn [shape elem view]. intros idx Hidx.
  rewrite unravel_ravel by exact Hidx. reflexivity.
Qed.

Lemma squeeze_no_unit (a : ndarray A) :
  forallb (fun d => negb (d =? 1)) (shape a) = true ->
  squeeze a = view a (shape a).
Proof.
  intros H. unfold squeeze, view. rewrite (forallb_filter_id _ _ H). reflexivity.
Qed.

Lemma resolve_shape_last (total a b : nat) :
  a * b <> 0 -> total mod (a * b) = 0 ->
  resolve_shape total [Z.of_nat a; Z.of_nat b; (-1)%Z] = Ok [a; b; total / (a * b)].
Proof.
  intros Hnz Hdiv. unfold resolve_shape. cbn [existsb filter known_prod fold_right map].
  assert (Ha : (Z.of_nat a <? -1)%Z = false) by (apply Z.ltb_ge; lia).
  assert (Hb : (Z.of_nat b <? -1)%Z = false) by (apply Z.ltb_ge; lia).
  assert (Ha' : (Z.of_nat a =? -1)%Z = false) by (apply Z.eqb_neq; lia).
  assert (Hb' : (Z.of_nat b =? -1)%Z = false) by (apply Z.eqb_neq; lia).
  rewrite Ha, Hb, Ha', Hb'. cbn.
  assert (Hk : Z.to_nat (Z.of_nat a * (Z.of_nat b * 1)) = a * b) by lia.
  rewrite Hk, !Nat2Z.id.
  assert ((a * b =? 0) = false) as -> by (apply Nat.eqb_neq; exact Hnz).
  rewrite Hdiv. cbn. reflexivity.
Qed.

(** Packing a (nlat, nlon, samples, nlevels) array: the packed array and
    the array that reshaping it back gives. *)
Lemma pack_levels_views (nlat nlon samples nlevels : nat) (data : ndarray A) :
  shape data = [nlat; nlon; samples; nlevels] ->
  nlat * nlon <> 0 -> nlat <> 1 -> nlon <> 1 -> samples * nlevels <> 1 ->
  let s1 := [nlat; nlon; samples * nlevels] in
  let s2 := [nlat; nlon; samples; nlevels] in
  let packed := view (view data s1) s1 in
  reshape data (shape_spec [nlat; nlon] ++ [(-1)%Z]) = Ok (view data s1)
  /\ squeeze (view data s1) = packed
  /\ reshape packed (shape_spec (removelast (shape packed) ++ [samples; nlevels]))
     = Ok (view packed s2)
  /\ array_eq (view packed s2) data
  /\ array_eq (view (view packed s2) s2) data.
Proof.
  intros Hsh Hnz Hlat Hlon Hsl s1 s2 packed.
  assert (Hsize : size data = nlat * nlon * (samples * nlevels)).
  { unfold size. rewrite Hsh. simpl. lia. }
  assert (Hu1 : forallb (fun d => negb (d =? 1)) s1 = true).
  { unfold s1. cbn [forallb].
    apply Nat.eqb_neq in Hlat, Hlon, Hsl. rewrite Hlat, Hlon, Hsl. reflexivity. }
  assert (Hp1 : nprod s1 = size data) by (unfold s1; simpl; lia).
  assert (Hp2 : nprod s2 = size data) by (unfold s2; simpl; lia).
  assert (Hq : size data / (nlat * nlon) = samples * nlevels).
  { rewrite Hsize. replace (nlat * nlon * (samples * nlevels))
      with (samples * nlevels * (nlat * nlon)) by lia.
    apply Nat.div_mul. exact Hnz. }
  assert (Hm : size data mod (nlat * nlon) = 0).
  { rewrite Hsize. replace (nlat * nlon * (samples * nlevels))
      with (samples * nlevels * (nlat * nlon)) by lia.
    apply Nat.Div0.mod_mul. }
  assert (Hv2 : array_eq (view packed s2) data).
  { unfold packed.
    apply array_eq_trans with (b := view (view data s1) s2);
      [apply view_view; rewrite Hp2, Hp1; reflexivity|].
    apply array_eq_trans with (b := view data s2);
      [apply view_view; rewrite Hp2, Hp1; reflexivity|].
    unfold s2. rewrite <- Hsh. apply view_own_shape. }
  split.
  { unfold reshape. cbn [shape_spec map app].
    rewrite (@resolve_shape_last (size data) nlat nlon Hnz Hm). cbn [bind]. rewrite Hq.
    fold s1. rewrite Hp1, Nat.eqb_refl. reflexivity. }
  split; [apply squeeze_no_unit; exact Hu1|].
  split.
  { assert (Heq : nprod s2 = nprod s1) by (rewrite Hp1, Hp2; reflexivity).
    unfold packed, reshape, size. cbn [shape view].
    change (removelast s1 ++ [samples; nlevels]) with s2.
    rewrite resolve_shape_spec. cbn [bind].
    rewrite Heq, Nat.eqb_refl. reflexivity. }
  split; [exact Hv2|].
  apply array_eq_trans with (b := view packed s2); [apply view_view; reflexivity | exact Hv2].
Qed.

(** Packing the sample and level axes of a (nlat, nlon, samples, nlevels)
    array and unpacking them gives the array back, when no axis has
    length 1 (there [squeeze] would drop it) and [nlat] is not 2 (there
    the array is taken for a vector field). *)
Theorem pack_unpack_levels_roundtrip
  (nlat nlon samples nlevels ncoeffs : nat) (data : ndarray A) :
  shape data = [nlat; nlon; samples; nlevels] ->
  nlat <> 2 -> nlat * nlon <> 0 ->
  nlat <> 1 -> nlon <> 1 -> samples <> 1 -> nlevels <> 1 ->
  exists packed out,
    _pack_levels nlat ncoeffs data = Return packed
    /\ shape packed = [nlat; nlon; samples * nlevels]
    /\ _unpack_levels samples nlevels packed = Return out
    /\ array_eq out data.
Proof.
  intros Hsh H2 Hnz Hlat Hlon Hs Hl.
  assert (Hsl : samples * nlevels <> 1) by nia.
  destruct (@pack_levels_views nlat nlon samples nlevels data Hsh Hnz Hlat Hlon Hsl)
    as (Hres & Hsq & Hback & _ & Hout).
  set (s1 := [nlat; nlon; samples * nlevels]) in *.
  set (s2 := [nlat; nlon; samples; nlevels]) in *.
  set (packed := view (view data s1) s1) in *.
  assert (Hu2 : forallb (fun d => negb (d =? 1)) s2 = true).
  { unfold s2. cbn [forallb].
    apply Nat.eqb_neq in Hlat, Hlon, Hs, Hl. rewrite Hlat, Hlon, Hs, Hl. reflexivity. }
  exists packed, (view (view packed s2) s2).
  split.
  { unfold _pack_levels. rewrite Hsh. unfold s2.
    destruct (Nat.eqb_spec nlat 2) as [E|_]; [lia|].
    rewrite Nat.eqb_refl. cbn [firstn]. rewrite Hres, Hsq. reflexivity. }
  split; [reflexivity|]. split; [|exact Hout].
  unfold _unpack_levels. rewrite Hback.
  change (shape packed) with s1. unfold s1. cbn [last].
  rewrite Nat.eqb_refl. f_equal. apply (@squeeze_no_unit (view packed s2)). exact Hu2.
Qed.

(** In [seba.py] unpacking does not squeeze: the round trip gives the
    array back also for a single sample or a single level. *)
Theorem seba_pack_unpack_levels_roundtrip
  (nlat nlon samples nlevels nlm : nat) (data : ndarray A) :
  shape data = [nlat; nlon; samples; nlevels] ->
  nlat <> 2 -> nlat * nlon <> 0 ->
  nlat <> 1 -> nlon <> 1 -> samples * nlevels <> 1 ->
  exists packed out,
    SebaArrays._pack_levels nlat nlm data = Return packed
    /\ shape packed = [nlat; nlon; samples * nlevels]
    /\ SebaArrays._unpack_levels samples nlevels packed = Return out
    /\ array_eq out data.
Proof.
  intros Hsh H2 Hnz Hlat Hlon Hsl.
  destruct (@pack_levels_views nlat nlon samples nlevels data Hsh Hnz Hlat Hlon Hsl)
    as (Hres & Hsq & Hback & Hout & _).
  set (s1 := [nlat; nlon; samples * nlevels]) in *.
  set (s2 := [nlat; nlon; samples; nlevels]) in *.
  set (packed := view (view data s1) s1) in *.
  exists packed, (view packed s2).
  split.
  { unfold SebaArrays._pack_levels. rewrite Hsh. unfold s2.
    destruct (Nat.eqb_spec nlat 2) as [E|_]; [lia|].
    rewrite Nat.eqb_refl. cbn [firstn]. rewrite Hres, Hsq. reflexivity. }
  split; [reflexivity|]. split; [|exact Hout].
  unfold SebaArrays._unpack_levels. rewrite Hback.
  change (shape packed) with s1. unfold s1. cbn [last].
  rewrite Nat.eqb_refl. reflexivity.
Qed.

End PackingFacts.

Definition grid_field : ndarray nat :=
  {| shape := [3; 2; 2; 2]; elem := ravel [3; 2; 2; 2] |}.

Lemma pack_unpack_levels_roundtrip_witness :
  exists packed out,
    _pack_levels 3 6 grid_field = Return packed
    /\ shape packed = [3; 2; 2 * 2]
    /\ _unpack_levels 2 2 packed = Return out
    /\ array_eq out grid_field.
Proof.
  apply (@pack_unpack_levels_roundtrip nat 3 2 2 2 6 grid_field); try reflexivity; lia.
Defined.

Definition single_sample_field : ndarray nat :=
  {| shape := [3; 2; 1; 4]; elem := ravel [3; 2; 1; 4] |}.

Lemma seba_pack_unpack_levels_roundtrip_witness :
  exists packed out,
    SebaArrays._pack_levels 3 6 single_sample_field = Return packed
    /\ shape packed = [3; 2; 1 * 4]
    /\ SebaArrays._unpack_levels 1 4 packed = Return out
    /\ array_eq out single_sample_field.
Proof.
  apply (@seba_pack_unpack_levels_roundtrip nat 3 2 1 4 6 single_sample_field);
    try reflexivity; lia.
Defined.

End LevelFacts.

(** *** Read-only attributes *)

Module AttributesFacts.
Import Attributes.

Section DictFacts.
Variable V : Type.

Lemma dict_get_set_other (key key' : string) (val : V) (d : dict V) :
  key' <> key -> dict_get key (dict_set key' val d) = dict_get key d.
Proof.
  intros Hne. induction d as [|[k v] d IH]; cbn [dict_set dict_get].
  - destruct (String.eqb_spec key' key); [contradiction | reflexivity].
  - destruct (String.eqb_spec k key') as [E|E]; cbn [dict_get].
    + subst k. destruct (String.eqb_spec key' key); [contradiction | reflexivity].
    + destruct (String.eqb_spec k key); [reflexivity | exact IH].
Qed.

Lemma dict_get_del_other (key key' : string) (d d' : dict V) :
  key' <> key -> dict_del key' d = Return d' -> dict_get key d' = dict_get key d.
Proof.
  intros Hne. revert d'. induction d as [|[k v] d IH]; intros d'; cbn [dict_del dict_get].
  - discriminate.
  - destruct (String.eqb_spec k key') as [E|E].
    + intros [= <-]. subst k.
      destruct (String.eqb_spec key' key); [contradiction | reflexivity].
    + destruct (dict_del key' d) as [d''|e]; [|discriminate].
      intros [= <-]. cbn [dict_get].
      destruct (String.eqb_spec k key); [reflexivity | apply IH; reflexivity].
Qed.

Lemma mem_private_in (private_vars : list string) (key : string) :
  In key private_vars -> mem_private private_vars key = true.
Proof.
  intros H. unfold mem_private. apply existsb_exists. exists key.
  split; [exact H | apply String.eqb_refl].
Qed.

Lemma attempt_keeps (private_vars : list string) (d : dict V) (key : string) (v : V)
  (op : attr_op V) :
  In key private_vars -> dict_get key d = Some v ->
  dict_get key (match attempt private_vars d op with
                | Return d' => d'
                | Throw _ => d
                end) = Some v.
Proof.
  intros Hp Hg. destruct op as [k val | k]; cbn [attempt].
  - unfold __setattr__. destruct (String.eqb_spec k key) as [->|Hne].
    + unfold dict_mem. rewrite Hg, (mem_private_in _ _ Hp). exact Hg.
    + destruct (dict_mem k d && mem_private private_vars k); [exact Hg|].
      rewrite dict_get_set_other by exact Hne. exact Hg.
  - unfold __delattr__. destruct (String.eqb_spec k key) as [->|Hne].
    + unfold dict_mem. rewrite Hg, (mem_private_in _ _ Hp). exact Hg.
    + destruct (dict_mem k d && mem_private private_vars k); [exact Hg|].
      destruct (dict_del k d) as [d'|e] eqn:Hd; [|exact Hg].
      rewrite (@dict_get_del_other key k d d' Hne Hd). exact Hg.
Qed.

(** A read-only attribute, once bound, keeps its value: assigning to it or
    deleting it raises [AttributeError], and no sequence of attempted
    assignments and deletions changes it. *)
Theorem read_only_attribute_keeps_value
  (private_vars : list string) (d : dict V) (key : string) (v : V) :
  In key private_vars -> dict_get key d = Some v ->
  (forall val, __setattr__ private_vars d key val
     = Throw (AttributeError ("Attempt to rebind read-only instance variable " ++ key)))
  /\ __delattr__ private_vars d key
     = Throw (AttributeError ("Attempt to unbind read-only instance variable " ++ key))
  /\ forall ops, dict_get key (attempt_all private_vars d ops) = Some v.
Proof.
  intros Hp Hg. split; [|split].
  - intros val. unfold __setattr__, dict_mem.
    rewrite Hg, (mem_private_in _ _ Hp). reflexivity.
  - unfold __delattr__, dict_mem. rewrite Hg, (mem_private_in _ _ Hp). reflexivity.
  - intros ops. revert d Hg. unfold attempt_all.
    induction ops as [|op ops IH]; intros d Hg; [exact Hg|].
    cbn [fold_left]. apply IH. apply attempt_keeps; assumption.
Qed.

End DictFacts.

Lemma read_only_attribute_keeps_value_witness :
  (forall val : nat, __setattr__ AEB_private_vars [("nlat"%string, 3)] "nlat" val
     = Throw (AttributeError ("Attempt to rebind read-only instance variable " ++ "nlat")))
  /\ __delattr__ AEB_private_vars [("nlat"%string, 3)] "nlat"
     = Throw (AttributeError ("Attempt to unbind read-only instance variable " ++ "nlat"))
  /\ forall ops, dict_get "nlat" (attempt_all AEB_private_vars [("nlat"%string, 3)] ops)
                 = Some 3.
Proof.
  apply (@read_only_attribute_keeps_value nat AEB_private_vars [("nlat"%string, 3)] "nlat" 3).
  - right. left. reflexivity.
  - reflexivity.
Defined.

End AttributesFacts.

(** ** Facts about the mask fraction and the conversion terms of src/seba.py *)

Module FractionFacts.
Import Tools Seba ListFacts SebaFacts.
Open Scope R_scope.
Import SpectrumFacts TotalFacts AverageFacts.

(** A weighted sum of values in [0, 1] lies between 0 and the sum of the
    weights, for weights that are not negative. *)
Lemma weighted_sum_unit (xs w : list R) :
  Forall (fun x => 0 <= x <= 1) xs -> Forall (fun v => 0 <= v) w ->
  0 <= rsum (zip_with Rmult xs w) <= rsum w.
Proof.
  unfold zip_with. intros Hx. revert w. induction Hx as [|x xs Hx0 _ IH]; intros w Hw.
  - cbn. split; [lra | apply rsum_nonneg; exact Hw].
  - destruct w as [|v w]; [cbn; lra|].
    inversion Hw as [|? ? Hv Hw']; subst. specialize (IH w Hw').
    cbn [combine map rsum fold_right fst snd].
    fold (rsum (map (fun xy : R * R => fst xy * snd xy) (combine xs w))).
    fold (rsum w).
    assert (H0 : 0 <= x * v) by nra.
    assert (H1 : x * v <= v) by nra.
    lra.
Qed.

Lemma average_unit (xs w : list R) :
  Forall (fun x => 0 <= x <= 1) xs -> Forall (fun v => 0 <= v) w -> 0 < rsum w ->
  0 <= average w xs <= 1.
Proof.
  intros Hx Hw Hs. unfold average.
  destruct (weighted_sum_unit Hx Hw) as [H0 H1]. split.
  - apply Rmult_le_pos; [exact H0|]. left. apply Rinv_0_lt_compat. exact Hs.
  - apply Rmult_le_reg_r with (r := rsum w); [exact Hs|].
    unfold Rdiv. rewrite Rmult_assoc, Rinv_l by lra. lra.
Qed.

Lemma rsum_bounds {X : Type} (f : X -> R) (l : list X) :
  (forall x, In x l -> 0 <= f x <= 1) -> 0 <= rsum (map f l) <= INR (length l).
Proof.
  induction l as [|x l IH]; intros H.
  - cbn. lra.
  - cbn [map rsum fold_right length]. fold (rsum (map f l)). rewrite S_INR.
    specialize (H x (or_introl eq_refl)) as Hx.
    assert (Hl : 0 <= rsum (map f l) <= INR (length l))
      by (apply IH; intros y Hy; apply H; right; exact Hy).
    lra.
Qed.

Lemma weighted_sum_ones (w : list R) :
  rsum (zip_with Rmult (map (fun _ => 1) w) w) = rsum w.
Proof.
  unfold zip_with. induction w as [|v w IH]; simpl; [reflexivity|].
  rewrite IH. lra.
Qed.

Section Fraction.

(** [beta_fraction], the divisor of every cross-spectrum, is a fraction:
    it lies between 0 and 1 at every sample and level, and it is 1 where
    no grid point is masked. *)
Theorem beta_fraction_is_a_fraction (st : state) (q : nat) :
  mask_fields_initialised st ->
  Forall (fun v => 0 <= v) (weights st) -> 0 < rsum (weights st) ->
  (nlon st <> 0)%nat ->
  (q < length (beta_fraction st))%nat ->
  0 <= nth q (beta_fraction st) 0 <= 1
  /\ (length (mask st) = length (weights st) ->
      (forall mrow j, In mrow (mask st) -> (j < nlon st)%nat ->
         nth q (nth j mrow []) true = false) ->
      nth q (beta_fraction st) 0 = 1).
Proof.
  intros Hinit Hw Hs Hlon Hq.
  rewrite (beta_fraction_is_valid_fraction Hinit Hq). unfold valid_fraction.
  assert (Hn : 0 < INR (nlon st)) by (apply lt_0_INR; lia).
  split.
  - pose proof (@rsum_bounds nat
        (fun j => average (weights st)
                    (map (fun mrow => if nth q (nth j mrow []) true then 0 else 1)
                         (mask st)))
        (seq 0 (nlon st))) as Hb.
    rewrite length_seq in Hb.
    assert (Hall : forall j, In j (seq 0 (nlon st)) ->
              0 <= average (weights st)
                     (map (fun mrow => if nth q (nth j mrow []) true then 0 else 1)
                          (mask st)) <= 1).
    { intros j _. apply average_unit; [|exact Hw|exact Hs].
      apply Forall_map, Forall_forall. intros mrow _.
      destruct (nth q (nth j mrow []) true); lra. }
    specialize (Hb Hall). split.
    + apply Rmult_le_pos; [lra|]. left. apply Rinv_0_lt_compat. exact Hn.
    + apply Rmult_le_reg_r with (r := INR (nlon st)); [exact Hn|].
      unfold Rdiv. rewrite Rmult_assoc, Rinv_l by lra. lra.
  - intros Hlen Hfree.
    rewrite (rsum_ext_in _ (fun _ => 1)).
    + rewrite rsum_const, length_seq. field. lra.
    + intros j Hj. apply in_seq in Hj.
      assert (Hones : map (fun mrow => if nth q (nth j mrow []) true then 0 else 1)
                          (mask st)
                      = repeat 1 (length (weights st))).
      { rewrite <- Hlen. apply map_const_repeat. intros mrow Hm.
        rewrite (Hfree mrow j Hm) by lia. reflexivity. }
      rewrite Hones. apply average_repeat. lra.
Qed.

End Fraction.

Lemma beta_fraction_is_a_fraction_witness :
  0 <= nth 0 (beta_fraction one_point) 0 <= 1
  /\ (length (mask one_point) = length (weights one_point) ->
      (forall mrow j, In mrow (mask one_point) -> (j < nlon one_point)%nat ->
         nth 0 (nth j mrow []) true = false) ->
      nth 0 (beta_fraction one_point) 0 = 1).
Proof.
  apply (@beta_fraction_is_a_fraction one_point 0).
  - split; reflexivity.
  - repeat constructor. simpl. lra.
  - simpl. lra.
  - simpl. lia.
  - simpl. lia.
Defined.

(** The state with the divergent and the rotational wind exchanged. *)
Definition exchange_div_rot (st : state) : state :=
  {| nlat := nlat st; nlon := nlon st; samples := samples st; nlevels := nlevels st;
     truncation := truncation st; weights := weights st; pressure := pressure st;
     norm := norm st; mask := mask st; beta := beta st;
     beta_fraction := beta_fraction st; omega := omega st; wind := wind st;
     wind_shear := wind_shear st;
     wind_div := wind_rot st; wind_rot := wind_div st;
     fc := fc st; vrt := vrt st |}.

Lemma half_difference_swapped (a b : spectrum) :
  spec_half (spec_sub b a) = spec_neg (spec_half (spec_sub a b)).
Proof.
  unfold spec_half, spec_neg, spec_sub, zip_with.
  revert b. induction a as [|ra a IH]; intros [|rb b]; try reflexivity.
  cbn [combine map fst snd]. rewrite IH. f_equal.
  clear. revert rb. induction ra as [|x ra IH]; intros [|y rb]; try reflexivity.
  cbn [combine map fst snd]. rewrite IH. f_equal. lra.
Qed.

Section Exchange.
Variable integrate_order : list (list complex) -> nat -> list (list complex).
Variable getvrtdivspec : list R -> list R -> list (list complex) * list (list complex).
Variable rotate_vector : mvector -> mvector.

Lemma vector_spectra_exchange (st : state) (v1 : mvector) (v2 : option mvector) :
  _vector_spectra integrate_order getvrtdivspec (exchange_div_rot st) v1 v2
  = _vector_spectra integrate_order getvrtdivspec st v1 v2.
Proof. reflexivity. Qed.

(** Exchanging the divergent and the rotational wind turns the Coriolis
    and the vorticity conversion terms into their negatives. *)
Theorem conversion_terms_antisymmetric (st : state) (rc rv : spectrum) :
  conversion_dke_rke_coriolis integrate_order getvrtdivspec rotate_vector st = Ok rc ->
  conversion_dke_rke_vorticity integrate_order getvrtdivspec rotate_vector st = Ok rv ->
  conversion_dke_rke_coriolis integrate_order getvrtdivspec rotate_vector
    (exchange_div_rot st) = Ok (spec_neg rc)
  /\ conversion_dke_rke_vorticity integrate_order getvrtdivspec rotate_vector
       (exchange_div_rot st) = Ok (spec_neg rv).
Proof.
  unfold conversion_dke_rke_coriolis, conversion_dke_rke_vorticity.
  rewrite !vector_spectra_exchange. cbn [exchange_div_rot wind_div wind_rot fc vrt].
  intros Hc Hv. split.
  - destruct (_vector_spectra integrate_order getvrtdivspec st (wind_div st) _)
      as [a|]; [|discriminate].
    destruct (_vector_spectra integrate_order getvrtdivspec st (wind_rot st) _)
      as [b|]; [|discriminate].
    cbn [bind] in *. injection Hc as <-. rewrite half_difference_swapped. reflexivity.
  - clear Hc.
    destruct (_vector_spectra integrate_order getvrtdivspec st (wind_div st) _)
      as [a|]; [|discriminate].
    destruct (_vector_spectra integrate_order getvrtdivspec st (wind_rot st) _)
      as [b|]; [|discriminate].
    cbn [bind] in *. injection Hv as <-. rewrite half_difference_swapped. reflexivity.
Qed.

End Exchange.

Lemma conversion_terms_antisymmetric_witness :
  conversion_dke_rke_coriolis (fun c _ => c) one_mode quarter_turn two_winds
  = Ok [[3]]
  /\ conversion_dke_rke_vorticity (fun c _ => c) one_mode quarter_turn two_winds
     = Ok [[5]]
  /\ conversion_dke_rke_coriolis (fun c _ => c) one_mode quarter_turn
       (exchange_div_rot two_winds) = Ok (spec_neg [[3]])
  /\ conversion_dke_rke_vorticity (fun c _ => c) one_mode quarter_turn
       (exchange_div_rot two_winds) = Ok (spec_neg [[5]]).
Proof.
  split; [exact two_winds_coriolis|]. split; [exact two_winds_vorticity|].
  apply (@conversion_terms_antisymmetric (fun c _ => c) one_mode quarter_turn two_winds
           [[3]] [[5]] two_winds_coriolis two_winds_vorticity).
Defined.

End FractionFacts.

(** ** Facts about the datasets of src/io_tools.py *)

Module DatasetFacts.
Import Tools AEB IoTools IoNames.

Definition add_dim (names : list string) (dim : string) : list string :=
  if existsb (String.eqb dim) names then names else names ++ [dim].

Lemma existsb_eqb_in (dim : string) (names : list string) :
  existsb (String.eqb dim) names = true <-> In dim names.
Proof.
  rewrite existsb_exists. split.
  - intros (x & Hx & E). apply String.eqb_eq in E. subst. exact Hx.
  - intros H. exists dim. split; [exact H | apply String.eqb_refl].
Qed.

Lemma add_dims_spec (dims names : list string) :
  NoDup names ->
  let r := fold_left add_dim dims names in
  NoDup r
  /\ (forall d, In d r <-> In d names \/ In d dims)
  /\ exists extra, r = names ++ extra.
Proof.
  revert names. induction dims as [|dim dims IH]; intros names Hnd; cbn [fold_left].
  - split; [exact Hnd|]. split; [intros d; cbn; tauto|]. exists []. rewrite app_nil_r. reflexivity.
  - assert (Hnd' : NoDup (add_dim names dim)).
    { unfold add_dim. destruct (existsb (String.eqb dim) names) eqn:E; [exact Hnd|].
      apply NoDup_app; [exact Hnd | repeat constructor; intros [] |].
      intros x Hx [<-|[]]. apply existsb_eqb_in in Hx. congruence. }
    destruct (IH _ Hnd') as (H1 & H2 & extra & H3).
    split; [exact H1|]. split.
    + intros d. rewrite H2. unfold add_dim.
      destruct (existsb (String.eqb dim) names) eqn:E.
      * apply existsb_eqb_in in E. cbn [In]. split; [tauto|].
        intros [H|[<-|H]]; tauto.
      * rewrite in_app_iff. cbn [In]. tauto.
    + rewrite H3. unfold add_dim.
      destruct (existsb (String.eqb dim) names); [exists extra; reflexivity|].
      exists ([dim] ++ extra). rewrite app_assoc. reflexivity.
Qed.

Lemma coordinate_names_from (data_vars : list (string * list string))
  (names : list string) :
  NoDup names ->
  let r := fold_left (fun coord_names var => fold_left add_dim (snd var) coord_names)
                     data_vars names in
  NoDup r
  /\ (forall d, In d r <-> In d names \/ exists var, In var data_vars /\ In d (snd var))
  /\ exists extra, r = names ++ extra.
Proof.
  revert names. induction data_vars as [|var vars IH]; intros names Hnd; cbn [fold_left].
  - split; [exact Hnd|]. split.
    + intros d. split; [tauto|]. intros [H|(v & [] & _)]. exact H.
    + exists []. rewrite app_nil_r. reflexivity.
  - destruct (add_dims_spec (snd var) Hnd) as (H1 & H2 & e1 & H3).
    destruct (IH _ H1) as (G1 & G2 & e2 & G3).
    split; [exact G1|]. split.
    + intros d. rewrite G2, H2. split.
      * intros [[H|H]|(v & Hv & Hd)]; [tauto | right; exists var; cbn; tauto |].
        right. exists v. cbn. tauto.
      * intros [H|(v & [<-|Hv] & Hd)]; [tauto | tauto |].
        right. exists v. tauto.
    + rewrite G3, H3. exists (e1 ++ e2). rewrite app_assoc. reflexivity.
Qed.

(** The coordinate names are the dimension names of the data variables,
    every name once, in the order of their first appearance: the names
    found in a first part of the variables stay in front when more
    variables follow. *)
Theorem get_coordinate_names_first_appearance
  (vars more : list (string * list string)) :
  NoDup (get_coordinate_names vars)
  /\ (forall d, In d (get_coordinate_names vars)
                <-> exists var, In var vars /\ In d (snd var))
  /\ exists extra,
       get_coordinate_names (vars ++ more) = get_coordinate_names vars ++ extra.
Proof.
  unfold get_coordinate_names.
  destruct (@coordinate_names_from vars [] (NoDup_nil _)) as (H1 & H2 & _).
  split; [exact H1|]. split.
  - intros d. rewrite (H2 d). cbn [In]. tauto.
  - rewrite fold_left_app.
    destruct (@coordinate_names_from more _ H1) as (_ & _ & extra & H3).
    exists extra. exact H3.
Qed.

(** The sanity loop of [parse_dataset] passes exactly the fields without
    NaN that, 'pressure' apart, have at least three dimensions; whatever it
    refuses, it refuses with [ValueError]. *)
Theorem check_fields_accepts_iff (arrays : list (string * ndarray fp)) :
  (check_fields arrays = Ok tt
   <-> Forall (fun nv => any_nan (snd nv) = false
                         /\ (fst nv = "pressure"%string \/ 3 <= ndim (snd nv)))
              arrays)
  /\ (forall e, check_fields arrays = Raise e -> exists msg, e = ValueError msg).
Proof.
  induction arrays as [|[name values] arrays [IH1 IH2]]; cbn [check_fields].
  - split; [split; [constructor | reflexivity] | discriminate].
  - destruct (any_nan values) eqn:Hnan.
    + split.
      * split; [discriminate|]. intros H. inversion H as [|? ? [Hn _] _]; subst.
        cbn [snd] in Hn. congruence.
      * intros e [= <-]. eexists. reflexivity.
    + destruct (String.eqb_spec name "pressure") as [Ep|Ep]; cbn [negb andb].
      * split; [|exact IH2]. rewrite IH1. split.
        -- intros H. constructor; [|exact H]. cbn [fst snd]. tauto.
        -- intros H. inversion H; subst. assumption.
      * destruct (Nat.ltb_spec (ndim values) 3) as [Hd|Hd].
        -- split.
           ++ split; [discriminate|]. intros H.
              inversion H as [|? ? [_ [Hp|Hp]] _]; subst; cbn [fst snd] in *;
                [contradiction | lia].
           ++ intros e [= <-]. eexists. reflexivity.
        -- split; [|exact IH2]. rewrite IH1. split.
           ++ intros H. constructor; [|exact H]. cbn [fst snd]. tauto.
           ++ intros H. inversion H; subst. assumption.
Qed.

End DatasetFacts.
